(** * fqtest: the scripted-session test harness of fq (pkg/fqtest/fqtest.go)

    A shallow embedding of the transcript lexer ([SectionParser]), the escape
    decoder ([Unescape]), the transcript model builder ([parseTestCases]), the
    dialog simulator ([Readline], [Environ]) and the golden rewriter
    ([ToActual], [TestPath]), with the properties the specification states
    about them.

    Go strings are byte sequences: they are modelled by [string], one [ascii]
    per byte.  Go [int] is modelled by [Z] (only [strconv.Atoi] can reach the
    64-bit bounds, and its clamping is written out) and lengths and positions
    by [nat]. *)

From Stdlib Require Import ZArith Ascii String List Lia.
From stdpp Require Import base option list sorting gmap strings fin_maps.

(** ** Bytes and the functions of Go's [strings] package the source uses *)

Definition nl : string := String "010" "".   (* "\n" *)
Definition cr : string := String "013" "".   (* "\r" *)
Definition tab : string := String "009" "".  (* "\t" *)
Definition bs : string := String "008" "".   (* "\b" *)
Definition backslash : ascii := "092"%char.

Fixpoint string_of_bytes (l : list ascii) : string :=
  match l with
  | [] => ""
  | c :: l' => String c (string_of_bytes l')
  end.

Fixpoint bytes_of_string (s : string) : list ascii :=
  match s with
  | "" => []
  | String c s' => c :: bytes_of_string s'
  end.

Definition len (s : string) : nat := String.length s.

(** [strings.HasPrefix(s, prefix)] *)
Fixpoint HasPrefix (s prefix : string) {struct prefix} : bool :=
  match prefix, s with
  | "", _ => true
  | String p prefix', String c s' => Ascii.eqb c p && HasPrefix s' prefix'
  | String _ _, "" => false
  end.

(** [s[n:]] for [n <= len(s)] *)
Fixpoint drop_bytes (n : nat) (s : string) : string :=
  match n, s with
  | O, _ => s
  | S n', String _ s' => drop_bytes n' s'
  | S _, "" => ""
  end.

(** [s[:n]] for [n <= len(s)] *)
Fixpoint take_bytes (n : nat) (s : string) : string :=
  match n, s with
  | O, _ => ""
  | S n', String c s' => String c (take_bytes n' s')
  | S _, "" => ""
  end.

Definition string_rev (s : string) : string :=
  string_of_bytes (rev (bytes_of_string s)).

(** [strings.HasSuffix(s, suffix)] *)
Definition HasSuffix (s suffix : string) : bool :=
  HasPrefix (string_rev s) (string_rev suffix).

(** [strings.TrimPrefix(s, prefix)] *)
Definition TrimPrefix (s prefix : string) : string :=
  if HasPrefix s prefix then drop_bytes (len prefix) s else s.

(** [strings.TrimSuffix(s, suffix)] *)
Definition TrimSuffix (s suffix : string) : string :=
  if HasSuffix s suffix then take_bytes (len s - len suffix) s else s.

(** [strings.Contains(s, substr)] *)
Fixpoint Contains (s substr : string) : bool :=
  HasPrefix s substr ||
  match s with
  | "" => false
  | String _ s' => Contains s' substr
  end.

(** [strings.IndexByte(s, c)]; [None] stands for Go's [-1]. *)
Fixpoint IndexByte (s : string) (c : ascii) : option nat :=
  match s with
  | "" => None
  | String a s' => if Ascii.eqb a c then Some 0 else S <$> IndexByte s' c
  end.

(** [strings.LastIndex(s, substr)]; [None] stands for Go's [-1]. *)
Fixpoint LastIndex (s substr : string) : option nat :=
  match s with
  | "" => if HasPrefix s substr then Some 0 else None
  | String _ s' =>
      match LastIndex s' substr with
      | Some i => Some (S i)
      | None => if HasPrefix s substr then Some 0 else None
      end
  end.

(** [strings.Split(s, "\n")]: one more piece than there are newlines. *)
Fixpoint Split (s : string) : list string :=
  match s with
  | "" => [""]
  | String c s' =>
      if Ascii.eqb c "010" then "" :: Split s'
      else match Split s' with
           | [] => [String c ""]
           | l :: ls => String c l :: ls
           end
  end.

(** [strings.TrimSpace]: leading and trailing white space is removed, rune by
    rune.  A string starts (ends) with a white-space rune exactly when it
    starts (ends) with the UTF-8 encoding of one; the encodings of the code
    points of [unicode.IsSpace] are listed here. *)
Definition space_encodings : list string :=
  map string_of_bytes
    [ ["009"]; ["010"]; ["011"]; ["012"]; ["013"]; ["032"];
      ["194"; "133"]; ["194"; "160"];                    (* U+0085, U+00A0 *)
      ["225"; "154"; "128"];                             (* U+1680 *)
      ["226"; "128"; "128"]; ["226"; "128"; "129"]; ["226"; "128"; "130"];
      ["226"; "128"; "131"]; ["226"; "128"; "132"]; ["226"; "128"; "133"];
      ["226"; "128"; "134"]; ["226"; "128"; "135"]; ["226"; "128"; "136"];
      ["226"; "128"; "137"]; ["226"; "128"; "138"];      (* U+2000..U+200A *)
      ["226"; "128"; "168"]; ["226"; "128"; "169"];      (* U+2028, U+2029 *)
      ["226"; "128"; "175"]; ["226"; "129"; "159"];      (* U+202F, U+205F *)
      ["227"; "128"; "128"] ]%char.                      (* U+3000 *)

Definition leading_space (encs : list string) (s : string) : option nat :=
  len <$> List.find (HasPrefix s) encs.

Fixpoint trim_left (encs : list string) (fuel : nat) (s : string) : string :=
  match fuel with
  | O => s
  | S fuel' =>
      match leading_space encs s with
      | Some (S k) => trim_left encs fuel' (drop_bytes (S k) s)
      | _ => s
      end
  end.

Definition TrimLeftSpace (s : string) : string :=
  trim_left space_encodings (len s) s.

Definition TrimRightSpace (s : string) : string :=
  string_rev (trim_left (map string_rev space_encodings) (len s) (string_rev s)).

Definition TrimSpace (s : string) : string := TrimRightSpace (TrimLeftSpace s).

(** ** [strconv.Atoi] on a 64-bit platform

    The source discards the error, so the value returned next to an error
    matters: 0 for a syntax error, the nearest bound for a range error. *)

Local Open Scope Z_scope.

Definition maxUint64 : Z := 2 ^ 64 - 1.

Inductive numError := ErrSyntax | ErrRange.

Definition digit_val (c : ascii) : option Z :=
  let n := Z.of_nat (nat_of_ascii c) in
  if (48 <=? n) && (n <=? 57) then Some (n - 48) else None.

(** The fast path of [Atoi]: every byte must be a decimal digit. *)
Fixpoint atoi_digits (n : Z) (s : string) : option Z :=
  match s with
  | "" => Some n
  | String c s' =>
      match digit_val c with
      | Some d => atoi_digits (n * 10 + d) s'
      | None => None
      end
  end.

(** [strconv.ParseUint(s, 10, 0)] after its empty-string test: the range
    error is returned at the digit that overflows, before the rest is read. *)
Fixpoint parseUint_digits (n : Z) (s : string) : Z * option numError :=
  match s with
  | "" => (n, None)
  | String c s' =>
      match digit_val c with
      | None => (0, Some ErrSyntax)
      | Some d =>
          if maxUint64 / 10 + 1 <=? n then (maxUint64, Some ErrRange)
          else if maxUint64 <? n * 10 + d then (maxUint64, Some ErrRange)
          else parseUint_digits (n * 10 + d) s'
      end
  end.

Definition ParseUint (s : string) : Z * option numError :=
  match s with
  | "" => (0, Some ErrSyntax)
  | _ => parseUint_digits 0 s
  end.

(** [strconv.ParseInt(s, 10, 0)] *)
Definition ParseInt (s : string) : Z * option numError :=
  match s with
  | "" => (0, Some ErrSyntax)
  | String c s' =>
      let neg := Ascii.eqb c "-" in
      let digits := if Ascii.eqb c "+" || neg then s' else s in
      match ParseUint digits with
      | (_, Some ErrSyntax) => (0, Some ErrSyntax)
      | (un, _) =>
          let cutoff := 2 ^ 63 in
          if negb neg && (cutoff <=? un) then (cutoff - 1, Some ErrRange)
          else if neg && (cutoff <? un) then (- cutoff, Some ErrRange)
          else (if neg then - un else un, None)
      end
  end.

Definition Atoi (s : string) : Z * option numError :=
  match s with
  | String c s' =>
      if (len s <? 19)%nat then
        let signed := Ascii.eqb c "-" || Ascii.eqb c "+" in
        let digits := if signed then s' else s in
        match digits with
        | "" => (0, Some ErrSyntax)
        | _ =>
            match atoi_digits 0 digits with
            | Some n => (if Ascii.eqb c "-" then - n else n, None)
            | None => (0, Some ErrSyntax)
            end
        end
      else ParseInt s
  | "" => ParseInt s
  end.

(** [strconv.Itoa] / the verb [%d] of [fmt] *)
Fixpoint pos_digits (fuel : nat) (n : Z) (acc : string) : string :=
  match fuel with
  | O => acc
  | S fuel' =>
      let acc' := String (ascii_of_nat (Z.to_nat (48 + n mod 10))) acc in
      if n <? 10 then acc' else pos_digits fuel' (n / 10) acc'
  end.

Definition Itoa (n : Z) : string :=
  if n <? 0 then String "-" (pos_digits (Z.to_nat (Z.log2 (- n)) + 1) (- n) "")
  else pos_digits (Z.to_nat (Z.log2 n) + 1) n "".

Local Close Scope Z_scope.

(** ** The escape decoder *)

(** Modelled from the spec: [bitio.BytesFromBitString] (pkg/bitio is not among
    the sources at hand) decodes a string of binary digits, most significant
    bit first, eight digits to a byte. *)
Fixpoint bits_value (acc : nat) (s : string) : nat :=
  match s with
  | "" => acc
  | String c s' => bits_value (2 * acc + (if Ascii.eqb c "1" then 1 else 0)) s'
  end.

Fixpoint BytesFromBitString (fuel : nat) (s : string) : list ascii :=
  match fuel, s with
  | S fuel', String _ _ =>
      let chunk := take_bytes 8 s in
      ascii_of_nat (bits_value 0 chunk * 2 ^ (8 - len chunk))
        :: BytesFromBitString fuel' (drop_bytes 8 s)
  | _, _ => []
  end.

(** [encoding/hex]: the value of a hexadecimal digit, either case. *)
Definition fromHexChar (c : ascii) : option nat :=
  let n := nat_of_ascii c in
  if (48 <=? n)%nat && (n <=? 57)%nat then Some (n - 48)
  else if (97 <=? n)%nat && (n <=? 102)%nat then Some (n - 97 + 10)
  else if (65 <=? n)%nat && (n <=? 70)%nat then Some (n - 65 + 10)
  else None.

(** [hex.DecodeString]: the bytes decoded before the first error, and
    whether there was one. *)
Fixpoint hex_DecodeString (s : string) : list ascii * bool :=
  match s with
  | "" => ([], true)
  | String _ "" => ([], false)
  | String p (String q s') =>
      match fromHexChar p, fromHexChar q with
      | Some a, Some b =>
          let '(bytes, ok) := hex_DecodeString s' in
          (ascii_of_nat (16 * a + b) :: bytes, ok)
      | _, _ => ([], false)
      end
  end.

(** The character classes of [unescapeRe]:
    [\\(?:t|b|n|r|0(?:b[01]{8}|x[0-f]{2}))]. *)
Definition class_01 (c : ascii) : bool := Ascii.eqb c "0" || Ascii.eqb c "1".

(** [[0-f]] is the range of code points from '0' (48) to 'f' (102). *)
Definition class_0_f (c : ascii) : bool :=
  (48 <=? nat_of_ascii c)%nat && (nat_of_ascii c <=? 102)%nat.

Definition all_bytes (p : ascii -> bool) (s : string) : bool :=
  forallb p (bytes_of_string s).

(** The length of the match of [unescapeRe] that starts at the first byte of
    [s], if there is one. *)
Definition unescapeRe_at (s : string) : option nat :=
  match s with
  | String "\" (String c r) =>
      if Ascii.eqb c "t" || Ascii.eqb c "b" || Ascii.eqb c "n" || Ascii.eqb c "r"
      then Some 2
      else if Ascii.eqb c "0" then
        match r with
        | String "b" r' =>
            if (8 <=? len r')%nat && all_bytes class_01 (take_bytes 8 r')
            then Some 11 else None
        | String "x" r' =>
            if (2 <=? len r')%nat && all_bytes class_0_f (take_bytes 2 r')
            then Some 5 else None
        | _ => None
        end
      else None
  | _ => None
  end.

(** The function literal handed to [ReplaceAllStringFunc]. *)
Definition unescape_repl (r : string) : string :=
  if String.eqb r "\n" then nl
  else if String.eqb r "\r" then cr
  else if String.eqb r "\t" then tab
  else if String.eqb r "\b" then bs
  else if HasPrefix r "\0b" then
    string_of_bytes (BytesFromBitString (len r) (drop_bytes 3 r))
  else if HasPrefix r "\0x" then
    string_of_bytes (fst (hex_DecodeString (drop_bytes 3 r)))
  else r.

(** [unescapeRe.ReplaceAllStringFunc(s, repl)]: the matches are taken
    leftmost first and do not overlap; [skip] counts the bytes of the current
    match still to be passed over. *)
Fixpoint replaceAll (repl : string -> string) (skip : nat) (s : string) : string :=
  match s with
  | "" => ""
  | String c s' =>
      match skip with
      | S k => replaceAll repl k s'
      | O =>
          match unescapeRe_at s with
          | Some n => repl (take_bytes n s) +:+ replaceAll repl (n - 1) s'
          | None => String c (replaceAll repl 0 s')
          end
      end
  end.

Definition Unescape (s : string) : string := replaceAll unescape_repl 0 s.

(** ** The transcript model *)

(** [testCaseReadline]: one dialog turn.  The fields carry the prefix [rl_]
    where [testCaseRun] has a field of the same name. *)
Record testCaseReadline := {
  rl_expr : string;
  rl_env : list string;
  rl_input : string;
  rl_expectedPrompt : string;
  rl_expectedStdout : string
}.

(** [testCaseRun]: one invocation.  The two [bytes.Buffer]s are modelled by
    their contents.  The back pointer [testCase], which only [FS] reads, is
    left out. *)
Record testCaseRun := {
  lineNr : nat;
  command : string;
  env : list string;
  args : list string;
  stdin : string;
  expectedStdout : string;
  expectedStderr : string;
  expectedExitCode : Z;
  actualStdoutBuf : string;
  actualStderrBuf : string;
  actualExitCode : Z;
  readlines : list testCaseReadline;
  readlinesPos : nat;
  readlineEnv : list string
}.

Definition set_expectedExitCode (n : Z) (r : testCaseRun) : testCaseRun :=
  {| lineNr := lineNr r; command := command r; env := env r; args := args r;
     stdin := stdin r; expectedStdout := expectedStdout r;
     expectedStderr := expectedStderr r; expectedExitCode := n;
     actualStdoutBuf := actualStdoutBuf r; actualStderrBuf := actualStderrBuf r;
     actualExitCode := actualExitCode r; readlines := readlines r;
     readlinesPos := readlinesPos r; readlineEnv := readlineEnv r |}.

Definition set_stdin (v : string) (r : testCaseRun) : testCaseRun :=
  {| lineNr := lineNr r; command := command r; env := env r; args := args r;
     stdin := v; expectedStdout := expectedStdout r;
     expectedStderr := expectedStderr r; expectedExitCode := expectedExitCode r;
     actualStdoutBuf := actualStdoutBuf r; actualStderrBuf := actualStderrBuf r;
     actualExitCode := actualExitCode r; readlines := readlines r;
     readlinesPos := readlinesPos r; readlineEnv := readlineEnv r |}.

Definition set_expectedStderr (v : string) (r : testCaseRun) : testCaseRun :=
  {| lineNr := lineNr r; command := command r; env := env r; args := args r;
     stdin := stdin r; expectedStdout := expectedStdout r;
     expectedStderr := v; expectedExitCode := expectedExitCode r;
     actualStdoutBuf := actualStdoutBuf r; actualStderrBuf := actualStderrBuf r;
     actualExitCode := actualExitCode r; readlines := readlines r;
     readlinesPos := readlinesPos r; readlineEnv := readlineEnv r |}.

Definition set_readlines (l : list testCaseReadline) (r : testCaseRun) : testCaseRun :=
  {| lineNr := lineNr r; command := command r; env := env r; args := args r;
     stdin := stdin r; expectedStdout := expectedStdout r;
     expectedStderr := expectedStderr r; expectedExitCode := expectedExitCode r;
     actualStdoutBuf := actualStdoutBuf r; actualStderrBuf := actualStderrBuf r;
     actualExitCode := actualExitCode r; readlines := l;
     readlinesPos := readlinesPos r; readlineEnv := readlineEnv r |}.

Definition set_actualExitCode (n : Z) (r : testCaseRun) : testCaseRun :=
  {| lineNr := lineNr r; command := command r; env := env r; args := args r;
     stdin := stdin r; expectedStdout := expectedStdout r;
     expectedStderr := expectedStderr r; expectedExitCode := expectedExitCode r;
     actualStdoutBuf := actualStdoutBuf r; actualStderrBuf := actualStderrBuf r;
     actualExitCode := n; readlines := readlines r;
     readlinesPos := readlinesPos r; readlineEnv := readlineEnv r |}.

(** [tcr.actualStdoutBuf.WriteString(s)] *)
Definition WriteStdout (s : string) (r : testCaseRun) : testCaseRun :=
  {| lineNr := lineNr r; command := command r; env := env r; args := args r;
     stdin := stdin r; expectedStdout := expectedStdout r;
     expectedStderr := expectedStderr r; expectedExitCode := expectedExitCode r;
     actualStdoutBuf := actualStdoutBuf r +:+ s; actualStderrBuf := actualStderrBuf r;
     actualExitCode := actualExitCode r; readlines := readlines r;
     readlinesPos := readlinesPos r; readlineEnv := readlineEnv r |}.

(** The two assignments of [Readline] that consume a turn:
    [tcr.readlineEnv = tcr.readlines[tcr.readlinesPos].env] and
    [tcr.readlinesPos++]. *)
Definition consume_turn (e : list string) (r : testCaseRun) : testCaseRun :=
  {| lineNr := lineNr r; command := command r; env := env r; args := args r;
     stdin := stdin r; expectedStdout := expectedStdout r;
     expectedStderr := expectedStderr r; expectedExitCode := expectedExitCode r;
     actualStdoutBuf := actualStdoutBuf r; actualStderrBuf := actualStderrBuf r;
     actualExitCode := actualExitCode r; readlines := readlines r;
     readlinesPos := S (readlinesPos r); readlineEnv := e |}.

(** ** The environment of an invocation *)

Definition defaultEnv : list string :=
  [ "_STDIN_WIDTH=135"; "_STDIN_HEIGHT=25"; "_STDOUT_WIDTH=135";
    "_STDOUT_HEIGHT=25"; "_STDOUT_ISTERMINAL=1"; "NO_COLOR=1";
    "NO_DECODE_PROGRESS=1" ].

(** One round of the loop that fills [envm]:
    [if i := strings.IndexByte(kv, '='); i > 0 { envm[kv[:i]] = kv[i+1:] }]. *)
Definition envm_add (envm : gmap string string) (kv : string) : gmap string string :=
  match IndexByte kv "=" with
  | Some (S i) => <[take_bytes (S i) kv := drop_bytes (S (S i)) kv]> envm
  | _ => envm
  end.

Definition envm_of (l : list string) : gmap string string :=
  foldl envm_add ∅ l.

(** The list [Environ] scans: the base assignments, then the invocation's,
    then those of the turn consumed last. *)
Definition env_layers (tcr : testCaseRun) : list string :=
  defaultEnv ++ env tcr ++ readlineEnv tcr.

Definition Environ_map (tcr : testCaseRun) : gmap string string :=
  envm_of (env_layers tcr).

Definition env_entry (kv : string * string) : string :=
  kv.1 +:+ "=" +:+ kv.2.

(** [Environ]: Go ranges over [envm] in an unspecified order, that is over
    some permutation of its entries; the order of [map_to_list] stands for
    one of them, and [getEnv_of_lookup] below shows that [getEnv] does not
    depend on the choice. *)
Definition Environ_of (entries : list (string * string)) : list string :=
  env_entry <$> entries.

Definition Environ (tcr : testCaseRun) : list string :=
  Environ_of (map_to_list (Environ_map tcr)).

(** The loop of [getEnv] over a given environment list. *)
Fixpoint getEnv_of (environ : list string) (name : string) : string :=
  match environ with
  | [] => ""
  | kv :: rest =>
      if HasPrefix kv (name +:+ "=") then drop_bytes (len name + 1) kv
      else getEnv_of rest name
  end.

Definition getEnv (tcr : testCaseRun) (name : string) : string :=
  getEnv_of (Environ tcr) name.

Definition getEnvInt (tcr : testCaseRun) (name : string) : Z :=
  fst (Atoi (getEnv tcr name)).

(** [testCaseRunOutput] without its writer: what [Stdout()] tells the tool
    about the terminal. *)
Record testCaseRunOutput := {
  out_isTerminal : bool;
  out_width : Z;
  out_height : Z
}.

Definition Stdout (tcr : testCaseRun) : testCaseRunOutput :=
  {| out_isTerminal := negb (getEnvInt tcr "_STDOUT_ISTERMINAL" =? 0)%Z;
     out_width := getEnvInt tcr "_STDOUT_WIDTH";
     out_height := getEnvInt tcr "_STDOUT_HEIGHT" |}.

(** ** The dialog simulator *)

Inductive error := EOF.

Section Readline.
(** The tool's completion function is a closure: [T] is the state it may
    read and update, threaded through each call. *)
Context {T : Type}.

Definition completer := T -> string -> nat -> T * (list string * nat).

Definition write_lines (ls : list string) (r : testCaseRun) : testCaseRun :=
  foldl (fun r cand => WriteStdout (cand +:+ nl) r) r ls.

Definition Readline (tcr : testCaseRun) (prompt : string)
    (complete : completer) (t : T)
  : testCaseRun * T * (string * option error) :=
  let tcr := WriteStdout prompt tcr in
  match readlines tcr !! readlinesPos tcr with
  | None => (tcr, t, ("", Some EOF))
  | Some turn =>
      let expr := rl_expr turn in
      let lineRaw := rl_input turn in
      let line := Unescape lineRaw in
      let tcr := consume_turn (rl_env turn) tcr in
      if HasSuffix line tab then
        let tcr := WriteStdout (lineRaw +:+ nl) tcr in
        let l := len line - 1 in
        let '(t, (newLine, shared)) := complete t (take_bytes l line) l in
        let tcr := write_lines newLine tcr in
        (tcr, t, ("", None))
      else
        let tcr := WriteStdout (expr +:+ nl) tcr in
        if String.eqb line "^D" then (tcr, t, ("", Some EOF))
        else (tcr, t, (line, None))
  end.

(** The tool calling [Readline] once per prompt of [prompts], whatever the
    calls return; the results are collected in call order. *)
Fixpoint Readlines (tcr : testCaseRun) (prompts : list string)
    (complete : completer) (t : T)
  : testCaseRun * T * list (string * option error) :=
  match prompts with
  | [] => (tcr, t, [])
  | p :: ps =>
      let '(tcr, t, res) := Readline tcr p complete t in
      let '(tcr, t, ress) := Readlines tcr ps complete t in
      (tcr, t, res :: ress)
  end.
End Readline.

(** [ToExpectedStdout] *)
Definition turn_expected (rl : testCaseReadline) : string :=
  (rl_expectedPrompt rl +:+ rl_expr rl +:+ nl) +:+
  (if negb (String.eqb (rl_expectedStdout rl) "") then rl_expectedStdout rl else "").

Definition ToExpectedStdout (tcr : testCaseRun) : string :=
  match readlines tcr with
  | [] => expectedStdout tcr
  | rls => foldl (fun sb rl => sb +:+ turn_expected rl) "" rls
  end.

Definition ToExpectedStderr (tcr : testCaseRun) : string := expectedStderr tcr.

(** ** The lexical section splitter *)

(** [Section] of the source; the capital is a keyword here. *)
Record section := {
  LineNr : nat;
  Name : string;
  Value : string
}.

(** A compiled regexp is used through [FindStringSubmatch] only: the list of
    the match and its groups, empty when the line does not match. *)
Definition regexp := string -> list string.

Definition firstMatch (ss : list string) (fn : string -> bool) : string :=
  default "" (List.find fn ss).

(** [lines] after the last empty piece is skipped. *)
Definition lines_of (s : string) : list string :=
  let lines := Split s in
  if String.eqb (List.last lines "") "" then removelast lines else lines.

Definition add_value (l : string) (cs : section) : section :=
  {| LineNr := LineNr cs; Name := Name cs; Value := Value cs +:+ l +:+ nl |}.

(** One round of the loop over the lines.  [cs] points to the last element of
    [sections] whenever it is not nil, so it is nil exactly when [sections]
    is empty. *)
Definition SectionParser_line (re : regexp) (st : list section * nat)
    (l : string) : list section * nat :=
  let '(sections, lineNr) := st in
  let lineNr := S lineNr in
  let sm := re l in
  if bool_decide (sections = []) || (0 <? length sm)%nat then
    (sections ++ [ {| LineNr := lineNr;
                      Name := firstMatch sm (fun s => negb (len s =? 0)%nat);
                      Value := "" |} ], lineNr)
  else
    (alter (add_value l) (length sections - 1) sections, lineNr).

Definition SectionParser (re : regexp) (s : string) : list section :=
  fst (foldl (SectionParser_line re) ([], 0) (lines_of s)).

(** The regexp of [parseTestCases],
    [^\$ .*$|^stdin:$|^stderr:$|^exitcode:.*$|^#.*$|^/.*:|^[^<:|]+>.*$],
    on a line (a string without newline).  Every alternative is anchored at
    the start and earlier alternatives win.  There is no group, so the result
    holds the match alone. *)

(** [^[^<:|]+>.*$]: a [>] after at least one byte, none of the bytes before
    it being [<], [:] or [|]. *)
Fixpoint prompt_line (seen : bool) (l : string) : bool :=
  match l with
  | "" => false
  | String c l' =>
      if seen && Ascii.eqb c ">" then true
      else if Ascii.eqb c "<" || Ascii.eqb c ":" || Ascii.eqb c "|" then false
      else prompt_line true l'
  end.

Definition sectionRe : regexp := fun l =>
  if HasPrefix l "$ " then [l]
  else if String.eqb l "stdin:" then [l]
  else if String.eqb l "stderr:" then [l]
  else if HasPrefix l "exitcode:" then [l]
  else if HasPrefix l "#" then [l]
  else if HasPrefix l "/" && Contains l ":" then
    (* [^/.*:]: the star is greedy, the match ends at the last colon *)
    match LastIndex l ":" with
    | Some j => [take_bytes (S j) l]
    | None => []
    end
  else if prompt_line false l then [l]
  else [].

(** ** The command and input tokenizer *)

(** A token of [shquote.Parse]. *)
Record Token := {
  tok_Separator : bool;
  tok_Start : nat;
  tok_End : nat;
  tok_Str : string
}.

(** [kvRe], [^[A-Z_]+=] *)
Definition class_A_Z_ (c : ascii) : bool :=
  ((65 <=? nat_of_ascii c)%nat && (nat_of_ascii c <=? 90)%nat) || Ascii.eqb c "_".

Fixpoint kvRe_tail (s : string) : bool :=
  match s with
  | "" => false
  | String c s' =>
      if Ascii.eqb c "=" then true
      else if class_A_Z_ c then kvRe_tail s' else false
  end.

Definition kvRe_MatchString (s : string) : bool :=
  match s with
  | String c s' => class_A_Z_ c && kvRe_tail s'
  | "" => false
  end.

(** ** The transcript model builder *)

Record testCaseFile := {
  f_lineNr : nat;
  name : string;
  data : string
}.

Record testCaseComment := {
  c_lineNr : nat;
  comment : string
}.

(** The interface [part] is implemented by three types only. *)
Inductive part :=
| PComment (c : testCaseComment)
| PRun (r : testCaseRun)
| PFile (f : testCaseFile).

Definition Line (p : part) : nat :=
  match p with
  | PComment c => c_lineNr c
  | PRun r => lineNr r
  | PFile f => f_lineNr f
  end.

Record testCase := {
  path : string;
  parts : list part;
  wasTested : bool
}.

Inductive panic :=
| UnexpectedSection (line : nat) (n v : string)
| NilDereference
| SliceOutOfRange.

Inductive result (A : Type) :=
| Ok (a : A)
| Panicked (p : panic).
Arguments Ok {A} a.
Arguments Panicked {A} p.

Definition bind {A B} (m : result A) (k : A -> result B) : result B :=
  match m with
  | Ok a => k a
  | Panicked p => Panicked p
  end.

Fixpoint foldM {A B} (f : A -> B -> result A) (a : A) (l : list B) : result A :=
  match l with
  | [] => Ok a
  | b :: l' => bind (f a b) (fun a' => foldM f a' l')
  end.

(** The variables of the loop of [parseTestCases]: [te.parts],
    [currentTestRun] (a pointer that no part aliases before it is appended)
    and [replDepth]. *)
Record pstate := {
  te_parts : list part;
  currentTestRun : option testCaseRun;
  replDepth : Z
}.

Definition flush (ps : list part) (cur : option testCaseRun) : list part :=
  match cur with
  | Some r => ps ++ [PRun r]
  | None => ps
  end.

Definition add_readline (rl : testCaseReadline) (r : testCaseRun) : testCaseRun :=
  set_readlines (readlines r ++ [rl]) r.

Section Builder.
(** internal/shquote is not among the sources at hand: its two entry points
    are parameters of the builder. *)
Variable shquote_Split : string -> list string.
Variable shquote_Parse : string -> list Token.

Fixpoint parseCommand_loop (parts : list string) : list string * list string :=
  match parts with
  | [] => ([], [])
  | p :: parts' =>
      if kvRe_MatchString p then
        let '(env, args) := parseCommand_loop parts' in (p :: env, args)
      else ([], parts)
  end.

Definition parseCommand (s : string) : list string * list string :=
  parseCommand_loop (shquote_Split s).

Fixpoint parseInput_loop (tokens : list Token) (l : nat) : list string * nat :=
  match tokens with
  | [] => ([], l)
  | t :: tokens' =>
      if tok_Separator t then parseInput_loop tokens' l
      else if kvRe_MatchString (tok_Str t) then
        let '(env, l') := parseInput_loop tokens' (tok_End t) in
        (tok_Str t :: env, l')
      else ([], l)
  end.

Definition parseInput (s : string) : list string * string :=
  let '(env, l) := parseInput_loop (shquote_Parse s) 0 in
  (env, drop_bytes l s).

(** The body of the loop over the sections: the [switch] on the header. *)
Definition parse_section (st : pstate) (sec : section) : result pstate :=
  let n := Name sec in
  let v := Value sec in
  if HasPrefix n "#" then
    let comment := drop_bytes 1 n in
    Ok {| te_parts := te_parts st ++
                      [PComment {| c_lineNr := LineNr sec; comment := comment |}];
          currentTestRun := currentTestRun st;
          replDepth := replDepth st |}
  else if HasPrefix n "/" then
    let name := take_bytes (len n - 1) n in
    Ok {| te_parts := te_parts st ++
                      [PFile {| f_lineNr := LineNr sec; name := name; data := v |}];
          currentTestRun := currentTestRun st;
          replDepth := replDepth st |}
  else if HasPrefix n "$" then
    let v := TrimSuffix v (String "\" nl) in
    let command := TrimPrefix n "$" in
    let '(env, args) := parseCommand command in
    Ok {| te_parts := flush (te_parts st) (currentTestRun st);
          currentTestRun := Some
            {| lineNr := LineNr sec; command := command; env := env;
               args := args; stdin := ""; expectedStdout := v;
               expectedStderr := ""; expectedExitCode := 0;
               actualStdoutBuf := ""; actualStderrBuf := "";
               actualExitCode := 0; readlines := []; readlinesPos := 0;
               readlineEnv := [] |};
          replDepth := (replDepth st + 1)%Z |}
  else if HasPrefix n "exitcode:" then
    let code := fst (Atoi (TrimSpace (TrimPrefix n "exitcode:"))) in
    match currentTestRun st with
    | None => Panicked NilDereference
    | Some r =>
        Ok {| te_parts := te_parts st;
              currentTestRun := Some (set_expectedExitCode code r);
              replDepth := replDepth st |}
    end
  else if HasPrefix n "stdin" then
    match currentTestRun st with
    | None => Panicked NilDereference
    | Some r =>
        Ok {| te_parts := te_parts st;
              currentTestRun := Some (set_stdin v r);
              replDepth := replDepth st |}
    end
  else if HasPrefix n "stderr" then
    match currentTestRun st with
    | None => Panicked NilDereference
    | Some r =>
        Ok {| te_parts := te_parts st;
              currentTestRun := Some (set_expectedStderr v r);
              replDepth := replDepth st |}
    end
  else if Contains n ">" then
    match LastIndex n ">" with
    | None => Panicked SliceOutOfRange
    | Some i =>
        let prompt := take_bytes i n +:+ ">" +:+ " " in
        let expr := TrimSpace (drop_bytes (i + 1) n) in
        let '(env, input) := parseInput expr in
        match currentTestRun st with
        | None => Panicked NilDereference
        | Some r =>
            let d1 := if Contains expr "| repl" then 1%Z else 0%Z in
            let d2 := if String.eqb expr "^D" then 1%Z else 0%Z in
            Ok {| te_parts := te_parts st;
                  currentTestRun := Some (add_readline
                    {| rl_expr := expr; rl_env := env; rl_input := input;
                       rl_expectedPrompt := prompt; rl_expectedStdout := v |} r);
                  replDepth := (replDepth st + d1 - d2)%Z |}
        end
    end
  else Panicked (UnexpectedSection (LineNr sec) n v).

Definition parse_sections (secs : list section) : result pstate :=
  foldM parse_section
    {| te_parts := []; currentTestRun := None; replDepth := 0 |} secs.

Definition parseTestCases (s : string) : result testCase :=
  bind (parse_sections (SectionParser sectionRe s)) (fun st =>
    Ok {| path := "";
          parts := flush (te_parts st) (currentTestRun st);
          wasTested := false |}).
End Builder.

(** ** The golden rewriter *)

Definition line_le (p q : part) : Prop := Line p <= Line q.

#[global] Instance line_le_dec p q : Decision (line_le p q) :=
  decide (Line p <= Line q).

(** [sort.Slice] with [less] comparing [Line()]: some permutation in
    ascending order; the merge sort stands for it.  The parts of a parsed
    transcript have distinct lines ([parsed_lines_distinct]), which leaves
    one such permutation ([sorted_by_line_unique]). *)
Definition partsLineSorted (ps : list part) : list part :=
  merge_sort line_le ps.

Definition render_run (p : testCaseRun) : string :=
  let s := actualStdoutBuf p in
  ("$" +:+ command p +:+ nl) +:+
  (if negb (String.eqb s "") then
     s +:+ (if negb (HasSuffix s nl) then String "\" nl else "")
   else "") +:+
  (if negb (actualExitCode p =? 0)%Z then
     "exitcode: " +:+ Itoa (actualExitCode p) +:+ nl
   else "") +:+
  (if negb (String.eqb (stdin p) "") then "stdin:" +:+ nl +:+ stdin p else "") +:+
  (if (0 <? len (actualStderrBuf p))%nat then "stderr:" +:+ nl +:+ actualStderrBuf p
   else "").

Definition render_part (p : part) : string :=
  match p with
  | PComment c => "#" +:+ comment c +:+ nl
  | PRun r => render_run r
  | PFile f => (name f +:+ ":" +:+ nl) +:+ data f
  end.

Definition ToActual (tc : testCase) : string :=
  foldl (fun sb p => sb +:+ render_part p) "" (partsLineSorted (parts tc)).

(** ** The replay driver *)

(** [filepath.Ext]: the suffix that starts at the last dot of the last
    element of the path, empty when there is no dot. *)
Fixpoint ext_rev (acc : string) (rev_path : list ascii) : string :=
  match rev_path with
  | [] => ""
  | c :: rest =>
      if Ascii.eqb c "/" then ""
      else if Ascii.eqb c "." then String c acc
      else ext_rev (String c acc) rest
  end.

Definition filepath_Ext (p : string) : string :=
  ext_rev "" (rev (bytes_of_string p)).

Definition set_parts (ps : list part) (w : bool) (tc : testCase) : testCase :=
  {| path := path tc; parts := ps; wasTested := w |}.

Definition set_path (p : string) (tc : testCase) : testCase :=
  {| path := p; parts := parts tc; wasTested := wasTested tc |}.

Section Replay.
Variable shquote_Split : string -> list string.
Variable shquote_Parse : string -> list Token.

(** The tool under test (pkg/interp) and the test runner are outside the
    harness.  [interp_New] tells whether the interpreter could be built;
    [interp_Main] gives the invocation as the tool leaves it (captured
    output, dialog cursor) and the exit code when the returned error is an
    [Exiter]; [selected] is the runner's filter on the names of a subtest
    and its parents. *)
Variable interp_New : testCaseRun -> bool.
Variable interp_Main : testCaseRun -> testCaseRun * option Z.
Variable selected : list string -> bool.
Variable writeActual : bool.

(** [deepequal.Error]: the names of the fields that differ. *)
Definition compare (tcr : testCaseRun) : list string :=
  (if (expectedExitCode tcr =? actualExitCode tcr)%Z then [] else ["exitcode"]) ++
  (if String.eqb (ToExpectedStdout tcr) (actualStdoutBuf tcr) then [] else ["stdout"]) ++
  (if String.eqb (ToExpectedStderr tcr) (actualStderrBuf tcr) then [] else ["stderr"]).

(** [testDecodedTestCaseRun]; [None] is [t.Fatal], which leaves the
    subtest at once. *)
Definition testDecodedTestCaseRun (tcr : testCaseRun)
  : option (testCaseRun * list string) :=
  if interp_New tcr then
    let '(tcr, ex) := interp_Main tcr in
    let tcr := match ex with
               | Some code => set_actualExitCode code tcr
               | None => tcr
               end in
    if writeActual then Some (tcr, []) else Some (tcr, compare tcr)
  else None.

Definition subtest_name (tcr : testCaseRun) : string :=
  Itoa (Z.of_nat (lineNr tcr)) +:+ ":" +:+ command tcr.

(** The loop over [tc.parts]: the parts are pointers, so a replayed
    invocation is updated in place; [wasTested] is set by each subtest that
    returns from [testDecodedTestCaseRun]. *)
Fixpoint run_parts (file : string) (ps : list part) (tested : bool)
  : list part * bool * list string :=
  match ps with
  | [] => ([], tested, [])
  | PRun tcr :: ps' =>
      if selected [file; subtest_name tcr] then
        match testDecodedTestCaseRun tcr with
        | Some (tcr', errs) =>
            let '(ps'', tested', errs') := run_parts file ps' true in
            (PRun tcr' :: ps'', tested', errs ++ errs')
        | None =>
            let '(ps'', tested', errs') := run_parts file ps' tested in
            (PRun tcr :: ps'', tested', "fatal" :: errs')
        end
      else
        let '(ps'', tested', errs') := run_parts file ps' tested in
        (PRun tcr :: ps'', tested', errs')
  | p :: ps' =>
      let '(ps'', tested', errs') := run_parts file ps' tested in
      (p :: ps'', tested', errs')
  end.

(** The walk over the files found, each with what [ioutil.ReadFile] gives
    ([None] for an error); the result is [tcs] and the errors reported. *)
Fixpoint walk (files : list (string * option string))
  : result (list testCase * list string) :=
  match files with
  | [] => Ok ([], [])
  | (file, content) :: files' =>
      if negb (String.eqb (filepath_Ext file) ".fqtest") then walk files'
      else if negb (selected [file]) then walk files'
      else
        match content with
        | None =>
            bind (walk files') (fun '(tcs, errs) => Ok (tcs, "fatal" :: errs))
        | Some b =>
            bind (parseTestCases shquote_Split shquote_Parse b) (fun tc =>
              let '(ps, tested, errs) := run_parts file (parts tc) false in
              let tc := set_parts ps tested (set_path file tc) in
              bind (walk files') (fun '(tcs, errs') =>
                Ok (tc :: tcs, errs ++ errs')))
        end
  end.

(** The files [TestPath] writes back, with their new contents. *)
Definition written (tcs : list testCase) : list (string * string) :=
  if writeActual then
    (fun tc => (path tc, ToActual tc)) <$> filter (fun tc => wasTested tc = true) tcs
  else [].

Definition TestPath (files : list (string * option string))
  : result (list (string * string) * list string) :=
  bind (walk files) (fun '(tcs, errs) => Ok (written tcs, errs)).
End Replay.

(** Modelled from the spec: the tokenizer of internal/shquote, which is not
    among the sources at hand.  Blanks separate tokens; single and double
    quotes group the text between them into the current token, the quotes
    themselves being dropped.  Each token carries the byte offsets it spans
    in the line. *)
Inductive lex_mode := InBlank | InWord | InQuote (q : ascii).

Definition is_blank (c : ascii) : bool := Ascii.eqb c " " || Ascii.eqb c "009".
Definition is_quote (c : ascii) : bool := Ascii.eqb c "'" || Ascii.eqb c "034".

Definition close_token (sep : bool) (start pos : nat) (acc : list ascii)
    (toks : list Token) : list Token :=
  if (start <? pos)%nat then
    toks ++ [ {| tok_Separator := sep; tok_Start := start; tok_End := pos;
                 tok_Str := string_of_bytes acc |} ]
  else toks.

Fixpoint shquote_lex (s : string) (mode : lex_mode) (start pos : nat)
    (acc : list ascii) (toks : list Token) : list Token :=
  match s with
  | "" => close_token (match mode with InBlank => true | _ => false end)
            start pos acc toks
  | String c s' =>
      match mode with
      | InBlank =>
          if is_blank c then shquote_lex s' InBlank start (S pos) (acc ++ [c]) toks
          else
            let toks := close_token true start pos acc toks in
            if is_quote c then shquote_lex s' (InQuote c) pos (S pos) [] toks
            else shquote_lex s' InWord pos (S pos) [c] toks
      | InWord =>
          if is_blank c then
            shquote_lex s' InBlank pos (S pos) [c] (close_token false start pos acc toks)
          else if is_quote c then shquote_lex s' (InQuote c) start (S pos) acc toks
          else shquote_lex s' InWord start (S pos) (acc ++ [c]) toks
      | InQuote q =>
          if Ascii.eqb c q then shquote_lex s' InWord start (S pos) acc toks
          else shquote_lex s' (InQuote q) start (S pos) (acc ++ [c]) toks
      end
  end.

Definition shquote_Parse_model (s : string) : list Token :=
  shquote_lex s InBlank 0 0 [] [].

Definition shquote_Split_model (s : string) : list string :=
  tok_Str <$> filter (fun t => tok_Separator t = false) (shquote_Parse_model s).

Definition parse := parseTestCases shquote_Split_model shquote_Parse_model.

(** ** Notions used to state the properties *)

(** The lines of a list, each closed by a newline. *)
Fixpoint join_lines (ls : list string) : string :=
  match ls with
  | [] => ""
  | l :: ls' => (l +:+ nl) +:+ join_lines ls'
  end.

Section Echo.
Context {T : Type}.

(** What one dialog turn leaves on the captured stdout after its prompt,
    and the state of the tool's completion closure afterwards. *)
Definition turn_echo (complete : completer) (t : T) (turn : testCaseReadline)
  : T * string :=
  let line := Unescape (rl_input turn) in
  if HasSuffix line tab then
    let l := len line - 1 in
    let called := complete t (take_bytes l line) l in
    (called.1, (rl_input turn +:+ nl) +:+ join_lines called.2.1)
  else (t, rl_expr turn +:+ nl).

(** The captured stdout of a run of consumed turns, each behind the prompt
    the tool asked with. *)
Fixpoint session_echo (complete : completer) (t : T)
    (calls : list (string * testCaseReadline)) : string :=
  match calls with
  | [] => ""
  | (prompt, turn) :: calls' =>
      let '(t', e) := turn_echo complete t turn in
      (prompt +:+ e) +:+ session_echo complete t' calls'
  end.
End Echo.

(** The key an element of an environment list assigns, if it assigns one:
    the text before its first [=], when not empty. *)
Definition assigned_key (kv : string) : option string :=
  match IndexByte kv "=" with
  | Some (S i) => Some (take_bytes (S i) kv)
  | _ => None
  end.

(** The header [SectionParser] gives the section that the line [l] starts. *)
Definition header_of (re : regexp) (l : string) : string :=
  firstMatch (re l) (fun s => negb (len s =? 0)%nat).

(** The text of a section: its header line, then its body. *)
Definition section_text (sec : section) : string :=
  (Name sec +:+ nl) +:+ Value sec.

Fixpoint sections_text (secs : list section) : string :=
  match secs with
  | [] => ""
  | sec :: secs' => section_text sec +:+ sections_text secs'
  end.

(** The concatenation of the specification: the header line of the first
    section is left out when its header is empty. *)
Definition reconstruct (secs : list section) : string :=
  match secs with
  | [] => ""
  | sec :: secs' =>
      (if String.eqb (Name sec) "" then Value sec else section_text sec) +:+
      sections_text secs'
  end.

(** The shapes of header the builder knows. *)
Definition recognized (n : string) : bool :=
  HasPrefix n "#" || HasPrefix n "/" || HasPrefix n "$" ||
  HasPrefix n "exitcode:" || HasPrefix n "stdin" || HasPrefix n "stderr" ||
  Contains n ">".

Definition run_header (sec : section) : Prop := HasPrefix (Name sec) "$" = true.

Definition exitcode_header (sec : section) : bool := HasPrefix (Name sec) "exitcode:".

(** A header that reaches the dialog-prompt case of the [switch]. *)
Definition prompt_header (sec : section) : bool :=
  let n := Name sec in
  negb (HasPrefix n "#") && negb (HasPrefix n "/") && negb (HasPrefix n "$") &&
  negb (HasPrefix n "exitcode:") && negb (HasPrefix n "stdin") &&
  negb (HasPrefix n "stderr") && Contains n ">".

(** The integer on an [exitcode:] header line. *)
Definition exitcode_on (sec : section) : Z :=
  fst (Atoi (TrimSpace (TrimPrefix (Name sec) "exitcode:"))).

(** The exit code the sections of one invocation ask for: that of the last
    [exitcode:] section among them, 0 when there is none. *)
Definition exitcode_of (body : list section) : Z :=
  foldl (fun code sec => if exitcode_header sec then exitcode_on sec else code)
    0%Z body.

(** [hdr] is an invocation header of [secs] and [body] the sections after it
    up to the next invocation header or the end. *)
Definition segment_of (secs : list section) (hdr : section) (body : list section)
  : Prop :=
  exists pre rest,
    secs = pre ++ hdr :: body ++ rest /\ run_header hdr /\
    Forall (fun sec => ~ run_header sec) body /\
    (rest = [] \/ exists nxt rest', rest = nxt :: rest' /\ run_header nxt).

(** What the builder records of an invocation from its sections. *)
Definition describes (hdr : section) (body : list section) (r : testCaseRun)
  : Prop :=
  lineNr r = LineNr hdr /\
  command r = TrimPrefix (Name hdr) "$" /\
  expectedStdout r = TrimSuffix (Value hdr) (String "\" nl) /\
  expectedExitCode r = exitcode_of body /\
  (Forall (fun sec => prompt_header sec = false) body -> readlines r = []).

(** The state of the builder after the sections [secs]. *)
Definition closed_run (secs : list section) (r : testCaseRun) : Prop :=
  exists pre hdr body nxt rest,
    secs = pre ++ hdr :: body ++ nxt :: rest /\ run_header hdr /\
    Forall (fun sec => ~ run_header sec) body /\ run_header nxt /\
    describes hdr body r.

Definition open_run (secs : list section) (r : testCaseRun) : Prop :=
  exists pre hdr body,
    secs = pre ++ hdr :: body /\ run_header hdr /\
    Forall (fun sec => ~ run_header sec) body /\ describes hdr body r.

Definition builder_inv (secs : list section) (st : pstate) : Prop :=
  (forall r, PRun r ∈ te_parts st -> closed_run secs r) /\
  (forall r, currentTestRun st = Some r -> open_run secs r) /\
  (exists rest,
     LineNr <$> secs ≡ₚ
       (Line <$> flush (te_parts st) (currentTestRun st)) ++ rest).

(** The expected stdout of a dialog: prompt, expression, newline and
    expected output of each turn, in order. *)
Fixpoint turns_text (rls : list testCaseReadline) : string :=
  match rls with
  | [] => ""
  | rl :: rls' =>
      (rl_expectedPrompt rl +:+ rl_expr rl +:+ nl +:+ rl_expectedStdout rl) +:+
      turns_text rls'
  end.

(** The continuation marker: a backslash before the newline. *)
Definition continuation : string := String "\" nl.

(** The rendered parts, one after the other. *)
Fixpoint parts_text (ps : list part) : string :=
  match ps with
  | [] => ""
  | p :: ps' => render_part p +:+ parts_text ps'
  end.

(** ** Sample transcripts and invocations *)

(** A completion function that counts its calls and knows two candidates
    for the partial line [fo] with the cursor at its end. *)
Definition complete_fo : @completer nat := fun calls line pos =>
  (S calls,
   (if String.eqb line "fo" && (pos =? 2)%nat then ["foo"; "for"] else [], 0)).

Definition turn_fo : testCaseReadline :=
  {| rl_expr := "fo\t"; rl_env := []; rl_input := "fo\t";
     rl_expectedPrompt := "null> "; rl_expectedStdout := "" |}.

Definition dialog (e : list string) (rls : list testCaseReadline) : testCaseRun :=
  {| lineNr := 1; command := " fq -i"; env := e; args := ["fq"; "-i"];
     stdin := ""; expectedStdout := ""; expectedStderr := "";
     expectedExitCode := 0; actualStdoutBuf := ""; actualStderrBuf := "";
     actualExitCode := 0; readlines := rls; readlinesPos := 0;
     readlineEnv := [] |}.

Definition turn_width : testCaseReadline :=
  {| rl_expr := "_STDOUT_WIDTH=80 1+1"; rl_env := ["_STDOUT_WIDTH=80"];
     rl_input := " 1+1"; rl_expectedPrompt := "null> ";
     rl_expectedStdout := "2" +:+ nl |}.

Definition turn_plain : testCaseReadline :=
  {| rl_expr := "2+2"; rl_env := []; rl_input := "2+2";
     rl_expectedPrompt := "null> "; rl_expectedStdout := "4" +:+ nl |}.

Definition transcript_echo : string :=
  "$ echo hi" +:+ nl +:+ "hi" +:+ nl +:+ "exitcode: 3" +:+ nl +:+ "7" +:+ nl.

Definition run_echo : testCaseRun :=
  {| lineNr := 1; command := " echo hi"; env := []; args := ["echo"; "hi"];
     stdin := ""; expectedStdout := "hi" +:+ nl; expectedStderr := "";
     expectedExitCode := 3; actualStdoutBuf := ""; actualStderrBuf := "";
     actualExitCode := 0; readlines := []; readlinesPos := 0;
     readlineEnv := [] |}.

Definition tc_echo : testCase :=
  {| path := ""; parts := [PRun run_echo]; wasTested := false |}.

(** A tool that prints [hi] without newline and exits with code 3. *)
Definition tool_hi (tcr : testCaseRun) : testCaseRun * option Z :=
  (WriteStdout "hi" tcr, Some 3%Z).

Definition files_echo : list (string * option string) :=
  [ ("echo.fqtest", Some transcript_echo); ("notes.txt", Some "hello") ].

(** [transcript_echo] rewritten after [tool_hi] ran. *)
Definition rewritten_echo : string :=
  "$ echo hi" +:+ nl +:+ "hi" +:+ continuation +:+ "exitcode: 3" +:+ nl.

Definition transcript_dialog : string :=
  "$ fq -i" +:+ nl +:+
  "null> _STDOUT_WIDTH=80 1+1" +:+ nl +:+ "2" +:+ nl +:+
  "null> 2+2" +:+ nl +:+ "4" +:+ nl.

Definition transcript_fo : string :=
  "$ fq -i" +:+ nl +:+ "null> fo\t" +:+ nl.

(** ** Further notions: the environment *)

(** The value an element of an environment list assigns: the text after its
    first [=]. *)
Definition assigned_value (kv : string) : string :=
  match IndexByte kv "=" with
  | Some i => drop_bytes (S i) kv
  | None => ""
  end.

(** The value of the last element of [l] that assigns [key]. *)
Fixpoint last_assignment (key : string) (l : list string) : option string :=
  match l with
  | [] => None
  | kv :: l' =>
      match last_assignment key l' with
      | Some v => Some v
      | None =>
          if decide (assigned_key kv = Some key) then Some (assigned_value kv)
          else None
      end
  end.

(** The only key whose entry can start with [name=]: [name] up to its first
    [=], if it has one. *)
Definition name_key (name : string) : string :=
  match IndexByte name "=" with
  | Some p => take_bytes p name
  | None => name
  end.

(** The keys of [defaultEnv]. *)
Definition defaultKeys : list string :=
  [ "_STDIN_WIDTH"; "_STDIN_HEIGHT"; "_STDOUT_WIDTH"; "_STDOUT_HEIGHT";
    "_STDOUT_ISTERMINAL"; "NO_COLOR"; "NO_DECODE_PROGRESS" ].

(** [testCaseRunInput] without its reader: what [Stdin()] tells the tool. *)
Record testCaseRunInput := {
  in_isTerminal : bool;
  in_width : Z;
  in_height : Z
}.

Definition Stdin (tcr : testCaseRun) : testCaseRunInput :=
  {| in_isTerminal := String.eqb (stdin tcr) "";
     in_width := getEnvInt tcr "_STDIN_WIDTH";
     in_height := getEnvInt tcr "_STDIN_HEIGHT" |}.

(** ** Further notions: the section splitter *)

(** The lines of a text in groups: a line that starts a section, then the
    lines of the section's body. *)
Fixpoint group_lines (groups : list (string * list string)) : list string :=
  match groups with
  | [] => []
  | g :: groups' => (g.1 :: g.2) ++ group_lines groups'
  end.

(** The sections of a list of groups, the first group starting at line
    [n + 1]. *)
Fixpoint group_sections (re : regexp) (n : nat)
    (groups : list (string * list string)) : list section :=
  match groups with
  | [] => []
  | g :: groups' =>
      {| LineNr := S n; Name := header_of re g.1; Value := join_lines g.2 |}
      :: group_sections re (S n + length g.2) groups'
  end.

(** ** Further notions: the builder *)

(** A header that makes a part of its own: a comment, a fixture or an
    invocation. *)
Definition part_header (sec : section) : bool :=
  HasPrefix (Name sec) "#" || HasPrefix (Name sec) "/" || HasPrefix (Name sec) "$".

(** A header whose case of the [switch] writes to the current invocation. *)
Definition needs_run (sec : section) : bool :=
  negb (part_header sec) &&
  (HasPrefix (Name sec) "exitcode:" || HasPrefix (Name sec) "stdin" ||
   HasPrefix (Name sec) "stderr" || Contains (Name sec) ">").

(** What the builder leaves untouched in an invocation once it is started,
    and what an invocation never replayed still holds. *)
Definition same_run (r0 r : testCaseRun) : Prop :=
  lineNr r = lineNr r0 /\ command r = command r0 /\ env r = env r0 /\
  args r = args r0 /\ expectedStdout r = expectedStdout r0 /\
  actualStdoutBuf r = actualStdoutBuf r0 /\
  actualStderrBuf r = actualStderrBuf r0 /\
  actualExitCode r = actualExitCode r0 /\
  readlinesPos r = readlinesPos r0 /\ readlineEnv r = readlineEnv r0.

Definition unplayed (r : testCaseRun) : Prop :=
  actualStdoutBuf r = "" /\ actualStderrBuf r = "" /\ actualExitCode r = 0%Z /\
  readlinesPos r = 0 /\ readlineEnv r = [].

(** The part a section is made into. *)
Definition part_of (sec : section) (p : part) : Prop :=
  match p with
  | PComment c =>
      HasPrefix (Name sec) "#" = true /\
      c = {| c_lineNr := LineNr sec; comment := drop_bytes 1 (Name sec) |}
  | PFile f =>
      HasPrefix (Name sec) "#" = false /\ HasPrefix (Name sec) "/" = true /\
      f = {| f_lineNr := LineNr sec;
             name := take_bytes (len (Name sec) - 1) (Name sec);
             data := Value sec |}
  | PRun r =>
      HasPrefix (Name sec) "$" = true /\ lineNr r = LineNr sec /\
      command r = TrimPrefix (Name sec) "$" /\ unplayed r
  end.

(** ** Further samples *)

Definition transcript_stdin_first : string :=
  "#note" +:+ nl +:+ "stdin:" +:+ nl +:+ "abc" +:+ nl +:+ "$ cat" +:+ nl.

(** The state of the builder after the sections [secs]: the parts so far,
    the current invocation included, are those of the sections with a part
    header. *)
Definition parts_inv (secs : list section) (st : pstate) : Prop :=
  Line <$> flush (te_parts st) (currentTestRun st) ≡ₚ
    LineNr <$> filter (fun sec => part_header sec = true) secs /\
  forall p, p ∈ flush (te_parts st) (currentTestRun st) ->
    exists sec, sec ∈ secs /\ part_of sec p.

(** The two lower-case hexadecimal digits of a byte, behind [\0x]. *)
Definition hex_digit (n : nat) : ascii :=
  ascii_of_nat (if (n <? 10)%nat then 48 + n else 87 + n).

Definition hex_escape_byte (c : ascii) : string :=
  String "\" (String "0" (String "x"
    (String (hex_digit (nat_of_ascii c / 16))
       (String (hex_digit (nat_of_ascii c mod 16)) "")))).

Fixpoint hex_escape (s : string) : string :=
  match s with
  | "" => ""
  | String c s' => hex_escape_byte c +:+ hex_escape s'
  end.

(** ** Further models: the virtual file system *)

(** [filepath.Base] on a slash-separated path. *)
Fixpoint strip_slashes (rev_path : list ascii) : list ascii :=
  match rev_path with
  | c :: rest => if Ascii.eqb c "/" then strip_slashes rest else rev_path
  | [] => []
  end.

Fixpoint last_element (acc : string) (rev_path : list ascii) : string :=
  match rev_path with
  | [] => acc
  | c :: rest => if Ascii.eqb c "/" then acc else last_element (String c acc) rest
  end.

Definition filepath_Base (p : string) : string :=
  if String.eqb p "" then "."
  else
    let e := last_element "" (strip_slashes (rev (bytes_of_string p))) in
    if String.eqb e "" then "/" else e.

(** What [Open] returns: the file on disk beside the transcript (what
    [os.Open] finds there is outside the model), an [interp.FileReader] over
    the bytes of a fixture with its [FixedFileInfo], or the error. *)
Inductive opened :=
| OpenedDisk (transcript_path file_name : string)
| OpenedData (FName : string) (FSize : nat) (content : string)
| OpenError (msg : string).

Fixpoint Open_parts (tc_path : string) (ps : list part) (nm : string) : opened :=
  match ps with
  | [] => OpenError (nm +:+ ": file not found")
  | PFile f :: ps' =>
      if String.eqb (name f) nm then
        if (len (data f) =? 0)%nat then OpenedDisk tc_path nm
        else OpenedData (filepath_Base nm) (len (data f)) (data f)
      else Open_parts tc_path ps' nm
  | _ :: ps' => Open_parts tc_path ps' nm
  end.

(** [testCase.Open] *)
Definition Open (tc : testCase) (nm : string) : opened :=
  Open_parts (path tc) (parts tc) nm.

(** ** Further notions: the dialog *)

Fixpoint concat_strings (ls : list string) : string :=
  match ls with
  | [] => ""
  | l :: ls' => l +:+ concat_strings ls'
  end.

(** What [Readline] leaves as it is in an invocation. *)
Definition same_transcript (r0 r : testCaseRun) : Prop :=
  lineNr r = lineNr r0 /\ command r = command r0 /\ env r = env r0 /\
  args r = args r0 /\ stdin r = stdin r0 /\
  expectedStdout r = expectedStdout r0 /\ expectedStderr r = expectedStderr r0 /\
  expectedExitCode r = expectedExitCode r0 /\
  actualStderrBuf r = actualStderrBuf r0 /\ actualExitCode r = actualExitCode r0 /\
  readlines r = readlines r0.

Section ExpectedSession.
Context {T : Type}.

(** A tool that asks for each turn with the prompt the transcript expects
    and prints the output the transcript expects after it. *)
Fixpoint expected_session (tcr : testCaseRun) (turns : list testCaseReadline)
    (complete : @completer T) (t : T) : testCaseRun * T :=
  match turns with
  | [] => (tcr, t)
  | turn :: turns' =>
      let '(tcr, t, _) := Readline tcr (rl_expectedPrompt turn) complete t in
      expected_session (WriteStdout (rl_expectedStdout turn) tcr) turns' complete t
  end.
End ExpectedSession.

Definition tc_fixtures : testCase :=
  {| path := "testdata/a.fqtest";
     parts := [ PFile {| f_lineNr := 1; name := "/a"; data := "first" |};
                PRun run_echo;
                PFile {| f_lineNr := 5; name := "/a"; data := "second" |};
                PFile {| f_lineNr := 7; name := "/b.bin"; data := "" |} ];
     wasTested := false |}.

(** ** Further samples: captured output *)

Definition run_no_newline : testCaseRun :=
  {| lineNr := 1; command := " echo -n hi"; env := []; args := ["echo"; "-n"; "hi"];
     stdin := ""; expectedStdout := ""; expectedStderr := "";
     expectedExitCode := 0; actualStdoutBuf := "hi"; actualStderrBuf := "";
     actualExitCode := 0; readlines := []; readlinesPos := 0;
     readlineEnv := [] |}.

(** ** Further notions: the replay *)

(** What the loop over the parts may do to one part: an invocation that is
    selected is replaced by an invocation, every other part stays. *)
Definition replay_of (selected : list string -> bool) (file : string)
    (p p' : part) : Prop :=
  match p with
  | PRun r =>
      if selected [file; subtest_name r] then exists r', p' = PRun r' else p' = p
  | _ => p' = p
  end.

Definition files_broken : list (string * option string) :=
  [ ("echo.fqtest", Some transcript_echo);
    ("broken.fqtest", Some transcript_stdin_first) ].

(** ** Further notions: decimal numerals *)

Definition is_digit (c : ascii) : Prop := is_Some (digit_val c).

Definition all_digits (s : string) : Prop := Forall is_digit (bytes_of_string s).

(** The header line [ToActual] writes for the exit code [n]. *)
Definition exitcode_line (n : Z) : string := "exitcode: " +:+ Itoa n.

(** * Properties *)

(** ** Strings as byte lists *)

Lemma sapp_cons c s t : String c s +:+ t = String c (s +:+ t).
Proof. reflexivity. Qed.

Lemma sapp_nil_l s : "" +:+ s = s.
Proof. reflexivity. Qed.

Lemma sapp_nil_r s : s +:+ "" = s.
Proof. induction s as [|c s IH]; [reflexivity|]. by rewrite sapp_cons, IH. Qed.

Lemma sapp_assoc a b c : (a +:+ b) +:+ c = a +:+ (b +:+ c).
Proof. induction a as [|x a IH]; [reflexivity|]. by rewrite !sapp_cons, IH. Qed.

Lemma string_of_bytes_of_string s : string_of_bytes (bytes_of_string s) = s.
Proof. induction s; simpl; congruence. Qed.

Lemma bytes_of_string_of_bytes l : bytes_of_string (string_of_bytes l) = l.
Proof. induction l; simpl; congruence. Qed.

Lemma bytes_of_string_inj s t : bytes_of_string s = bytes_of_string t -> s = t.
Proof.
  intros H. rewrite <- (string_of_bytes_of_string s), H.
  apply string_of_bytes_of_string.
Qed.

Lemma bytes_app s t : bytes_of_string (s +:+ t) = bytes_of_string s ++ bytes_of_string t.
Proof. induction s as [|c s IH]; [reflexivity|]. rewrite sapp_cons. simpl. by rewrite IH. Qed.

Lemma string_of_bytes_app l k :
  string_of_bytes (l ++ k) = string_of_bytes l +:+ string_of_bytes k.
Proof. apply bytes_of_string_inj. by rewrite bytes_app, !bytes_of_string_of_bytes. Qed.

Lemma len_bytes s : len s = length (bytes_of_string s).
Proof. induction s; simpl; [done|]. unfold len in *. simpl. congruence. Qed.

Lemma len_app s t : len (s +:+ t) = len s + len t.
Proof. by rewrite !len_bytes, bytes_app, length_app. Qed.

Lemma bytes_take n s : bytes_of_string (take_bytes n s) = take n (bytes_of_string s).
Proof. revert s; induction n; intros [|c s]; simpl; try done. by rewrite IHn. Qed.

Lemma bytes_drop n s : bytes_of_string (drop_bytes n s) = drop n (bytes_of_string s).
Proof. revert s; induction n; intros [|c s]; simpl; try done. Qed.

Lemma take_drop_bytes n s : take_bytes n s +:+ drop_bytes n s = s.
Proof.
  apply bytes_of_string_inj. by rewrite bytes_app, bytes_take, bytes_drop, take_drop.
Qed.

Lemma take_bytes_app s t : take_bytes (len s) (s +:+ t) = s.
Proof.
  apply bytes_of_string_inj.
  by rewrite bytes_take, bytes_app, len_bytes, take_app_length.
Qed.

Lemma drop_bytes_app s t : drop_bytes (len s) (s +:+ t) = t.
Proof.
  apply bytes_of_string_inj.
  by rewrite bytes_drop, bytes_app, len_bytes, drop_app_length.
Qed.

Lemma bytes_rev s : bytes_of_string (string_rev s) = rev (bytes_of_string s).
Proof. unfold string_rev. apply bytes_of_string_of_bytes. Qed.

Lemma string_rev_involutive s : string_rev (string_rev s) = s.
Proof.
  apply bytes_of_string_inj. by rewrite !bytes_rev, rev_involutive.
Qed.

Lemma string_rev_app s t : string_rev (s +:+ t) = string_rev t +:+ string_rev s.
Proof.
  apply bytes_of_string_inj. by rewrite bytes_app, !bytes_rev, bytes_app, rev_app_distr.
Qed.

Lemma HasPrefix_spec s p : HasPrefix s p = true <-> exists r, s = p +:+ r.
Proof.
  revert s; induction p as [|c p IH]; intros s; simpl.
  - split; [intros _; by exists s | done].
  - destruct s as [|x s]; simpl; [split; [done | by intros [r Hr]]|].
    rewrite andb_true_iff, Ascii.eqb_eq, IH. split.
    + intros [-> [r ->]]. by exists r.
    + intros [r Hr]. rewrite sapp_cons in Hr. injection Hr as -> ->. eauto.
Qed.

Lemma HasPrefix_app p r : HasPrefix (p +:+ r) p = true.
Proof. apply HasPrefix_spec. eauto. Qed.

Lemma HasSuffix_spec s x : HasSuffix s x = true <-> exists r, s = r +:+ x.
Proof.
  unfold HasSuffix. rewrite HasPrefix_spec. split.
  - intros [r Hr]. exists (string_rev r).
    rewrite <- (string_rev_involutive s), Hr, string_rev_app.
    by rewrite string_rev_involutive.
  - intros [r ->]. exists (string_rev r). apply string_rev_app.
Qed.

Lemma HasSuffix_split s x :
  HasSuffix s x = true -> s = take_bytes (len s - len x) s +:+ x.
Proof.
  intros [r ->]%HasSuffix_spec. rewrite len_app.
  replace (len r + len x - len x) with (len r) by lia.
  by rewrite take_bytes_app.
Qed.

Lemma len_take_bytes n s : n <= len s -> len (take_bytes n s) = n.
Proof. rewrite !len_bytes, bytes_take, length_take. lia. Qed.


(** ** The escape decoder *)

Lemma Unescape_plain s :
  Forall (fun c => c <> backslash) (bytes_of_string s) -> Unescape s = s.
Proof.
  unfold Unescape. induction s as [|c s IH]; [done|].
  intros [Hc Hs]%Forall_cons. cbn [replaceAll].
  assert (unescapeRe_at (String c s) = None) as ->.
  { unfold unescapeRe_at. by destruct c as [[] [] [] [] [] [] [] []]. }
  by rewrite IH.
Qed.

Lemma Unescape_examples :
  Unescape "\0x41" = "A" /\ Unescape "\0b01000001" = "A" /\
  Unescape "a\n" = "a" +:+ nl /\ Unescape "\r\t\b" = cr +:+ tab +:+ bs /\
  Unescape "\q\0b0100000\0x4" = "\q\0b0100000\0x4" /\ Unescape "\0x4A" = "J".
Proof. repeat split; reflexivity. Qed.

(** C4: [Unescape] is to leave every backslash sequence other than the
    recognized escapes unchanged, [\0x] being an escape only before two
    hexadecimal digits.  On the five bytes [\0xGG] the class [[0-f]] of
    [unescapeRe] accepts both [G]s, [hex.DecodeString] then fails and its
    empty result replaces the sequence: the text is dropped, not kept. *)
Theorem Unescape_drops_non_hex_payload :
  unescapeRe_at "\0xGG" = Some 5 /\
  hex_DecodeString "GG" = ([], false) /\
  Unescape "\0xGG" = "" /\
  Unescape "a\0x4Zb" = "ab".
Proof. repeat split; reflexivity. Qed.

(** ** The dialog simulator *)

Section ReadlineFacts.
Context {T : Type}.
Implicit Types (tcr : testCaseRun) (complete : @completer T) (t : T).

Lemma write_lines_buf ls tcr :
  actualStdoutBuf (write_lines ls tcr) = actualStdoutBuf tcr +:+ join_lines ls.
Proof.
  revert tcr. induction ls as [|l ls IH]; intros tcr; simpl.
  - by rewrite sapp_nil_r.
  - unfold write_lines in *. simpl. rewrite IH. simpl. by rewrite sapp_assoc.
Qed.

Lemma write_lines_cursor ls tcr :
  readlines (write_lines ls tcr) = readlines tcr /\
  readlinesPos (write_lines ls tcr) = readlinesPos tcr /\
  readlineEnv (write_lines ls tcr) = readlineEnv tcr /\
  env (write_lines ls tcr) = env tcr.
Proof.
  revert tcr. induction ls as [|l ls IH]; intros tcr; [done|].
  unfold write_lines in *. simpl. by destruct (IH (WriteStdout (l +:+ nl) tcr)) as (-> & -> & -> & ->).
Qed.

(** A call that finds a turn: what it writes, returns and updates. *)
Lemma Readline_turn tcr prompt complete t turn :
  readlines tcr !! readlinesPos tcr = Some turn ->
  let line := Unescape (rl_input turn) in
  exists tcr',
    Readline tcr prompt complete t =
      (tcr', (turn_echo complete t turn).1,
       if HasSuffix line tab then ("", None)
       else if String.eqb line "^D" then ("", Some EOF) else (line, None)) /\
    actualStdoutBuf tcr' =
      actualStdoutBuf tcr +:+ prompt +:+ (turn_echo complete t turn).2 /\
    readlines tcr' = readlines tcr /\
    readlinesPos tcr' = S (readlinesPos tcr) /\
    readlineEnv tcr' = rl_env turn /\
    env tcr' = env tcr.
Proof.
  intros Hturn line. unfold Readline, turn_echo. simpl. rewrite Hturn.
  fold line. destruct (HasSuffix line tab) eqn:Hs.
  - destruct (complete t (take_bytes (len line - 1) line) (len line - 1))
      as [t' [newLine shared]] eqn:Hc.
    eexists. split; [reflexivity|]. simpl.
    rewrite write_lines_buf. simpl.
    destruct (write_lines_cursor newLine
      (WriteStdout (rl_input turn +:+ nl)
         (consume_turn (rl_env turn) (WriteStdout prompt tcr)))) as (-> & -> & -> & ->).
    simpl. by rewrite !sapp_assoc.
  - destruct (String.eqb line "^D"); eexists; (split; [reflexivity|]); simpl;
      by rewrite !sapp_assoc.
Qed.

(** A call that finds no turn. *)
Lemma Readline_exhausted tcr prompt complete t :
  readlines tcr !! readlinesPos tcr = None ->
  Readline tcr prompt complete t = (WriteStdout prompt tcr, t, ("", Some EOF)).
Proof. intros H. unfold Readline. simpl. by rewrite H. Qed.
End ReadlineFacts.

(** C5: a turn whose decoded input ends in a tab is a completion request.
    The call writes the raw input line and a newline (after the prompt),
    calls the tool's completion function once, with the decoded input minus
    the tab and its length as cursor, writes every candidate on a line of
    its own, and returns the empty line without error. *)
Theorem Readline_completion_request {T} (tcr : testCaseRun) (prompt : string)
    (complete : @completer T) (t : T) (turn : testCaseReadline) :
  readlines tcr !! readlinesPos tcr = Some turn ->
  HasSuffix (Unescape (rl_input turn)) tab = true ->
  let line := Unescape (rl_input turn) in
  let partial := take_bytes (len line - 1) line in
  let called := complete t partial (len partial) in
  line = partial +:+ tab /\
  exists tcr',
    Readline tcr prompt complete t = (tcr', called.1, ("", None)) /\
    actualStdoutBuf tcr' =
      actualStdoutBuf tcr +:+ prompt +:+ (rl_input turn +:+ nl) +:+
      join_lines called.2.1 /\
    readlinesPos tcr' = S (readlinesPos tcr).
Proof.
  intros Hturn Hs line partial called.
  pose proof (HasSuffix_split _ _ Hs) as Hline. change (len tab) with 1 in Hline.
  split; [exact Hline|].
  assert (len partial = len line - 1) as Hl.
  { subst partial. apply len_take_bytes. lia. }
  pose proof (Readline_turn tcr prompt complete t turn Hturn) as H.
  cbv zeta in H. destruct H as (tcr' & HR & Hbuf & _ & Hpos & _).
  exists tcr'. unfold turn_echo in HR, Hbuf. rewrite Hs in HR, Hbuf.
  simpl in HR, Hbuf. subst called. rewrite Hl. done.
Qed.

Lemma Readline_completion_request_witness :
  exists tcr',
    Readline (dialog [] [turn_fo]) "null> " complete_fo 0 = (tcr', 1, ("", None)) /\
    actualStdoutBuf tcr' =
      "null> " +:+ ("fo\t" +:+ nl) +:+ ("foo" +:+ nl) +:+ ("for" +:+ nl).
Proof.
  destruct (Readline_completion_request (dialog [] [turn_fo]) "null> "
              complete_fo 0 turn_fo eq_refl eq_refl) as (_ & tcr' & HR & Hbuf & _).
  exists tcr'. split; [exact HR | exact Hbuf].
Defined.

(** C6: [Readline] returns the end-of-stream error exactly when no turn is
    left or the consumed turn is not a completion request and its decoded
    input is the sentinel [^D]; the line returned with the error is empty;
    every other turn that is not a completion request returns its decoded
    input without error. *)
Theorem Readline_eof_iff {T} (tcr : testCaseRun) (prompt : string)
    (complete : @completer T) (t : T) :
  let res := (Readline tcr prompt complete t).2 in
  (res.2 = Some EOF <->
     readlines tcr !! readlinesPos tcr = None \/
     exists turn, readlines tcr !! readlinesPos tcr = Some turn /\
       HasSuffix (Unescape (rl_input turn)) tab = false /\
       Unescape (rl_input turn) = "^D") /\
  (res.2 = Some EOF -> res.1 = "") /\
  (forall turn, readlines tcr !! readlinesPos tcr = Some turn ->
     HasSuffix (Unescape (rl_input turn)) tab = false ->
     Unescape (rl_input turn) <> "^D" ->
     res = (Unescape (rl_input turn), None)).
Proof.
  intros res. subst res.
  destruct (readlines tcr !! readlinesPos tcr) as [turn|] eqn:Hturn.
  - pose proof (Readline_turn tcr prompt complete t turn Hturn) as H.
    cbv zeta in H. destruct H as (tcr' & -> & _). simpl.
    destruct (HasSuffix (Unescape (rl_input turn)) tab) eqn:Hs; simpl.
    { split_and!; [|done|by intros ? [= <-]; rewrite Hs].
      split; [done|]. intros [|(turn' & [= <-] & Hs' & _)]; [done|].
      by rewrite Hs in Hs'. }
    destruct (String.eqb (Unescape (rl_input turn)) "^D") eqn:Hd; simpl.
    + apply String.eqb_eq in Hd. split_and!; [|done|].
      * split; [|done]. intros _. right. by exists turn.
      * by intros ? [= <-] _ [].
    + apply String.eqb_neq in Hd. split_and!; [|done|by intros ? [= <-]].
      split; [done|]. by intros [|(turn' & [= <-] & _ & ?)].
  - rewrite (Readline_exhausted _ _ _ _ Hturn). simpl. split_and!; [|done|done].
    split; [by left|done].
Qed.

(** C10: every call writes its prompt first, the call after the last turn
    included, which then signals the end of the stream.  So when the tool
    asks once for each remaining turn and once more, the captured stdout
    gains the echo of each consumed turn behind its prompt and then the last
    prompt alone: one prompt more than there are consumed turns. *)
Theorem Readline_prompt_first {T} (tcr : testCaseRun) (prompts : list string)
    (p_last : string) (complete : @completer T) (t : T) :
  length prompts = length (drop (readlinesPos tcr) (readlines tcr)) ->
  (forall tcr0 prompt t0, exists rest,
     actualStdoutBuf (Readline tcr0 prompt complete t0).1.1 =
       actualStdoutBuf tcr0 +:+ prompt +:+ rest /\
     (readlines tcr0 !! readlinesPos tcr0 = None ->
      rest = "" /\ (Readline tcr0 prompt complete t0).2 = ("", Some EOF))) /\
  let out := Readlines tcr (prompts ++ [p_last]) complete t in
  actualStdoutBuf out.1.1 =
    actualStdoutBuf tcr +:+
    session_echo complete t (zip prompts (drop (readlinesPos tcr) (readlines tcr))) +:+
    p_last /\
  last out.2 = Some ("", Some EOF) /\
  readlinesPos out.1.1 = readlinesPos tcr + length prompts /\
  length (prompts ++ [p_last]) = S (readlinesPos out.1.1 - readlinesPos tcr).
Proof.
  intros Hlen. split.
  { intros tcr0 prompt t0.
    destruct (readlines tcr0 !! readlinesPos tcr0) as [turn|] eqn:Hturn.
    - pose proof (Readline_turn tcr0 prompt complete t0 turn Hturn) as H.
      cbv zeta in H. destruct H as (tcr' & HR & Hbuf & _).
      rewrite HR. simpl. rewrite Hbuf. eexists. split; [reflexivity|]. by intros [=].
    - rewrite (Readline_exhausted _ _ _ _ Hturn). simpl. exists "".
      by rewrite sapp_nil_r. }
  cbv zeta. revert tcr t Hlen.
  induction prompts as [|p ps IH]; intros tcr t Hlen.
  - simpl in Hlen. symmetry in Hlen. apply length_zero_iff_nil in Hlen.
    assert (readlines tcr !! readlinesPos tcr = None) as Hnone.
    { apply lookup_ge_None. apply drop_nil_inv in Hlen. lia. }
    rewrite Hlen. simpl. rewrite (Readline_exhausted _ _ _ _ Hnone). simpl.
    split_and!; [done|done|lia|lia].
  - destruct (drop (readlinesPos tcr) (readlines tcr)) as [|turn rest] eqn:Hdrop;
      [done|].
    assert (readlines tcr !! readlinesPos tcr = Some turn) as Hturn.
    { rewrite <- (Nat.add_0_r (readlinesPos tcr)), <- lookup_drop. by rewrite Hdrop. }
    pose proof (Readline_turn tcr p complete t turn Hturn) as H.
    cbv zeta in H. destruct H as (tcr' & HR & Hbuf & Hrls & Hpos & _).
    assert (drop (readlinesPos tcr') (readlines tcr') = rest) as Hdrop'.
    { rewrite Hrls, Hpos.
      replace (S (readlinesPos tcr)) with (readlinesPos tcr + 1) by lia.
      by rewrite <- drop_drop, Hdrop. }
    specialize (IH tcr' (turn_echo complete t turn).1).
    rewrite Hdrop' in IH. specialize (IH ltac:(simpl in Hlen; lia)).
    destruct IH as (IHbuf & IHlast & IHpos & IHlen).
    simpl. rewrite HR.
    destruct (Readlines tcr' (ps ++ [p_last]) complete (turn_echo complete t turn).1)
      as [[tcr'' t''] ress] eqn:HRs. simpl in *.
    destruct (turn_echo complete t turn) as [t1 e] eqn:He. simpl in *.
    split_and!.
    + rewrite IHbuf, Hbuf. by rewrite !sapp_assoc.
    + destruct ress; [done|exact IHlast].
    + lia.
    + rewrite length_app in *. simpl in *. lia.
Qed.

Lemma Readline_prompt_first_witness :
  let out := Readlines (dialog [] [turn_fo]) ["null> "; "null> "] complete_fo 0 in
  actualStdoutBuf out.1.1 =
    "" +:+ (("null> " +:+ ("fo\t" +:+ nl) +:+ ("foo" +:+ nl) +:+ ("for" +:+ nl)) +:+ "")
       +:+ "null> " /\
  last out.2 = Some ("", Some EOF).
Proof.
  destruct (Readline_prompt_first (dialog [] [turn_fo]) ["null> "] "null> "
              complete_fo 0 eq_refl) as (_ & Hbuf & Hlast & _).
  split; [exact Hbuf | exact Hlast].
Defined.

(** ** The environment of an invocation *)

Lemma IndexByte_take s c n :
  IndexByte s c = Some n ->
  IndexByte (take_bytes n s) c = None /\ len (take_bytes n s) = n /\
  s = take_bytes n s +:+ String c (drop_bytes (S n) s).
Proof.
  revert n. induction s as [|a s IH]; intros n; simpl; [done|].
  destruct (Ascii.eqb a c) eqn:Ha.
  - intros [= <-]. apply Ascii.eqb_eq in Ha as ->. done.
  - destruct (IndexByte s c) as [m|]; simpl; [|done]. intros [= <-].
    destruct (IH m eq_refl) as (IH1 & IH2 & IH3). simpl. rewrite Ha, IH1.
    split_and!; [done| unfold len in *; simpl; congruence |].
    cbn [take_bytes drop_bytes]. rewrite sapp_cons. by f_equal.
Qed.

Lemma IndexByte_app k c v :
  IndexByte k c = None -> IndexByte (k +:+ String c v) c = Some (len k).
Proof.
  induction k as [|a k IH].
  - intros _. change ("" +:+ String c v) with (String c v). simpl.
    by rewrite Ascii.eqb_refl.
  - rewrite sapp_cons. simpl. destruct (Ascii.eqb a c); [done|].
    destruct (IndexByte k c); [done|]. intros _. by rewrite IH.
Qed.

(** An entry [k=v] starts with [name=] only when [k] is [name]. *)
Lemma HasPrefix_entry name k v :
  IndexByte name "=" = None -> IndexByte k "=" = None ->
  HasPrefix (k +:+ "=" +:+ v) (name +:+ "=") = true <-> k = name.
Proof.
  intros Hn Hk. split.
  - intros [r Hr]%HasPrefix_spec. rewrite sapp_assoc in Hr.
    pose proof (IndexByte_app k "=" v Hk) as H1.
    pose proof (IndexByte_app name "=" r Hn) as H2.
    change (String "=" v) with ("=" +:+ v) in H1.
    change (String "=" r) with ("=" +:+ r) in H2.
    rewrite Hr, H2 in H1. injection H1 as Hlen.
    rewrite <- (take_bytes_app k ("=" +:+ v)), Hr, <- Hlen.
    apply take_bytes_app.
  - intros ->. rewrite <- sapp_assoc. apply HasPrefix_app.
Qed.

Lemma getEnv_of_entries (l : list (string * string)) name :
  IndexByte name "=" = None ->
  Forall (fun kv => IndexByte kv.1 "=" = None) l ->
  NoDup l.*1 ->
  (forall v, (name, v) ∈ l -> getEnv_of (Environ_of l) name = v) /\
  (name ∉ l.*1 -> getEnv_of (Environ_of l) name = "").
Proof.
  intros Hn. induction l as [|[k v'] l IH]; intros Hl Hnd.
  - split; [by intros v ?%elem_of_nil | done].
  - apply Forall_cons in Hl as [Hk Hl]. cbn [fst] in Hk.
    rewrite fmap_cons in Hnd. apply NoDup_cons in Hnd as [Hk' Hnd]. cbn [fst] in Hk'.
    destruct (IH Hl Hnd) as [IH1 IH2]. rewrite fmap_cons. cbn [fst].
    assert (getEnv_of (Environ_of ((k, v') :: l)) name =
              if HasPrefix (k +:+ "=" +:+ v') (name +:+ "=")
              then drop_bytes (len name + 1) (k +:+ "=" +:+ v')
              else getEnv_of (Environ_of l) name) as -> by reflexivity.
    destruct (HasPrefix (k +:+ "=" +:+ v') (name +:+ "=")) eqn:Hp.
    + apply HasPrefix_entry in Hp as ->; [|done..]. split.
      * intros v [[= ->]|Hin]%elem_of_cons.
        -- rewrite <- sapp_assoc.
           replace (len name + 1) with (len (name +:+ "=")) by by rewrite len_app.
           apply drop_bytes_app.
        -- destruct Hk'. apply list_elem_of_fmap. by exists (name, v).
      * intros []. left.
    + assert (k <> name) as Hne.
      { intros ->. rewrite (proj2 (HasPrefix_entry name name v' Hn Hn) eq_refl) in Hp.
        done. }
      split.
      * intros v [[= ? ?]|Hin]%elem_of_cons; [done|]. by apply IH1.
      * intros Hnin. apply IH2. intros ?. apply Hnin. by right.
Qed.

(** The keys of [envm] are not empty and hold no [=]. *)
Lemma envm_add_keys (m : gmap string string) kv :
  (forall k, is_Some (m !! k) -> IndexByte k "=" = None /\ k <> "") ->
  forall k, is_Some (envm_add m kv !! k) -> IndexByte k "=" = None /\ k <> "".
Proof.
  intros Hm k. unfold envm_add.
  destruct (IndexByte kv "=") as [[|i]|] eqn:Hi; try apply Hm.
  destruct (decide (take_bytes (S i) kv = k)) as [<-|Hne].
  - intros _. destruct (IndexByte_take _ _ _ Hi) as (H1 & H2 & _).
    split; [done|]. intros Heq. rewrite Heq in H2. done.
  - rewrite lookup_insert_ne by done. apply Hm.
Qed.

Lemma envm_of_keys l k :
  is_Some (envm_of l !! k) -> IndexByte k "=" = None /\ k <> "".
Proof.
  unfold envm_of. revert k. induction l as [|kv l IH] using rev_ind; intros k.
  - simpl. rewrite lookup_empty. by intros [? ?].
  - rewrite foldl_snoc. by apply envm_add_keys.
Qed.

(** An element that assigns no key, or another key, leaves the lookup of
    [key] as it was. *)
Lemma envm_add_other (m : gmap string string) kv key :
  assigned_key kv <> Some key -> envm_add m kv !! key = m !! key.
Proof.
  unfold assigned_key, envm_add.
  destruct (IndexByte kv "=") as [[|i]|]; try done.
  intros Hne. apply lookup_insert_ne. congruence.
Qed.

Lemma envm_foldl_other (m : gmap string string) l key :
  Forall (fun kv => assigned_key kv <> Some key) l ->
  foldl envm_add m l !! key = m !! key.
Proof.
  revert m. induction l as [|kv l IH]; intros m; [done|].
  intros [H1 H2]%Forall_cons. simpl. rewrite IH by done. by apply envm_add_other.
Qed.

(** An assignment [key=v] binds [key] to [v]. *)
Lemma envm_add_assign (m : gmap string string) key v :
  key <> "" -> IndexByte key "=" = None ->
  envm_add m (key +:+ "=" +:+ v) !! key = Some v.
Proof.
  intros Hne Hk. unfold envm_add.
  change ("=" +:+ v) with (String "=" v). rewrite (IndexByte_app key "=" v Hk).
  destruct (len key) as [|i] eqn:Hlen; [by destruct key|].
  rewrite <- Hlen, take_bytes_app.
  change (String "=" v) with ("=" +:+ v). rewrite <- sapp_assoc.
  replace (S (len key)) with (len (key +:+ "=")) by (rewrite len_app; simpl; lia).
  rewrite drop_bytes_app. apply lookup_insert_eq.
Qed.

(** [getEnv] reads the map, in whatever order [Environ] lists it. *)
Lemma getEnv_of_lookup (l : list string) entries name :
  entries ≡ₚ map_to_list (envm_of l) ->
  IndexByte name "=" = None ->
  getEnv_of (Environ_of entries) name = default "" (envm_of l !! name).
Proof.
  intros Hperm Hn.
  assert (Forall (fun kv => IndexByte kv.1 "=" = None) entries) as Hkeys.
  { apply Forall_forall. intros [k v] Hin. rewrite Hperm in Hin.
    apply elem_of_map_to_list in Hin. simpl. apply (envm_of_keys l). eauto. }
  assert (NoDup entries.*1) as Hnd.
  { rewrite Hperm. apply NoDup_fst_map_to_list. }
  destruct (getEnv_of_entries entries name Hn Hkeys Hnd) as [H1 H2].
  destruct (envm_of l !! name) as [v|] eqn:Hv; simpl.
  - apply H1. rewrite Hperm. by apply elem_of_map_to_list.
  - apply H2. intros [[k v] [-> Hin]]%list_elem_of_fmap. simpl in Hv.
    rewrite Hperm in Hin. apply elem_of_map_to_list in Hin. congruence.
Qed.

(** C1, as the code has it: the assignments of the turn consumed last are
    in force, on top of the base and invocation environments, until the next
    turn is consumed.  After a call that consumes [turn] the merged
    environment is built from the fixed defaults, the invocation's
    assignments and those of [turn] alone, a later assignment of a key
    shadowing the earlier ones; [getEnv] reads that map whatever the order in
    which [Environ] lists it; a key that [turn] assigns reads as assigned;
    a key it does not assign reads as in the invocation's base environment. *)
Theorem turn_env_in_force {T} (tcr : testCaseRun) (prompt : string)
    (complete : @completer T) (t : T) (turn : testCaseReadline) :
  readlines tcr !! readlinesPos tcr = Some turn ->
  let tcr' := (Readline tcr prompt complete t).1.1 in
  Environ_map tcr' = envm_of (defaultEnv ++ env tcr ++ rl_env turn) /\
  (forall entries name,
     entries ≡ₚ map_to_list (Environ_map tcr') ->
     IndexByte name "=" = None ->
     getEnv_of (Environ_of entries) name = default "" (Environ_map tcr' !! name)) /\
  (forall key v before after,
     rl_env turn = before ++ (key +:+ "=" +:+ v) :: after ->
     key <> "" -> IndexByte key "=" = None ->
     Forall (fun kv => assigned_key kv <> Some key) after ->
     getEnv tcr' key = v) /\
  (forall key,
     IndexByte key "=" = None ->
     Forall (fun kv => assigned_key kv <> Some key) (rl_env turn) ->
     getEnv tcr' key = default "" (envm_of (defaultEnv ++ env tcr) !! key)).
Proof.
  intros Hturn tcr'.
  pose proof (Readline_turn tcr prompt complete t turn Hturn) as H.
  cbv zeta in H. destruct H as (tcr1 & HR & _ & _ & _ & Hre & He).
  assert (tcr' = tcr1) as -> by (subst tcr'; by rewrite HR).
  assert (Environ_map tcr1 = envm_of (defaultEnv ++ env tcr ++ rl_env turn)) as Hmap.
  { unfold Environ_map, env_layers. by rewrite Hre, He. }
  assert (forall name, IndexByte name "=" = None ->
            getEnv tcr1 name = default "" (Environ_map tcr1 !! name)) as Hget.
  { intros name Hn. unfold getEnv, Environ. rewrite Hmap.
    by apply getEnv_of_lookup. }
  split_and!.
  - exact Hmap.
  - intros entries name Hperm Hn. rewrite Hmap in *. by apply getEnv_of_lookup.
  - intros key v before after Henv Hne Hk Hafter. rewrite Hget, Hmap by done.
    rewrite Henv. unfold envm_of.
    rewrite !app_assoc, foldl_app. simpl.
    rewrite envm_foldl_other by done. by rewrite envm_add_assign.
  - intros key Hk Hnone. rewrite Hget, Hmap by done. unfold envm_of.
    rewrite app_assoc, foldl_app. by rewrite envm_foldl_other.
Qed.

Lemma turn_env_in_force_witness :
  getEnv (Readline (dialog ["NO_COLOR=0"] [turn_width; turn_plain]) "null> "
            complete_fo 0).1.1 "_STDOUT_WIDTH" = "80" /\
  getEnv (Readline (dialog ["NO_COLOR=0"] [turn_width; turn_plain]) "null> "
            complete_fo 0).1.1 "NO_COLOR" = "0".
Proof.
  destruct (turn_env_in_force (dialog ["NO_COLOR=0"] [turn_width; turn_plain])
              "null> " complete_fo 0 turn_width eq_refl) as (_ & _ & H3 & H4).
  split.
  - apply (H3 "_STDOUT_WIDTH" "80" [] []); [reflexivity|discriminate|reflexivity|constructor].
  - rewrite (H4 "NO_COLOR"); [reflexivity|reflexivity|].
    repeat constructor. vm_compute. discriminate.
Defined.

(** The terminal width the tool is told follows the turn consumed last. *)
Lemma terminal_width_follows_turn :
  let out1 := Readline (dialog [] [turn_width; turn_plain]) "null> " complete_fo 0 in
  let out2 := Readline out1.1.1 "null> " complete_fo out1.1.2 in
  out_width (Stdout (dialog [] [turn_width; turn_plain])) = 135%Z /\
  out_width (Stdout out1.1.1) = 80%Z /\
  out_width (Stdout out2.1.1) = 135%Z.
Proof. vm_compute. done. Qed.

(** C1, as stated, fails: the first turn carries [_STDOUT_WIDTH=80], which
    is in force once it is consumed; the second turn carries no assignment,
    and once it is consumed the key reads 135 again, the default. *)
Lemma overrides_do_not_persist :
  let out1 := Readline (dialog [] [turn_width; turn_plain]) "null> " complete_fo 0 in
  let out2 := Readline out1.1.1 "null> " complete_fo out1.1.2 in
  rl_env turn_width = ["_STDOUT_WIDTH=80"] /\ rl_env turn_plain = [] /\
  getEnv out1.1.1 "_STDOUT_WIDTH" = "80" /\
  out2.2 = ("2+2", None) /\
  getEnv out2.1.1 "_STDOUT_WIDTH" = "135" /\
  getEnv out2.1.1 "_STDOUT_WIDTH" <> "80".
Proof. vm_compute. repeat split; discriminate. Qed.

(** ** The lexical section splitter *)

Lemma IndexByte_None s c : IndexByte s c = None <-> c ∉ bytes_of_string s.
Proof.
  induction s as [|a s IH]; simpl.
  - split; [intros _; apply not_elem_of_nil | done].
  - rewrite not_elem_of_cons. destruct (Ascii.eqb a c) eqn:Ha.
    + apply Ascii.eqb_eq in Ha. split; [done|]. by intros [[] _].
    + apply Ascii.eqb_neq in Ha. destruct (IndexByte s c); simpl.
      * split; [done|]. intros [_ H]. by apply IH in H.
      * split; [|done]. intros _. split; [congruence | by apply IH].
Qed.

(** [Split] cuts at every newline and nowhere else. *)
Lemma Split_join s :
  exists init lst,
    Split s = init ++ [lst] /\ s = join_lines init +:+ lst /\
    IndexByte lst "010" = None.
Proof.
  induction s as [|c s (init & lst & HS & Hs & Hl)].
  - by exists [], "".
  - simpl. destruct (Ascii.eqb c "010") eqn:Hc.
    + apply Ascii.eqb_eq in Hc as ->. exists ("" :: init), lst. rewrite HS.
      split_and!; [done| |done]. simpl. rewrite sapp_assoc, <- Hs. done.
    + rewrite HS. destruct init as [|i0 init]; simpl.
      * exists [], (String c lst). split_and!; [done| |]; simpl.
        -- rewrite sapp_nil_l. rewrite Hs. simpl. by rewrite sapp_nil_l.
        -- by rewrite Hc, Hl.
      * exists (String c i0 :: init), lst. split_and!; [done| |done].
        rewrite Hs. simpl. by rewrite !sapp_cons.
Qed.

Lemma HasSuffix_nl_last x lst :
  lst <> "" -> IndexByte lst "010" = None -> HasSuffix (x +:+ lst) nl = false.
Proof.
  intros Hne Hl. apply not_true_is_false. intros [r Hr]%HasSuffix_spec.
  apply (f_equal bytes_of_string) in Hr. rewrite !bytes_app in Hr.
  destruct (bytes_of_string lst) as [|a l] eqn:Hb using rev_ind.
  - destruct Hne. apply bytes_of_string_inj. by rewrite Hb.
  - clear IHl. simpl in Hr. rewrite app_assoc in Hr.
    apply app_inj_tail in Hr as [_ ->].
    apply IndexByte_None in Hl. apply Hl. rewrite Hb. set_solver.
Qed.

Lemma join_lines_app a b : join_lines (a ++ b) = join_lines a +:+ join_lines b.
Proof. induction a as [|x a IH]; simpl; [done|]. by rewrite IH, !sapp_assoc. Qed.

Lemma join_lines_suffix init :
  init <> [] -> HasSuffix (join_lines init) nl = true.
Proof.
  intros Hne. destruct init as [|x init _] using rev_ind; [done|].
  rewrite join_lines_app. simpl. rewrite sapp_nil_r, <- sapp_assoc.
  apply HasSuffix_spec. eauto.
Qed.

(** The lines of a text, joined again: the text itself when it is empty or
    ends in a newline, and the text with a newline added otherwise. *)
Lemma join_lines_of s :
  join_lines (lines_of s) =
    if String.eqb s "" || HasSuffix s nl then s else s +:+ nl.
Proof.
  destruct (Split_join s) as (init & lst & HS & Hs & Hl). unfold lines_of.
  rewrite HS, last_last. destruct (String.eqb lst "") eqn:Hlst.
  - apply String.eqb_eq in Hlst as ->. rewrite removelast_last.
    rewrite sapp_nil_r in Hs. rewrite <- Hs.
    destruct init as [|x init]; [by rewrite Hs|].
    assert (HasSuffix s nl = true) as -> by (rewrite Hs; by apply join_lines_suffix).
    by rewrite orb_true_r.
  - apply String.eqb_neq in Hlst. rewrite join_lines_app. simpl.
    rewrite sapp_nil_r, <- sapp_assoc, <- Hs.
    assert (String.eqb s "" = false) as ->.
    { apply String.eqb_neq. intros ->. apply Hlst. simpl in HS.
      destruct init as [|? [|? ?]]; by simplify_eq/=. }
    assert (HasSuffix s nl = false) as ->
      by (rewrite Hs; by apply HasSuffix_nl_last).
    done.
Qed.

Lemma sections_text_app a b :
  sections_text (a ++ b) = sections_text a +:+ sections_text b.
Proof. induction a as [|x a IH]; simpl; [done|]. by rewrite IH, !sapp_assoc. Qed.

Lemma SectionParser_line_nonempty re secs n l :
  secs <> [] ->
  SectionParser_line re (secs, n) l =
    (if (0 <? length (re l))%nat then
       secs ++ [ {| LineNr := S n; Name := header_of re l; Value := "" |} ]
     else alter (add_value l) (length secs - 1) secs, S n).
Proof.
  intros Hne. unfold SectionParser_line.
  rewrite bool_decide_eq_false_2 by done. simpl. by destruct (0 <? length (re l))%nat.
Qed.

(** Once there is a section, each further line adds its text at the end:
    a boundary line that is matched in full as a header line, any other line
    to the body of the last section. *)
Lemma SectionParser_fold_text re lines secs n :
  secs <> [] ->
  Forall (fun l => re l <> [] -> header_of re l = l) lines ->
  sections_text (foldl (SectionParser_line re) (secs, n) lines).1 =
    sections_text secs +:+ join_lines lines.
Proof.
  revert secs n. induction lines as [|l lines IH]; intros secs n Hne Hfull;
    cbn [foldl join_lines fst].
  - by rewrite sapp_nil_r.
  - apply Forall_cons in Hfull as [Hl Hfull].
    rewrite SectionParser_line_nonempty by done.
    destruct (re l) as [|m sm] eqn:Hre; simpl.
    + destruct secs as [|x secs _] using rev_ind; [done|].
      rewrite length_app. simpl.
      replace (length secs + 1 - 1) with (length secs + 0) by lia.
      rewrite alter_app_r. simpl. rewrite IH; [|by destruct secs|done].
      rewrite !sections_text_app. simpl. unfold section_text. simpl.
      by rewrite !sapp_nil_r, !sapp_assoc.
    + rewrite IH; [|by destruct secs|done].
      rewrite sections_text_app. simpl. unfold section_text. simpl.
      rewrite Hl by done. by rewrite !sapp_nil_r, !sapp_assoc.
Qed.

(** The first section keeps its line number and header. *)
Lemma SectionParser_fold_head re lines sec secs n :
  exists v secs',
    (foldl (SectionParser_line re) (sec :: secs, n) lines).1 =
      {| LineNr := LineNr sec; Name := Name sec; Value := v |} :: secs'.
Proof.
  revert sec secs n. induction lines as [|l lines IH]; intros sec secs n;
    cbn [foldl fst].
  - exists (Value sec), secs. by destruct sec.
  - rewrite SectionParser_line_nonempty by done.
    destruct (0 <? length (re l))%nat.
    + apply (IH sec).
    + destruct secs as [|x secs]; simpl.
      * apply (IH (add_value l sec)).
      * apply (IH sec).
Qed.

(** The first line starts a section, boundary or not. *)
Lemma SectionParser_first_line re s l ls :
  lines_of s = l :: ls ->
  exists v secs,
    SectionParser re s =
      {| LineNr := 1; Name := header_of re l; Value := v |} :: secs.
Proof.
  intros Hlines. unfold SectionParser. rewrite Hlines. simpl.
  apply (SectionParser_fold_head re ls
           {| LineNr := 1; Name := header_of re l; Value := "" |} [] 1).
Qed.

Lemma alter_add_value_lines l (i : nat) (secs : list section) :
  LineNr <$> alter (add_value l) i secs = LineNr <$> secs.
Proof.
  revert i. induction secs as [|x secs IH]; intros [|i]; try done.
  change (LineNr <$> x :: alter (add_value l) i secs = LineNr <$> x :: secs).
  by rewrite !fmap_cons, IH.
Qed.

(** The sections have increasing line numbers, none above the line count. *)
Lemma SectionParser_fold_lines re lines secs n :
  Forall (fun k => k <= n) (LineNr <$> secs) -> NoDup (LineNr <$> secs) ->
  NoDup (LineNr <$> (foldl (SectionParser_line re) (secs, n) lines).1).
Proof.
  revert secs n. induction lines as [|l lines IH]; intros secs n Hle Hnd;
    cbn [foldl fst]; [done|].
  unfold SectionParser_line at 2.
  destruct (bool_decide (secs = []) || (0 <? length (re l))%nat).
  - apply IH.
    + rewrite fmap_app. apply Forall_app. split; [|by repeat constructor].
      eapply Forall_impl; [exact Hle|]. simpl. lia.
    + rewrite fmap_app. apply NoDup_app. split_and!; [done| |by apply NoDup_singleton].
      intros k Hk ->%list_elem_of_singleton.
      rewrite Forall_forall in Hle. specialize (Hle _ Hk). simpl in Hle. lia.
  - apply IH; rewrite alter_add_value_lines; [|done].
    eapply Forall_impl; [exact Hle|]. simpl. lia.
Qed.

Lemma SectionParser_lines_distinct re s : NoDup (LineNr <$> SectionParser re s).
Proof.
  unfold SectionParser. apply SectionParser_fold_lines; [done | apply NoDup_nil_2].
Qed.

(** C2, as the code has it: when the first line is a boundary line, not
    empty, and the regexp matches every boundary line in full, the headers
    and bodies concatenated give the text back, with a newline added at the
    end when the text is not empty and lacks it.  The first line starts a
    section in every case, with line number 1 and, when it is no boundary
    line, the empty header. *)
Theorem SectionParser_lossless_from_boundary (re : regexp) (s : string) :
  ((forall l ls, lines_of s = l :: ls -> re l <> [] /\ l <> "") ->
   Forall (fun l => re l <> [] -> header_of re l = l) (lines_of s) ->
   reconstruct (SectionParser re s) =
     if String.eqb s "" || HasSuffix s nl then s else s +:+ nl) /\
  (forall l ls, lines_of s = l :: ls ->
     exists v secs,
       SectionParser re s =
         {| LineNr := 1; Name := header_of re l; Value := v |} :: secs) /\
  (forall l ls, lines_of s = l :: ls -> re l = [] -> header_of re l = "").
Proof.
  split_and!.
  - intros Hfirst Hfull. rewrite <- join_lines_of.
    destruct (lines_of s) as [|l ls] eqn:Hlines.
    + unfold SectionParser. by rewrite Hlines.
    + destruct (Hfirst l ls eq_refl) as [Hre Hne].
      apply Forall_cons in Hfull as [Hl Hfull]. specialize (Hl Hre).
      destruct (SectionParser_first_line re s l ls Hlines) as (v & secs & Hsecs).
      assert (sections_text (SectionParser re s) = join_lines (l :: ls)) as Htext.
      { unfold SectionParser. rewrite Hlines. cbn [foldl].
        unfold SectionParser_line at 2. cbn [bool_decide decide_rel orb].
        rewrite bool_decide_eq_true_2 by done. cbn [orb].
        rewrite SectionParser_fold_text by done. fold (header_of re l).
        rewrite Hl. simpl. unfold section_text. simpl.
        by rewrite !sapp_nil_r, !sapp_assoc. }
      rewrite Hsecs in *. rewrite Hl in *. unfold reconstruct. cbn [Name].
      destruct (String.eqb l "") eqn:He;
        [by apply String.eqb_eq in He|].
      exact Htext.
  - intros l ls Hlines. exact (SectionParser_first_line re s l ls Hlines).
  - intros l ls _ Hre. unfold header_of. by rewrite Hre.
Qed.

Lemma SectionParser_lossless_from_boundary_witness :
  reconstruct (SectionParser sectionRe transcript_echo) = transcript_echo.
Proof.
  apply (proj1 (SectionParser_lossless_from_boundary sectionRe transcript_echo)).
  - intros l ls [= <- _]. split; discriminate.
  - replace (lines_of transcript_echo)
      with ["$ echo hi"; "hi"; "exitcode: 3"; "7"] by reflexivity.
    repeat (apply Forall_cons; split;
            [intros H; first [reflexivity | by destruct H]|]).
    apply Forall_nil_2.
Defined.

(** C2, as stated, fails: a first line that is no boundary line starts a
    section with the empty header, and its text is in no header and no
    body. *)
Lemma SectionParser_loses_first_line :
  SectionParser sectionRe ("hello" +:+ nl) =
    [ {| LineNr := 1; Name := ""; Value := "" |} ] /\
  reconstruct (SectionParser sectionRe ("hello" +:+ nl)) <> "hello" +:+ nl.
Proof. vm_compute. split; [reflexivity | discriminate]. Qed.

(** ** The transcript model builder *)

Lemma HasPrefix_first n a p b q :
  HasPrefix n (String a p) = true -> a <> b -> HasPrefix n (String b q) = false.
Proof.
  destruct n as [|c n]; simpl; [done|].
  intros [Hc _]%andb_true_iff Hne. apply Ascii.eqb_eq in Hc as ->.
  apply andb_false_iff. left. by apply Ascii.eqb_neq.
Qed.

Lemma foldM_snoc {A B} (f : A -> B -> result A) a l x :
  foldM f a (l ++ [x]) = bind (foldM f a l) (fun a' => f a' x).
Proof.
  revert a. induction l as [|b l IH]; intros a; simpl.
  - by destruct (f a x).
  - destruct (f a b); simpl; [apply IH | done].
Qed.

Lemma exitcode_of_snoc body sec :
  exitcode_of (body ++ [sec]) =
    if exitcode_header sec then exitcode_on sec else exitcode_of body.
Proof. unfold exitcode_of. by rewrite foldl_snoc. Qed.

Lemma exitcode_of_none body :
  Forall (fun sec => exitcode_header sec = false) body -> exitcode_of body = 0%Z.
Proof.
  induction body as [|sec body IH] using rev_ind; [done|].
  intros [Hb Hs]%Forall_app. apply Forall_inv in Hs.
  rewrite exitcode_of_snoc, Hs. by apply IH.
Qed.

Lemma exitcode_of_last b1 sec b2 :
  exitcode_header sec = true ->
  Forall (fun sec => exitcode_header sec = false) b2 ->
  exitcode_of (b1 ++ sec :: b2) = exitcode_on sec.
Proof.
  intros Hsec. induction b2 as [|x b2 IH] using rev_ind; intros Hb2.
  - by rewrite exitcode_of_snoc, Hsec.
  - apply Forall_app in Hb2 as [Hb2 Hx]. apply Forall_inv in Hx.
    rewrite app_comm_cons, app_assoc, exitcode_of_snoc, Hx. by apply IH.
Qed.

Lemma closed_run_snoc secs sec r : closed_run secs r -> closed_run (secs ++ [sec]) r.
Proof.
  intros (pre & hdr & body & nxt & rest & -> & ? & ? & ? & ?).
  exists pre, hdr, body, nxt, (rest ++ [sec]). split_and!; try done.
  by rewrite <- !app_assoc, <- !app_comm_cons, <- app_assoc, <- app_comm_cons.
Qed.

Lemma open_run_close secs sec r :
  run_header sec -> open_run secs r -> closed_run (secs ++ [sec]) r.
Proof.
  intros Hsec (pre & hdr & body & -> & ? & ? & ?).
  exists pre, hdr, body, sec, []. split_and!; try done.
  by rewrite <- !app_assoc, <- !app_comm_cons.
Qed.

(** A section that is no invocation header joins the open invocation; [upd]
    is what the builder does to it. *)
Lemma open_run_snoc secs sec r (upd : testCaseRun -> testCaseRun) :
  ~ run_header sec ->
  lineNr (upd r) = lineNr r -> command (upd r) = command r ->
  expectedStdout (upd r) = expectedStdout r ->
  expectedExitCode (upd r) =
    (if exitcode_header sec then exitcode_on sec else expectedExitCode r) ->
  (prompt_header sec = false -> readlines (upd r) = readlines r) ->
  open_run secs r -> open_run (secs ++ [sec]) (upd r).
Proof.
  intros Hsec Hline Hcmd Hout Hcode Hrls
    (pre & hdr & body & -> & Hhdr & Hbody & H1 & H2 & H3 & H4 & H5).
  exists pre, hdr, (body ++ [sec]). split_and!.
  - by rewrite <- !app_assoc, <- !app_comm_cons.
  - done.
  - apply Forall_app. split; [done|]. by apply Forall_singleton.
  - split_and!; try congruence.
    + rewrite exitcode_of_snoc, Hcode. by rewrite H4.
    + intros [Hb Hs]%Forall_app. apply Forall_inv in Hs.
      rewrite Hrls by done. by apply H5.
Qed.

Lemma flush_lines ps cur :
  Line <$> flush ps cur =
    (Line <$> ps) ++ match cur with Some r => [lineNr r] | None => [] end.
Proof. destruct cur; simpl; [by rewrite fmap_app | by rewrite app_nil_r]. Qed.

Section BuilderFacts.
Variable shquote_Split : string -> list string.
Variable shquote_Parse : string -> list Token.

Local Abbreviation parse_section := (parse_section shquote_Split shquote_Parse).
Local Abbreviation parse_sections := (parse_sections shquote_Split shquote_Parse).
Local Abbreviation parseTestCases := (parseTestCases shquote_Split shquote_Parse).

Lemma builder_inv_step secs st sec st' :
  builder_inv secs st -> parse_section st sec = Ok st' ->
  builder_inv (secs ++ [sec]) st'.
Proof.
  intros (Hparts & Hcur & rest & Hlines) Hstep. unfold parse_section in Hstep.
  rewrite flush_lines in Hlines.
  assert (forall upd : testCaseRun -> testCaseRun,
            (forall r, lineNr (upd r) = lineNr r) ->
            exists rest',
              LineNr <$> secs ++ [sec] ≡ₚ
                (Line <$> flush (te_parts st) (upd <$> currentTestRun st)) ++ rest')
    as Hupd.
  { intros upd Hline. exists (rest ++ [LineNr sec]).
    rewrite flush_lines, fmap_app, Hlines.
    destruct (currentTestRun st) as [r0|]; simpl; rewrite ?Hline;
      by rewrite <- !app_assoc. }
  destruct (HasPrefix (Name sec) "#") eqn:H1.
  { injection Hstep as <-. split_and!; simpl.
    - intros r [Hin|Hin]%elem_of_app; [|by apply list_elem_of_singleton in Hin].
      by apply closed_run_snoc, Hparts.
    - intros r Hr. apply (open_run_snoc secs sec r id); try done.
      + unfold run_header. by rewrite (HasPrefix_first _ _ _ "$" "" H1).
      + unfold exitcode_header.
        by rewrite (HasPrefix_first _ _ _ "e" "xitcode:" H1).
      + by apply Hcur.
    - exists rest. rewrite flush_lines, !fmap_app, Hlines. simpl.
      solve_Permutation. }
  destruct (HasPrefix (Name sec) "/") eqn:H2.
  { injection Hstep as <-. split_and!; simpl.
    - intros r [Hin|Hin]%elem_of_app; [|by apply list_elem_of_singleton in Hin].
      by apply closed_run_snoc, Hparts.
    - intros r Hr. apply (open_run_snoc secs sec r id); try done.
      + unfold run_header. by rewrite (HasPrefix_first _ _ _ "$" "" H2).
      + unfold exitcode_header.
        by rewrite (HasPrefix_first _ _ _ "e" "xitcode:" H2).
      + by apply Hcur.
    - exists rest. rewrite flush_lines, !fmap_app, Hlines. simpl.
      solve_Permutation. }
  destruct (HasPrefix (Name sec) "$") eqn:H3.
  { destruct (parseCommand shquote_Split (TrimPrefix (Name sec) "$"))
      as [env args]. injection Hstep as <-. split_and!; simpl.
    - intros r Hin. destruct (currentTestRun st) as [r0|] eqn:Hr0; simpl in Hin.
      + apply elem_of_app in Hin as [Hin|Hin].
        * by apply closed_run_snoc, Hparts.
        * apply list_elem_of_singleton in Hin as [= ->].
          by apply open_run_close, Hcur.
      + by apply closed_run_snoc, Hparts.
    - intros r [= <-]. by exists secs, sec, [].
    - exists rest. rewrite !fmap_app, flush_lines, Hlines. simpl.
      solve_Permutation. }
  assert (~ run_header sec) as Hnr by (unfold run_header; by rewrite H3).
  destruct (HasPrefix (Name sec) "exitcode:") eqn:H4.
  { destruct (currentTestRun st) as [r0|] eqn:Hr0; [|done].
    injection Hstep as <-. split_and!; simpl.
    - intros r Hin. by apply closed_run_snoc, Hparts.
    - intros r [= <-].
      apply (open_run_snoc secs sec r0 (set_expectedExitCode _)); try done.
      + simpl. unfold exitcode_header. by rewrite H4.
      + by apply Hcur.
    - by apply (Hupd (set_expectedExitCode _)). }
  destruct (HasPrefix (Name sec) "stdin") eqn:H5.
  { destruct (currentTestRun st) as [r0|] eqn:Hr0; [|done].
    injection Hstep as <-. split_and!; simpl.
    - intros r Hin. by apply closed_run_snoc, Hparts.
    - intros r [= <-]. apply (open_run_snoc secs sec r0 (set_stdin _)); try done.
      + simpl. unfold exitcode_header. by rewrite H4.
      + by apply Hcur.
    - by apply (Hupd (set_stdin _)). }
  destruct (HasPrefix (Name sec) "stderr") eqn:H6.
  { destruct (currentTestRun st) as [r0|] eqn:Hr0; [|done].
    injection Hstep as <-. split_and!; simpl.
    - intros r Hin. by apply closed_run_snoc, Hparts.
    - intros r [= <-].
      apply (open_run_snoc secs sec r0 (set_expectedStderr _)); try done.
      + simpl. unfold exitcode_header. by rewrite H4.
      + by apply Hcur.
    - by apply (Hupd (set_expectedStderr _)). }
  destruct (Contains (Name sec) ">") eqn:H7; [|done].
  destruct (LastIndex (Name sec) ">") as [i|]; [|done].
  destruct (parseInput shquote_Parse _) as [env input].
  destruct (currentTestRun st) as [r0|] eqn:Hr0; [|done].
  injection Hstep as <-. split_and!; simpl.
  - intros r Hin. by apply closed_run_snoc, Hparts.
  - intros r [= <-]. apply (open_run_snoc secs sec r0 (add_readline _)); try done.
    + simpl. unfold exitcode_header. by rewrite H4.
    + unfold prompt_header. by rewrite H1, H2, H3, H4, H5, H6, H7.
    + by apply Hcur.
  - by apply (Hupd (add_readline _)).
Qed.

Lemma builder_inv_sections secs st :
  parse_sections secs = Ok st -> builder_inv secs st.
Proof.
  unfold parse_sections. revert st.
  induction secs as [|sec secs IH] using rev_ind; intros st.
  - intros [= <-]. split_and!; simpl; [by intros r ?%elem_of_nil | done |].
    by exists [].
  - rewrite foldM_snoc.
    destruct (foldM _ _ secs) as [st0|] eqn:Hst0; simpl; [|done].
    intros Hstep. apply (builder_inv_step secs st0 sec st); [by apply IH | done].
Qed.

(** Every invocation of a parsed transcript is described by the sections
    from its header to the next invocation header. *)
Lemma parsed_run_described s tc r :
  parseTestCases s = Ok tc -> PRun r ∈ parts tc ->
  exists hdr body,
    segment_of (SectionParser sectionRe s) hdr body /\ describes hdr body r.
Proof.
  unfold parseTestCases.
  destruct (parse_sections (SectionParser sectionRe s)) as [st|] eqn:Hst;
    simpl; [|done].
  intros [= <-]. simpl. intros Hin.
  destruct (builder_inv_sections _ _ Hst) as (Hparts & Hcur & _).
  assert (closed_run (SectionParser sectionRe s) r \/
          open_run (SectionParser sectionRe s) r) as [Hc|Ho].
  { destruct (currentTestRun st) as [r0|]; simpl in Hin.
    - apply elem_of_app in Hin as [Hin|Hin]; [left; by apply Hparts|].
      apply list_elem_of_singleton in Hin as [= ->]. right. by apply Hcur.
    - left. by apply Hparts. }
  - destruct Hc as (pre & hdr & body & nxt & rest & Heq & ? & ? & ? & ?).
    exists hdr, body. split; [|done]. exists pre, (nxt :: rest).
    split_and!; try done. right. eauto.
  - destruct Ho as (pre & hdr & body & Heq & ? & ? & ?).
    exists hdr, body. split; [|done]. exists pre, [].
    split_and!; try done; [by rewrite app_nil_r | by left].
Qed.
(** The parts of a parsed transcript have distinct lines. *)
Lemma parsed_lines_distinct s tc :
  parseTestCases s = Ok tc -> NoDup (Line <$> parts tc).
Proof.
  unfold parseTestCases.
  destruct (parse_sections (SectionParser sectionRe s)) as [st|] eqn:Hst;
    simpl; [|done].
  intros [= <-]. simpl.
  destruct (builder_inv_sections _ _ Hst) as (_ & _ & rest & Hlines).
  pose proof (SectionParser_lines_distinct sectionRe s) as Hnd.
  rewrite Hlines in Hnd. by apply NoDup_app in Hnd as [? _].
Qed.
End BuilderFacts.

Lemma foldM_app {A B} (f : A -> B -> result A) a l k :
  foldM f a (l ++ k) = bind (foldM f a l) (fun a' => foldM f a' k).
Proof.
  revert a. induction l as [|b l IH]; intros a; simpl; [done|].
  destruct (f a b); simpl; [apply IH | done].
Qed.

Lemma TrimSuffix_spec v m :
  (HasSuffix v m = true /\ v = TrimSuffix v m +:+ m) \/
  (HasSuffix v m = false /\ TrimSuffix v m = v).
Proof.
  unfold TrimSuffix. destruct (HasSuffix v m) eqn:Hs; [left|right]; split; try done.
  by apply HasSuffix_split.
Qed.

Lemma ToExpectedStdout_fold rls acc :
  foldl (fun sb rl => sb +:+ turn_expected rl) acc rls = acc +:+ turns_text rls.
Proof.
  revert acc. induction rls as [|rl rls IH]; intros acc; simpl.
  - by rewrite sapp_nil_r.
  - rewrite IH. unfold turn_expected.
    destruct (String.eqb (rl_expectedStdout rl) "") eqn:He; simpl.
    + apply String.eqb_eq in He. rewrite He. by rewrite !sapp_nil_r, !sapp_assoc.
    + by rewrite !sapp_assoc.
Qed.

(** C3, as the code has it: an [exitcode:] section sets the expected exit
    code of the current invocation to the integer read on its header line,
    after [exitcode:] and trimmed of white space; its body plays no part.
    The expected exit code of a parsed invocation is the one of the last
    such section among its sections, and 0 when there is none. *)
Theorem exitcode_from_header_line
    (shquote_Split : string -> list string) (shquote_Parse : string -> list Token) :
  (forall st sec r,
     exitcode_header sec = true -> currentTestRun st = Some r ->
     parse_section shquote_Split shquote_Parse st sec =
       Ok {| te_parts := te_parts st;
             currentTestRun := Some (set_expectedExitCode
               (fst (Atoi (TrimSpace (TrimPrefix (Name sec) "exitcode:")))) r);
             replDepth := replDepth st |}) /\
  (forall s tc r,
     parseTestCases shquote_Split shquote_Parse s = Ok tc -> PRun r ∈ parts tc ->
     exists hdr body,
       segment_of (SectionParser sectionRe s) hdr body /\
       lineNr r = LineNr hdr /\
       (Forall (fun sec => exitcode_header sec = false) body ->
        expectedExitCode r = 0%Z) /\
       (forall b1 sec b2,
          body = b1 ++ sec :: b2 -> exitcode_header sec = true ->
          Forall (fun sec => exitcode_header sec = false) b2 ->
          expectedExitCode r =
            fst (Atoi (TrimSpace (TrimPrefix (Name sec) "exitcode:"))))).
Proof.
  split.
  - intros st sec r Hsec Hr. unfold exitcode_header in Hsec. unfold parse_section.
    rewrite (HasPrefix_first _ _ _ "#" "" Hsec), (HasPrefix_first _ _ _ "/" "" Hsec),
      (HasPrefix_first _ _ _ "$" "" Hsec) by done.
    by rewrite Hsec, Hr.
  - intros s tc r Hparse Hin.
    destruct (parsed_run_described _ _ s tc r Hparse Hin)
      as (hdr & body & Hseg & Hline & _ & _ & Hcode & _).
    exists hdr, body. split_and!; try done.
    + intros Hnone. rewrite Hcode. by apply exitcode_of_none.
    + intros b1 sec b2 -> Hsec Hb2. rewrite Hcode. by apply exitcode_of_last.
Qed.

Lemma exitcode_from_header_line_witness :
  parse transcript_echo = Ok tc_echo /\
  exists hdr body,
    segment_of (SectionParser sectionRe transcript_echo) hdr body /\
    lineNr run_echo = LineNr hdr /\
    (Forall (fun sec => exitcode_header sec = false) body ->
     expectedExitCode run_echo = 0%Z) /\
    (forall b1 sec b2,
       body = b1 ++ sec :: b2 -> exitcode_header sec = true ->
       Forall (fun sec => exitcode_header sec = false) b2 ->
       expectedExitCode run_echo =
         fst (Atoi (TrimSpace (TrimPrefix (Name sec) "exitcode:")))).
Proof.
  split; [reflexivity|].
  exact (proj2 (exitcode_from_header_line shquote_Split_model shquote_Parse_model)
           transcript_echo tc_echo run_echo eq_refl (list_elem_of_here _ _)).
Defined.

(** C3, as stated, fails: the body of the [exitcode:] section is [7] and a
    newline, the header line reads 3, and 3 is the expected exit code. *)
Lemma exitcode_not_from_body :
  SectionParser sectionRe transcript_echo =
    [ {| LineNr := 1; Name := "$ echo hi"; Value := "hi" +:+ nl |};
      {| LineNr := 3; Name := "exitcode: 3"; Value := "7" +:+ nl |} ] /\
  fst (Atoi (TrimSpace ("7" +:+ nl))) = 7%Z /\
  exists r,
    parse transcript_echo =
      Ok {| path := ""; parts := [PRun r]; wasTested := false |} /\
    expectedExitCode r = 3%Z /\
    expectedExitCode r <> fst (Atoi (TrimSpace ("7" +:+ nl))).
Proof.
  split_and!; [reflexivity..|]. eexists. split_and!; [reflexivity..|]. discriminate.
Qed.

(** C7: without dialog turns the expected stdout is the flat string, which
    the builder took from the body of the invocation's header section with
    a final continuation marker stripped; with dialog turns it is the
    concatenation, turn by turn, of prompt, expression, newline and expected
    output, whatever the flat string holds. *)
Theorem ToExpectedStdout_spec
    (shquote_Split : string -> list string) (shquote_Parse : string -> list Token) :
  (forall tcr, readlines tcr = [] -> ToExpectedStdout tcr = expectedStdout tcr) /\
  (forall tcr, readlines tcr <> [] ->
     ToExpectedStdout tcr = turns_text (readlines tcr)) /\
  (forall s tc r,
     parseTestCases shquote_Split shquote_Parse s = Ok tc -> PRun r ∈ parts tc ->
     exists hdr body,
       segment_of (SectionParser sectionRe s) hdr body /\
       lineNr r = LineNr hdr /\
       expectedStdout r = TrimSuffix (Value hdr) continuation /\
       (Forall (fun sec => prompt_header sec = false) body -> readlines r = []) /\
       (readlines r = [] ->
        ToExpectedStdout r = TrimSuffix (Value hdr) continuation)) /\
  (forall v,
     (HasSuffix v continuation = true /\
      v = TrimSuffix v continuation +:+ continuation) \/
     (HasSuffix v continuation = false /\ TrimSuffix v continuation = v)).
Proof.
  split_and!.
  - intros tcr Hrls. unfold ToExpectedStdout. by rewrite Hrls.
  - intros tcr Hrls. unfold ToExpectedStdout.
    destruct (readlines tcr) as [|rl rls]; [done|].
    by rewrite ToExpectedStdout_fold.
  - intros s tc r Hparse Hin.
    destruct (parsed_run_described _ _ s tc r Hparse Hin)
      as (hdr & body & Hseg & Hline & _ & Hout & _ & Hrls).
    exists hdr, body. split_and!; try done.
    intros Hnil. unfold ToExpectedStdout. by rewrite Hnil.
  - intros v. apply TrimSuffix_spec.
Qed.

Lemma ToExpectedStdout_spec_witness :
  ToExpectedStdout (dialog [] []) = "" /\
  ToExpectedStdout (dialog [] [turn_width; turn_plain]) =
    ("null> " +:+ "_STDOUT_WIDTH=80 1+1" +:+ nl +:+ "2" +:+ nl) +:+
    ("null> " +:+ "2+2" +:+ nl +:+ "4" +:+ nl) +:+ "".
Proof.
  destruct (ToExpectedStdout_spec shquote_Split_model shquote_Parse_model)
    as (H1 & H2 & _).
  split; [apply (H1 (dialog [] [])); reflexivity |].
  apply (H2 (dialog [] [turn_width; turn_plain])). discriminate.
Defined.

(** The sample dialogs are what the builder makes of their transcripts. *)
Lemma sample_dialogs_parse :
  parse transcript_dialog =
    Ok {| path := ""; parts := [PRun (dialog [] [turn_width; turn_plain])];
          wasTested := false |} /\
  parse transcript_fo =
    Ok {| path := ""; parts := [PRun (dialog [] [turn_fo])]; wasTested := false |}.
Proof. split; reflexivity. Qed.

(** C9: a section whose header has none of the known shapes makes the
    builder panic, whatever the state it is met in, and with it the parse of
    a list of sections that holds one; so does the parse of a transcript
    whose first line is no boundary line, whose first section has the empty
    header. *)
Theorem unrecognized_header_panics
    (shquote_Split : string -> list string) (shquote_Parse : string -> list Token) :
  (forall st sec,
     recognized (Name sec) = false ->
     parse_section shquote_Split shquote_Parse st sec =
       Panicked (UnexpectedSection (LineNr sec) (Name sec) (Value sec))) /\
  (forall secs sec,
     sec ∈ secs -> recognized (Name sec) = false ->
     exists p, parse_sections shquote_Split shquote_Parse secs = Panicked p) /\
  (forall s l ls,
     lines_of s = l :: ls -> sectionRe l = [] ->
     exists v, parseTestCases shquote_Split shquote_Parse s =
                 Panicked (UnexpectedSection 1 "" v)).
Proof.
  assert (forall st sec,
     recognized (Name sec) = false ->
     parse_section shquote_Split shquote_Parse st sec =
       Panicked (UnexpectedSection (LineNr sec) (Name sec) (Value sec))) as Hstep.
  { intros st sec Hrec. unfold recognized in Hrec.
    repeat (apply orb_false_iff in Hrec as [Hrec ?]).
    unfold parse_section. by repeat match goal with H : _ = false |- _ => rewrite H; clear H end. }
  split_and!; [exact Hstep | |].
  - intros secs sec (l1 & l2 & ->)%list_elem_of_split Hrec.
    unfold parse_sections. rewrite foldM_app.
    destruct (foldM _ _ l1) as [st|p]; cbn [bind foldM]; [|eauto].
    rewrite Hstep by done. cbn [bind]. eauto.
  - intros s l ls Hlines Hre.
    destruct (SectionParser_first_line sectionRe s l ls Hlines) as (v & secs & Hsecs).
    exists v. unfold parseTestCases, parse_sections. rewrite Hsecs.
    unfold header_of. rewrite Hre. cbn [firstMatch List.find default foldM from_option].
    by rewrite Hstep.
Qed.

Lemma unrecognized_header_panics_witness :
  exists v, parse ("hello" +:+ nl +:+ "$ echo hi" +:+ nl) =
              Panicked (UnexpectedSection 1 "" v).
Proof.
  exact (proj2 (proj2 (unrecognized_header_panics shquote_Split_model
                         shquote_Parse_model))
           ("hello" +:+ nl +:+ "$ echo hi" +:+ nl) "hello" ["$ echo hi"]
           eq_refl eq_refl).
Defined.

(** ** The golden rewriter *)

#[global] Instance line_le_total : Total line_le.
Proof. intros p q. unfold line_le. lia. Qed.

#[global] Instance line_le_trans : Transitive line_le.
Proof. intros p q r. unfold line_le. lia. Qed.

Lemma ToActual_fold ps acc :
  foldl (fun sb p => sb +:+ render_part p) acc ps = acc +:+ parts_text ps.
Proof.
  revert acc. induction ps as [|p ps IH]; intros acc; simpl.
  - by rewrite sapp_nil_r.
  - by rewrite IH, sapp_assoc.
Qed.

(** With distinct lines there is one ascending order: whatever [sort.Slice]
    does, it gives the list of [partsLineSorted]. *)
Lemma sorted_by_line_unique (ps order : list part) :
  NoDup (Line <$> ps) -> order ≡ₚ ps -> Sorted line_le order ->
  order = partsLineSorted ps.
Proof.
  intros Hnd Hperm Hsorted.
  apply (StronglySorted_unique_strong line_le).
  - intros p q Hp Hq Hpq Hqp. unfold line_le in *.
    assert (Line p = Line q) as Heq by lia.
    rewrite Hperm in Hp. unfold partsLineSorted in Hq.
    rewrite merge_sort_Permutation in Hq.
    clear -Hnd Hp Hq Heq. induction ps as [|x ps IH]; [by apply elem_of_nil in Hp|].
    rewrite fmap_cons in Hnd. apply NoDup_cons in Hnd as [Hx Hnd].
    apply elem_of_cons in Hp as [->|Hp]; apply elem_of_cons in Hq as [->|Hq];
      try done; [| |by apply IH].
    + destruct Hx. rewrite Heq. apply list_elem_of_fmap. eauto.
    + destruct Hx. rewrite <- Heq. apply list_elem_of_fmap. eauto.
  - by apply (sorting.Sorted_StronglySorted line_le).
  - apply (StronglySorted_merge_sort line_le).
  - unfold partsLineSorted. by rewrite Hperm, merge_sort_Permutation.
Qed.

Section ReplayFacts.
Variable shquote_Split : string -> list string.
Variable shquote_Parse : string -> list Token.
Variable interp_New : testCaseRun -> bool.
Variable interp_Main : testCaseRun -> testCaseRun * option Z.
Variable selected : list string -> bool.
Variable writeActual : bool.

Local Abbreviation testDecodedTestCaseRun :=
  (testDecodedTestCaseRun interp_New interp_Main writeActual).
Local Abbreviation run_parts :=
  (run_parts interp_New interp_Main selected writeActual).
Local Abbreviation walk :=
  (walk shquote_Split shquote_Parse interp_New interp_Main selected writeActual).

(** [wasTested] is set only by a subtest that ran and returned. *)
Lemma run_parts_tested file ps tested ps' errs :
  run_parts file ps tested = (ps', true, errs) ->
  tested = true \/
  exists r0, PRun r0 ∈ ps /\ selected [file; subtest_name r0] = true /\
             is_Some (testDecodedTestCaseRun r0).
Proof.
  revert tested ps' errs. induction ps as [|p ps IH]; intros tested ps' errs; simpl.
  - intros [= <- <- <-]. by left.
  - assert (forall tested0 ps0 errs0,
              run_parts file ps tested0 = (ps0, true, errs0) ->
              tested0 = tested ->
              tested = true \/
              exists r0, PRun r0 ∈ p :: ps /\
                selected [file; subtest_name r0] = true /\
                is_Some (testDecodedTestCaseRun r0)) as Hrest.
    { intros tested0 ps0 errs0 H <-.
      destruct (IH _ _ _ H) as [?|(r0 & ? & ? & ?)]; [by left|].
      right. exists r0. split_and!; try done. by right. }
    destruct p as [c|r|f].
    + destruct (run_parts file ps tested) as [[ps0 t0] e0] eqn:Hrun.
      intros [= <- -> <-]. by eapply Hrest.
    + destruct (selected [file; subtest_name r]) eqn:Hsel.
      * destruct (testDecodedTestCaseRun r) as [[r' e]|] eqn:Hr.
        -- intros _. right. exists r. split_and!; [left|done|by rewrite Hr].
        -- destruct (run_parts file ps tested) as [[ps0 t0] e0] eqn:Hrun.
           intros [= <- -> <-]. by eapply Hrest.
      * destruct (run_parts file ps tested) as [[ps0 t0] e0] eqn:Hrun.
        intros [= <- -> <-]. by eapply Hrest.
    + destruct (run_parts file ps tested) as [[ps0 t0] e0] eqn:Hrun.
      intros [= <- -> <-]. by eapply Hrest.
Qed.

(** Each transcript of [tcs] is a parsed file with its parts replayed. *)
Lemma walk_transcripts files tcs errs tc :
  walk files = Ok (tcs, errs) -> tc ∈ tcs ->
  exists b tc0 errs0,
    (path tc, Some b) ∈ files /\
    parseTestCases shquote_Split shquote_Parse b = Ok tc0 /\
    run_parts (path tc) (parts tc0) false = (parts tc, wasTested tc, errs0).
Proof.
  revert tcs errs. induction files as [|[file content] files IH];
    intros tcs errs; simpl.
  - intros [= <- <-]. by intros ?%elem_of_nil.
  - assert (forall tcs0 errs0,
              walk files = Ok (tcs0, errs0) -> tc ∈ tcs0 ->
              exists b tc0 errs1,
                (path tc, Some b) ∈ (file, content) :: files /\
                parseTestCases shquote_Split shquote_Parse b = Ok tc0 /\
                run_parts (path tc) (parts tc0) false =
                  (parts tc, wasTested tc, errs1)) as Hrest.
    { intros tcs0 errs0 Hw Hin.
      destruct (IH _ _ Hw Hin) as (b & tc0 & e & ? & ? & ?).
      exists b, tc0, e. split_and!; try done. by right. }
    destruct (negb (String.eqb (filepath_Ext file) ".fqtest")); [by apply Hrest|].
    destruct (negb (selected [file])); [by apply Hrest|].
    destruct content as [b|].
    + destruct (parseTestCases shquote_Split shquote_Parse b) as [tc0|] eqn:Hp;
        simpl; [|done].
      destruct (run_parts file (parts tc0) false) as [[ps tested] e] eqn:Hrun.
      destruct (walk files) as [[tcs0 errs0]|] eqn:Hw; simpl; [|done].
      intros [= <- <-] [->|Hin]%elem_of_cons.
      * exists b, tc0, e. simpl. split_and!; [left|done|done].
      * by eapply Hrest.
    + destruct (walk files) as [[tcs0 errs0]|] eqn:Hw; simpl; [|done].
      intros [= <- <-]. by eapply Hrest.
Qed.
End ReplayFacts.

(** C8: [ToActual] renders the parts in ascending order of line; an
    invocation is rendered as its command line, the captured stdout with a
    continuation marker exactly when it is not empty and lacks a final
    newline, an exit-code line exactly when the captured exit code is not 0,
    a stdin block exactly when stdin is not empty and a stderr block exactly
    when the captured stderr is not empty; and when [TestPath] writes a file
    back, rewrite mode is on and one of the file's invocations was selected
    and replayed to its end. *)
Theorem ToActual_spec
    (shquote_Split : string -> list string) (shquote_Parse : string -> list Token)
    (interp_New : testCaseRun -> bool)
    (interp_Main : testCaseRun -> testCaseRun * option Z)
    (selected : list string -> bool) (writeActual : bool) :
  (forall tc,
     ToActual tc = parts_text (partsLineSorted (parts tc)) /\
     partsLineSorted (parts tc) ≡ₚ parts tc /\
     StronglySorted (fun p q => Line p <= Line q) (partsLineSorted (parts tc))) /\
  (forall r, exists marker exit_line stdin_block stderr_block,
     render_part (PRun r) =
       ("$" +:+ command r +:+ nl) +:+ (actualStdoutBuf r +:+ marker) +:+
       exit_line +:+ stdin_block +:+ stderr_block /\
     marker =
       (if decide (actualStdoutBuf r <> "" /\ HasSuffix (actualStdoutBuf r) nl = false)
        then continuation else "") /\
     exit_line =
       (if decide (actualExitCode r <> 0%Z)
        then "exitcode: " +:+ Itoa (actualExitCode r) +:+ nl else "") /\
     stdin_block =
       (if decide (stdin r <> "") then "stdin:" +:+ nl +:+ stdin r else "") /\
     stderr_block =
       (if decide (actualStderrBuf r <> "")
        then "stderr:" +:+ nl +:+ actualStderrBuf r else "")) /\
  (forall files out errs file data,
     TestPath shquote_Split shquote_Parse interp_New interp_Main selected
       writeActual files = Ok (out, errs) ->
     (file, data) ∈ out ->
     writeActual = true /\
     exists b tc0 r0,
       (file, Some b) ∈ files /\
       parseTestCases shquote_Split shquote_Parse b = Ok tc0 /\
       PRun r0 ∈ parts tc0 /\
       selected [file; subtest_name r0] = true /\
       is_Some (testDecodedTestCaseRun interp_New interp_Main writeActual r0)).
Proof.
  split_and!.
  - intros tc. split_and!.
    + unfold ToActual. by rewrite ToActual_fold.
    + apply merge_sort_Permutation.
    + apply (StronglySorted_merge_sort line_le).
  - intros r. simpl. unfold render_run.
    exists (if decide (actualStdoutBuf r <> "" /\ HasSuffix (actualStdoutBuf r) nl = false)
            then continuation else "").
    do 3 eexists. split_and!; [|reflexivity..].
    f_equal. f_equal; [|f_equal; [|f_equal]].
    + destruct (String.eqb_spec (actualStdoutBuf r) "") as [He|He]; simpl.
      * rewrite He. case_decide as Hd; [by destruct Hd|done].
      * destruct (HasSuffix (actualStdoutBuf r) nl) eqn:Hs; simpl;
          case_decide as Hd; try done; [by destruct Hd | by destruct Hd].
    + destruct (Z.eqb_spec (actualExitCode r) 0) as [He|He]; simpl;
        by case_decide.
    + destruct (String.eqb_spec (stdin r) "") as [He|He]; simpl; by case_decide.
    + destruct (actualStderrBuf r) as [|c e] eqn:He; simpl; try case_decide; done.
  - intros files out errs file data. unfold TestPath.
    destruct (walk _ _ _ _ _ _ files) as [[tcs errs0]|] eqn:Hw; simpl; [|done].
    intros [= <- <-]. unfold written. destruct writeActual eqn:Hwa;
      [|by intros ?%elem_of_nil].
    intros (tc & [= -> ->] & [Htested Hin]%list_elem_of_filter)%list_elem_of_fmap.
    split; [done|].
    destruct (walk_transcripts _ _ _ _ _ _ _ _ _ _ Hw Hin)
      as (b & tc0 & errs1 & Hfile & Hparse & Hrun).
    rewrite Htested in Hrun.
    destruct (run_parts_tested _ _ _ _ _ _ _ _ _ Hrun) as [?|(r0 & ? & ? & ?)];
      [done|].
    by exists b, tc0, r0.
Qed.

Lemma ToActual_spec_witness :
  TestPath shquote_Split_model shquote_Parse_model (fun _ => true) tool_hi
    (fun _ => true) true files_echo = Ok ([("echo.fqtest", rewritten_echo)], []) /\
  exists b tc0 r0,
    ("echo.fqtest", Some b) ∈ files_echo /\
    parse b = Ok tc0 /\ PRun r0 ∈ parts tc0 /\
    true = true /\
    is_Some (testDecodedTestCaseRun (fun _ => true) tool_hi true r0).
Proof.
  split; [reflexivity|].
  exact (proj2 (proj2 (proj2 (ToActual_spec shquote_Split_model shquote_Parse_model
                         (fun _ => true) tool_hi (fun _ => true) true))
           files_echo [("echo.fqtest", rewritten_echo)] [] "echo.fqtest"
           rewritten_echo eq_refl (list_elem_of_here _ _))).
Defined.

(** * Further properties *)

(** ** [Environ], [getEnv], [Stdin], [Stdout] *)

Lemma envm_add_lookup (m : gmap string string) kv key :
  envm_add m kv !! key =
    if decide (assigned_key kv = Some key) then Some (assigned_value kv)
    else m !! key.
Proof.
  unfold envm_add, assigned_key, assigned_value.
  destruct (IndexByte kv "=") as [[|i]|]; try by case_decide.
  case_decide as Hk.
  - injection Hk as <-. apply lookup_insert_eq.
  - apply lookup_insert_ne. congruence.
Qed.

Lemma envm_foldl_lookup (m : gmap string string) l key :
  foldl envm_add m l !! key =
    match last_assignment key l with
    | Some v => Some v
    | None => m !! key
    end.
Proof.
  revert m. induction l as [|kv l IH]; intros m; [done|].
  cbn [foldl last_assignment]. rewrite IH.
  destruct (last_assignment key l); [done|]. rewrite envm_add_lookup.
  by case_decide.
Qed.

(** X1: the map [Environ] builds binds a key to the value of the last element
    that assigns it, looking through the fixed defaults, then the
    invocation's assignments, then those of the turn consumed last; elements
    without [=] or with nothing before it assign nothing.  For a name without
    [=], [getEnv] returns that value, and the empty string when no element
    assigns the name. *)
Theorem Environ_last_assignment_wins (tcr : testCaseRun) (key : string) :
  Environ_map tcr !! key =
    last_assignment key (defaultEnv ++ env tcr ++ readlineEnv tcr) /\
  (IndexByte key "=" = None ->
   getEnv tcr key =
     default "" (last_assignment key (defaultEnv ++ env tcr ++ readlineEnv tcr))).
Proof.
  assert (Environ_map tcr !! key =
            last_assignment key (defaultEnv ++ env tcr ++ readlineEnv tcr)) as Hmap.
  { unfold Environ_map, envm_of, env_layers. rewrite envm_foldl_lookup.
    by destruct (last_assignment key _). }
  split; [exact Hmap|]. intros Hk. rewrite <- Hmap.
  unfold getEnv, Environ, Environ_map. by apply getEnv_of_lookup.
Qed.

Lemma Environ_last_assignment_wins_witness :
  getEnv (dialog ["NO_COLOR=0"; "=x"; "junk"; "NO_COLOR=2"] []) "NO_COLOR" = "2".
Proof.
  rewrite (proj2 (Environ_last_assignment_wins
                    (dialog ["NO_COLOR=0"; "=x"; "junk"; "NO_COLOR=2"] [])
                    "NO_COLOR") eq_refl).
  reflexivity.
Defined.

Lemma IndexByte_app_l a r c p :
  IndexByte a c = Some p -> IndexByte (a +:+ r) c = Some p.
Proof.
  revert p. induction a as [|x a IH]; intros p; [done|].
  rewrite sapp_cons. cbn [IndexByte]. destruct (Ascii.eqb x c); [done|].
  destruct (IndexByte a c) as [q|]; simpl; [|done].
  intros [= <-]. by rewrite (IH q eq_refl).
Qed.

(** An entry [k=v] that starts with [name=] has the key [name_key name]. *)
Lemma HasPrefix_entry_key name k v :
  IndexByte k "=" = None ->
  HasPrefix (k +:+ "=" +:+ v) (name +:+ "=") = true -> k = name_key name.
Proof.
  intros Hk Hp. unfold name_key.
  destruct (IndexByte name "=") as [p|] eqn:Hn.
  - apply HasPrefix_spec in Hp as [r Hr]. rewrite sapp_assoc in Hr.
    pose proof (IndexByte_app k "=" v Hk) as H1.
    change (String "=" v) with ("=" +:+ v) in H1.
    rewrite Hr, (IndexByte_app_l name _ "=" p Hn) in H1. injection H1 as ->.
    transitivity (take_bytes (len k) (name +:+ "=" +:+ r)).
    { rewrite <- Hr. symmetry. apply take_bytes_app. }
    destruct (IndexByte_take _ _ _ Hn) as (_ & Hlen & _).
    rewrite !len_bytes, bytes_take, length_take in Hlen.
    apply bytes_of_string_inj. rewrite !bytes_take, bytes_app, !len_bytes.
    apply take_app_le. lia.
  - by apply (HasPrefix_entry name k v Hn Hk).
Qed.

(** What the loop of [getEnv] returns on a list of entries with distinct
    keys, none holding [=]. *)
Lemma getEnv_of_entries_key (l : list (string * string)) name :
  Forall (fun kv => IndexByte kv.1 "=" = None) l ->
  NoDup l.*1 ->
  (forall v, (name_key name, v) ∈ l ->
     getEnv_of (Environ_of l) name =
       if HasPrefix (name_key name +:+ "=" +:+ v) (name +:+ "=")
       then drop_bytes (len name + 1) (name_key name +:+ "=" +:+ v) else "") /\
  (name_key name ∉ l.*1 -> getEnv_of (Environ_of l) name = "").
Proof.
  induction l as [|[k v'] l IH]; intros Hl Hnd.
  - split; [by intros v ?%elem_of_nil | done].
  - apply Forall_cons in Hl as [Hk Hl]. cbn [fst] in Hk.
    rewrite fmap_cons in Hnd. apply NoDup_cons in Hnd as [Hk' Hnd]. cbn [fst] in Hk'.
    destruct (IH Hl Hnd) as [IH1 IH2]. rewrite fmap_cons. cbn [fst].
    assert (getEnv_of (Environ_of ((k, v') :: l)) name =
              if HasPrefix (k +:+ "=" +:+ v') (name +:+ "=")
              then drop_bytes (len name + 1) (k +:+ "=" +:+ v')
              else getEnv_of (Environ_of l) name) as -> by reflexivity.
    assert (forall v, (k, v) ∈ l -> False) as Hfresh.
    { intros v Hin. apply Hk'. apply list_elem_of_fmap. by exists (k, v). }
    destruct (decide (k = name_key name)) as [->|Hne].
    + split; [|intros []; left].
      intros v [[= <-]|Hin]%elem_of_cons; [|by destruct (Hfresh v)].
      destruct (HasPrefix _ _); [done|]. by apply IH2.
    + assert (HasPrefix (k +:+ "=" +:+ v') (name +:+ "=") = false) as ->.
      { apply not_true_is_false. intros Hp. by apply HasPrefix_entry_key in Hp. }
      split.
      * intros v [[= ? ?]|Hin]%elem_of_cons; [done|]. by apply IH1.
      * intros Hnin. apply IH2. intros ?. apply Hnin. by right.
Qed.

(** X2: [getEnv] does not depend on the order in which Go ranges over the
    map of [Environ]: for every name, with or without [=], any two orders of
    the entries give the same result, because at most one entry can start
    with [name=]. *)
Theorem getEnv_any_order (tcr : testCaseRun) (entries1 entries2 : list (string * string))
    (name : string) :
  entries1 ≡ₚ map_to_list (Environ_map tcr) ->
  entries2 ≡ₚ map_to_list (Environ_map tcr) ->
  getEnv_of (Environ_of entries1) name = getEnv_of (Environ_of entries2) name.
Proof.
  assert (forall entries,
            entries ≡ₚ map_to_list (Environ_map tcr) ->
            getEnv_of (Environ_of entries) name =
              match Environ_map tcr !! name_key name with
              | Some v =>
                  if HasPrefix (name_key name +:+ "=" +:+ v) (name +:+ "=")
                  then drop_bytes (len name + 1) (name_key name +:+ "=" +:+ v)
                  else ""
              | None => ""
              end) as Hone.
  { intros entries Hperm.
    assert (Forall (fun kv => IndexByte kv.1 "=" = None) entries) as Hkeys.
    { apply Forall_forall. intros [k v] Hin. rewrite Hperm in Hin.
      apply elem_of_map_to_list in Hin. simpl.
      apply (envm_of_keys (env_layers tcr)). unfold Environ_map in Hin. eauto. }
    assert (NoDup entries.*1) as Hnd.
    { rewrite Hperm. apply NoDup_fst_map_to_list. }
    destruct (getEnv_of_entries_key entries name Hkeys Hnd) as [H1 H2].
    destruct (Environ_map tcr !! name_key name) as [v|] eqn:Hv.
    - apply H1. rewrite Hperm. by apply elem_of_map_to_list.
    - apply H2. intros [[k v] [Hk Hin]]%list_elem_of_fmap. simpl in Hk. subst k.
      rewrite Hperm in Hin. apply elem_of_map_to_list in Hin. congruence. }
  intros H1 H2. by rewrite (Hone _ H1), (Hone _ H2).
Qed.

Lemma getEnv_any_order_witness :
  getEnv_of (Environ_of (map_to_list (Environ_map (dialog ["A=b=c"] [])))) "A=b" =
  getEnv_of (Environ_of (reverse (map_to_list (Environ_map (dialog ["A=b=c"] []))))) "A=b".
Proof.
  apply (getEnv_any_order (dialog ["A=b=c"] [])); [reflexivity|].
  apply reverse_Permutation.
Defined.

Lemma envm_add_keeps (m : gmap string string) kv key :
  is_Some (m !! key) -> is_Some (envm_add m kv !! key).
Proof. rewrite envm_add_lookup. by case_decide. Qed.

Lemma envm_foldl_keeps (m : gmap string string) l key :
  is_Some (m !! key) -> is_Some (foldl envm_add m l !! key).
Proof.
  revert m. induction l as [|kv l IH]; intros m Hm; [done|].
  simpl. by apply IH, envm_add_keeps.
Qed.

(** X3: the elements of [Environ] are well formed: each is [k=v] with [k]
    not empty and free of [=], no key occurs twice, and each of the seven
    default keys is there, whatever the invocation or a turn assigns (an
    assignment can change the value of a default key, never remove it). *)
Theorem Environ_well_formed (tcr : testCaseRun) :
  exists entries : list (string * string),
    Environ tcr = (fun kv => kv.1 +:+ "=" +:+ kv.2) <$> entries /\
    NoDup entries.*1 /\
    Forall (fun kv => kv.1 <> "" /\ IndexByte kv.1 "=" = None) entries /\
    Forall (fun key => key ∈ entries.*1) defaultKeys.
Proof.
  exists (map_to_list (Environ_map tcr)). split_and!.
  - done.
  - apply NoDup_fst_map_to_list.
  - apply Forall_forall. intros [k v] Hin%elem_of_map_to_list. simpl.
    destruct (envm_of_keys (env_layers tcr) k) as [? ?]; [|done].
    unfold Environ_map in Hin. eauto.
  - apply Forall_forall. intros key Hkey.
    assert (is_Some (Environ_map tcr !! key)) as [v Hv].
    { unfold Environ_map, envm_of, env_layers. rewrite foldl_app.
      apply envm_foldl_keeps. revert Hkey. unfold defaultKeys.
      rewrite !elem_of_cons, elem_of_nil.
      intros [->|[->|[->|[->|[->|[->|[->|[]]]]]]]]; vm_compute; eauto. }
    apply list_elem_of_fmap. exists (key, v). split; [done|].
    by apply elem_of_map_to_list.
Qed.

(** X4: the terminal the tool is told about has the default size, 135 by 25,
    and counts as attached, as long as neither the invocation nor the turn
    consumed last assigns the key in question; the input counts as a
    terminal exactly when the invocation has no stdin. *)
Theorem terminal_defaults (tcr : testCaseRun) :
  Forall (fun kv => assigned_key kv ∉ Some <$> defaultKeys)
    (env tcr ++ readlineEnv tcr) ->
  Stdout tcr = {| out_isTerminal := true; out_width := 135; out_height := 25 |} /\
  in_width (Stdin tcr) = 135%Z /\ in_height (Stdin tcr) = 25%Z /\
  (in_isTerminal (Stdin tcr) = true <-> stdin tcr = "").
Proof.
  intros Hnone.
  assert (forall key, key ∈ defaultKeys ->
            getEnv tcr key = default "" (envm_of defaultEnv !! key)) as Hget.
  { intros key Hkey.
    assert (IndexByte key "=" = None) as Hk.
    { revert Hkey. unfold defaultKeys. rewrite !elem_of_cons, elem_of_nil.
      by intros [->|[->|[->|[->|[->|[->|[->|[]]]]]]]]. }
    unfold getEnv, Environ, Environ_map.
    rewrite (getEnv_of_lookup (env_layers tcr)) by done.
    unfold envm_of, env_layers. rewrite foldl_app. f_equal.
    apply envm_foldl_other. eapply Forall_impl; [exact Hnone|].
    intros kv Hkv Heq. apply Hkv. rewrite Heq. apply list_elem_of_fmap. eauto. }
  unfold Stdout, Stdin, getEnvInt. simpl.
  rewrite !Hget by (unfold defaultKeys; set_solver).
  split_and!; try reflexivity. apply String.eqb_eq.
Qed.

Lemma terminal_defaults_witness :
  Stdout (dialog ["FOO=1"; "NO_COLOR"] [turn_plain]) =
    {| out_isTerminal := true; out_width := 135; out_height := 25 |}.
Proof.
  apply (terminal_defaults (dialog ["FOO=1"; "NO_COLOR"] [turn_plain])).
  repeat (apply Forall_cons; split;
          [vm_compute; intros H;
           repeat (apply elem_of_cons in H as [H|H]; [discriminate|]);
           by apply elem_of_nil in H|]).
  apply Forall_nil_2.
Defined.

(** ** [SectionParser] *)

Lemma group_lines_app g1 g2 : group_lines (g1 ++ g2) = group_lines g1 ++ group_lines g2.
Proof. induction g1 as [|g g1 IH]; [done|]. simpl. by rewrite IH, app_assoc. Qed.

Lemma group_sections_app re n g1 g2 :
  group_sections re n (g1 ++ g2) =
    group_sections re n g1 ++ group_sections re (n + length (group_lines g1)) g2.
Proof.
  revert n. induction g1 as [|g g1 IH]; intros n.
  - simpl. by rewrite Nat.add_0_r.
  - cbn [app group_sections]. rewrite IH. f_equal. f_equal. f_equal.
    cbn [group_lines]. rewrite length_app. simpl. lia.
Qed.

(** The sections are the groups the boundary lines cut the lines into. *)
Lemma SectionParser_grouped re lines :
  exists groups,
    lines = group_lines groups /\
    foldl (SectionParser_line re) ([], 0) lines =
      (group_sections re 0 groups, length lines) /\
    Forall (fun g => Forall (fun l => re l = []) g.2) groups /\
    Forall (fun g => re g.1 <> []) (tail groups).
Proof.
  induction lines as [|l lines (groups & Hlines & Hfold & Hbody & Hhead)]
    using rev_ind.
  - by exists [].
  - rewrite foldl_snoc, Hfold, length_app. simpl.
    replace (length lines + 1) with (S (length lines)) by lia.
    destruct (decide (groups = [])) as [->|Hg].
    { exists [(l, [])]. subst lines. by repeat split; repeat constructor. }
    assert (group_sections re 0 groups <> []) as Hne by by destruct groups.
    rewrite bool_decide_eq_false_2 by done. cbn [orb]. fold (header_of re l).
    destruct (re l) as [|m sm] eqn:Hre; simpl.
    + assert (exists gs h b, groups = gs ++ [(h, b)]) as (gs & h & b & ->).
      { clear -Hg. destruct groups as [|x xs _] using rev_ind; [done|].
        destruct x as [h b]. eauto. }
      exists (gs ++ [(h, b ++ [l])]).
      rewrite !group_lines_app, !group_sections_app in *. simpl in *.
      split_and!.
      * rewrite Hlines. by rewrite !app_nil_r, <- !app_assoc.
      * f_equal. rewrite length_app. simpl.
        replace (length (group_sections re 0 gs) + 1 - 1)
          with (length (group_sections re 0 gs) + 0) by lia.
        rewrite alter_app_r. simpl. unfold add_value. simpl.
        rewrite join_lines_app. simpl. by rewrite sapp_nil_r.
      * apply Forall_app in Hbody as [Hgs Hb]. apply Forall_inv in Hb.
        apply Forall_app. split; [done|]. constructor; [|done]. simpl in *.
        apply Forall_app. split; [done|]. by constructor.
      * destruct gs; simpl in *; [done|].
        apply Forall_app in Hhead as [? Hh]. apply Forall_inv in Hh.
        apply Forall_app. split; [done|]. by constructor.
    + exists (groups ++ [(l, [])]).
      rewrite group_lines_app, group_sections_app. split_and!.
      * by rewrite Hlines.
      * by rewrite <- Hlines.
      * apply Forall_app. split; [done|]. by repeat constructor.
      * destruct groups as [|g0 groups0]; [done|]. simpl in *.
        apply Forall_app. split; [done|].
        constructor; [|done]. simpl. by rewrite Hre.
Qed.

(** X5: [SectionParser] cuts the lines of the text into groups, one per
    section: the first line and every later boundary line start a group, the
    other lines join the group before them.  Each section has the number of
    the line that starts its group, the header the regexp finds on that line
    and, as its body, the other lines of the group, each closed by a newline;
    no boundary line is ever part of a body. *)
Theorem SectionParser_sections_are_groups (re : regexp) (s : string) :
  exists groups,
    lines_of s = group_lines groups /\
    SectionParser re s = group_sections re 0 groups /\
    Forall (fun g => Forall (fun l => re l = []) g.2) groups /\
    Forall (fun g => re g.1 <> []) (tail groups).
Proof.
  destruct (SectionParser_grouped re (lines_of s))
    as (groups & Hlines & Hfold & Hbody & Hhead).
  exists groups. unfold SectionParser. by rewrite Hfold.
Qed.

Lemma group_sections_lines re n groups :
  Forall (fun g => re g.1 <> []) (tail groups) ->
  StronglySorted lt (LineNr <$> group_sections re n groups) /\
  forall sec, sec ∈ group_sections re n groups ->
    n < LineNr sec /\
    exists l, group_lines groups !! (LineNr sec - S n) = Some l /\
      Name sec = header_of re l /\ (LineNr sec = S n \/ re l <> []).
Proof.
  revert n. induction groups as [|[h b] groups IH]; intros n Hhead.
  - split; [constructor | by intros sec ?%elem_of_nil].
  - assert (Forall (fun g => re g.1 <> []) (tail groups)) as Htail.
    { destruct groups; [done|]. simpl in *. by apply Forall_cons in Hhead as [_ ?]. }
    destruct (IH (S n + length b) Htail) as [IHs IHm].
    cbn [group_sections fst snd]. split.
    + rewrite fmap_cons. constructor; [done|]. simpl.
      apply Forall_forall. intros k (sec & -> & Hin)%list_elem_of_fmap.
      destruct (IHm sec Hin) as [? _]. lia.
    + intros sec [->|Hin]%elem_of_cons.
      * simpl. split; [lia|]. exists h. rewrite Nat.sub_diag.
        split_and!; [done|done|by left].
      * destruct (IHm sec Hin) as (Hlt & l & Hl & Hname & Hor). split; [lia|].
        exists l. split_and!; [|done|].
        -- cbn [group_lines fst snd]. rewrite lookup_app_r by (simpl; lia).
           cbn [length].
           replace (LineNr sec - S n - S (length b))
             with (LineNr sec - S (S n + length b)) by lia.
           exact Hl.
        -- right. destruct Hor as [Heq|Hre]; [|done].
           destruct groups as [|[h' b'] groups']; [by apply elem_of_nil in Hin|].
           simpl in Hhead. apply Forall_cons in Hhead as [Hh' _]. simpl in Hh'.
           simpl in Hl. replace (LineNr sec - S (S (n + length b))) with 0 in Hl by lia.
           simpl in Hl. by injection Hl as <-.
Qed.

(** X6: the line numbers of the sections increase strictly, the first being
    1; each is the number of a line of the text, the one whose header the
    section carries, and but for line 1 that line is a boundary line. *)
Theorem SectionParser_line_numbers (re : regexp) (s : string) :
  StronglySorted lt (LineNr <$> SectionParser re s) /\
  (forall sec, sec ∈ SectionParser re s ->
     1 <= LineNr sec <= length (lines_of s) /\
     exists l, lines_of s !! (LineNr sec - 1) = Some l /\
       Name sec = header_of re l /\ (LineNr sec = 1 \/ re l <> [])) /\
  (forall sec secs, SectionParser re s = sec :: secs -> LineNr sec = 1).
Proof.
  destruct (SectionParser_grouped re (lines_of s))
    as (groups & Hlines & Hfold & _ & Hhead).
  unfold SectionParser. rewrite Hfold. simpl.
  destruct (group_sections_lines re 0 groups Hhead) as [Hs Hm].
  split_and!; [done| |].
  - intros sec Hin. destruct (Hm sec Hin) as (Hlt & l & Hl & Hname & Hor).
    rewrite Hlines. split; [|by exists l].
    apply lookup_lt_Some in Hl. lia.
  - intros sec secs Heq. destruct groups; [done|]. by injection Heq as <- _.
Qed.

(** ** [parseTestCases] *)

Lemma Contains_LastIndex s sub : Contains s sub = true -> is_Some (LastIndex s sub).
Proof.
  induction s as [|c s IH].
  - simpl. rewrite orb_false_r. intros ->. eauto.
  - cbn [Contains LastIndex]. intros [Hp|Hc]%orb_true_iff.
    + destruct (LastIndex s sub); [eauto|]. rewrite Hp. eauto.
    + destruct (IH Hc) as [i ->]. eauto.
Qed.

Section BuilderSteps.
Variable shquote_Split : string -> list string.
Variable shquote_Parse : string -> list Token.

Local Abbreviation parse_section := (parse_section shquote_Split shquote_Parse).
Local Abbreviation parse_sections := (parse_sections shquote_Split shquote_Parse).
Local Abbreviation parseTestCases := (parseTestCases shquote_Split shquote_Parse).

(** The three ways a section can go through without panic. *)
Lemma parse_section_inv st sec st' :
  parse_section st sec = Ok st' ->
  (exists p, part_of sec p /\ Line p = LineNr sec /\
     (forall r, p <> PRun r) /\ part_header sec = true /\
     te_parts st' = te_parts st ++ [p] /\
     currentTestRun st' = currentTestRun st) \/
  (exists r, part_of sec (PRun r) /\ part_header sec = true /\
     te_parts st' = flush (te_parts st) (currentTestRun st) /\
     currentTestRun st' = Some r) \/
  (exists r0 r, part_header sec = false /\ needs_run sec = true /\
     te_parts st' = te_parts st /\
     currentTestRun st = Some r0 /\ currentTestRun st' = Some r /\ same_run r0 r).
Proof.
  unfold parse_section, part_header, needs_run, part_header.
  destruct (HasPrefix (Name sec) "#") eqn:H1.
  { intros [= <-]. left.
    exists (PComment {| c_lineNr := LineNr sec; comment := drop_bytes 1 (Name sec) |}).
    by split_and!. }
  destruct (HasPrefix (Name sec) "/") eqn:H2.
  { intros [= <-]. left.
    exists (PFile {| f_lineNr := LineNr sec;
                     name := take_bytes (len (Name sec) - 1) (Name sec);
                     data := Value sec |}).
    by split_and!. }
  destruct (HasPrefix (Name sec) "$") eqn:H3.
  { destruct (parseCommand shquote_Split _) as [e a]. intros [= <-].
    right. left. eexists. split_and!; [|done|done|reflexivity].
    by repeat split. }
  destruct (HasPrefix (Name sec) "exitcode:") eqn:H4.
  { destruct (currentTestRun st) as [r0|]; [|done]. intros [= <-].
    right. right. exists r0. eexists. by split_and!. }
  destruct (HasPrefix (Name sec) "stdin") eqn:H5.
  { destruct (currentTestRun st) as [r0|]; [|done]. intros [= <-].
    right. right. exists r0. eexists. by split_and!. }
  destruct (HasPrefix (Name sec) "stderr") eqn:H6.
  { destruct (currentTestRun st) as [r0|]; [|done]. intros [= <-].
    right. right. exists r0. eexists. by split_and!. }
  destruct (Contains (Name sec) ">") eqn:H7; [|done].
  destruct (LastIndex (Name sec) ">") as [i|]; [|done].
  destruct (parseInput shquote_Parse _) as [e input].
  destruct (currentTestRun st) as [r0|]; [|done]. intros [= <-].
  right. right. exists r0. eexists. by split_and!.
Qed.

(** Without a current invocation, a section that writes to it panics. *)
Lemma parse_section_nil st sec :
  currentTestRun st = None -> needs_run sec = true ->
  parse_section st sec = Panicked NilDereference.
Proof.
  unfold needs_run, part_header, parse_section. intros Hcur.
  destruct (HasPrefix (Name sec) "#"); [done|].
  destruct (HasPrefix (Name sec) "/"); [done|].
  destruct (HasPrefix (Name sec) "$"); [done|]. cbn [negb andb orb].
  rewrite Hcur.
  destruct (HasPrefix (Name sec) "exitcode:"); [done|].
  destruct (HasPrefix (Name sec) "stdin"); [done|].
  destruct (HasPrefix (Name sec) "stderr"); [done|]. cbn [negb andb orb].
  intros Hc. rewrite Hc. destruct (Contains_LastIndex _ _ Hc) as [i ->].
  by destruct (parseInput shquote_Parse _).
Qed.

Lemma parse_static_sections pre st :
  Forall (fun sec => HasPrefix (Name sec) "#" || HasPrefix (Name sec) "/" = true) pre ->
  exists st', foldM parse_section st pre = Ok st' /\
              currentTestRun st' = currentTestRun st.
Proof.
  revert st. induction pre as [|sec pre IH]; intros st Hpre; [by exists st|].
  apply Forall_cons in Hpre as [Hsec Hpre]. cbn [foldM].
  assert (exists st1, parse_section st sec = Ok st1 /\
                      currentTestRun st1 = currentTestRun st) as (st1 & -> & Hcur).
  { unfold parse_section. destruct (HasPrefix (Name sec) "#"); [eauto|].
    cbn [orb] in Hsec. rewrite Hsec. eauto. }
  cbn [bind]. destruct (IH st1 Hpre) as (st' & -> & Hcur'). exists st'.
  split; [done|congruence].
Qed.
End BuilderSteps.

(** X7: a section that belongs to an invocation (an [exitcode:], [stdin],
    [stderr] or dialog-prompt section) met before any invocation header,
    with only comments and fixtures before it, makes the builder panic on
    the nil [currentTestRun]; no transcript is built. *)
Theorem section_before_invocation_panics
    (shquote_Split : string -> list string) (shquote_Parse : string -> list Token)
    (pre : list section) (sec : section) (rest : list section) :
  Forall (fun sec => HasPrefix (Name sec) "#" || HasPrefix (Name sec) "/" = true) pre ->
  needs_run sec = true ->
  parse_sections shquote_Split shquote_Parse (pre ++ sec :: rest) =
    Panicked NilDereference.
Proof.
  intros Hpre Hsec. unfold parse_sections. rewrite foldM_app.
  destruct (parse_static_sections shquote_Split shquote_Parse pre
              {| te_parts := []; currentTestRun := None; replDepth := 0 |} Hpre)
    as (st' & -> & Hcur).
  cbn [bind foldM]. by rewrite parse_section_nil.
Qed.

Lemma section_before_invocation_panics_witness :
  parse_sections shquote_Split_model shquote_Parse_model
    (SectionParser sectionRe transcript_stdin_first) = Panicked NilDereference.
Proof.
  exact (section_before_invocation_panics shquote_Split_model shquote_Parse_model
           [ {| LineNr := 1; Name := "#note"; Value := "" |} ]
           {| LineNr := 2; Name := "stdin:"; Value := "abc" +:+ nl |}
           [ {| LineNr := 4; Name := "$ cat"; Value := "" |} ]
           ltac:(by repeat constructor) eq_refl).
Defined.

Arguments HasPrefix : simpl never.

Lemma part_of_same_run sec r0 r :
  same_run r0 r -> part_of sec (PRun r0) -> part_of sec (PRun r).
Proof.
  intros (H1 & H2 & _ & _ & _ & H3 & H4 & H5 & H6 & H7) (? & ? & ? & ? & ? & ? & ? & ?).
  simpl. unfold unplayed. split_and!; congruence.
Qed.

Lemma filter_part_header_snoc secs sec :
  filter (fun sec => part_header sec = true) (secs ++ [sec]) =
    filter (fun sec => part_header sec = true) secs ++
    (if part_header sec then [sec] else []).
Proof.
  rewrite filter_app, filter_cons, filter_nil.
  case_decide as Hd; destruct (part_header sec); done.
Qed.

Section BuilderParts.
Variable shquote_Split : string -> list string.
Variable shquote_Parse : string -> list Token.

Local Abbreviation parse_section := (parse_section shquote_Split shquote_Parse).
Local Abbreviation parse_sections := (parse_sections shquote_Split shquote_Parse).
Local Abbreviation parseTestCases := (parseTestCases shquote_Split shquote_Parse).

Lemma parts_inv_step secs st sec st' :
  parts_inv secs st -> parse_section st sec = Ok st' ->
  parts_inv (secs ++ [sec]) st'.
Proof.
  intros [Hlines Hparts] Hstep. rewrite flush_lines in Hlines. unfold parts_inv.
  destruct (parse_section_inv _ _ _ _ _ Hstep)
    as [(p & Hp & Hline & Hnr & Hh & -> & ->)
       |[(r & Hr & Hh & -> & ->)
        |(r0 & r & Hh & _ & -> & Hr0 & -> & Hsame)]];
    split.
  - rewrite flush_lines, fmap_app, filter_part_header_snoc, Hh, fmap_app.
    simpl. rewrite <- Hlines, Hline. solve_Permutation.
  - intros q Hq.
    assert (q ∈ flush (te_parts st) (currentTestRun st) \/ q = p) as [Hin| ->].
    { destruct (currentTestRun st) as [r0|]; simpl in *.
      - apply elem_of_app in Hq as [[?|?%list_elem_of_singleton]%elem_of_app|?];
          [left; apply elem_of_app; by left | by right
          |left; apply elem_of_app; by right].
      - apply elem_of_app in Hq as [?|?%list_elem_of_singleton]; [by left|by right]. }
    + destruct (Hparts q Hin) as (s0 & ? & ?). exists s0.
      split; [apply elem_of_app; by left | done].
    + exists sec. split; [|done].
      apply elem_of_app; right; by apply list_elem_of_singleton.
  - rewrite flush_lines, flush_lines, filter_part_header_snoc, Hh, fmap_app.
    simpl. rewrite <- Hlines. destruct Hr as (_ & -> & _). done.
  - simpl. intros q [Hin| ->%list_elem_of_singleton]%elem_of_app.
    + destruct (Hparts q Hin) as (s0 & ? & ?). exists s0.
      split; [apply elem_of_app; by left | done].
    + exists sec. split; [|done].
      apply elem_of_app; right; by apply list_elem_of_singleton.
  - rewrite flush_lines, filter_part_header_snoc, Hh, app_nil_r.
    rewrite <- Hlines, Hr0. by destruct Hsame as (-> & _).
  - rewrite Hr0 in Hparts. simpl in *.
    intros q [Hin| ->%list_elem_of_singleton]%elem_of_app.
    + destruct (Hparts q) as (s0 & ? & ?); [apply elem_of_app; by left|].
      exists s0. split; [apply elem_of_app; by left | done].
    + destruct (Hparts (PRun r0)) as (s0 & ? & ?).
      { apply elem_of_app; right; by apply list_elem_of_singleton. }
      exists s0. split; [apply elem_of_app; by left|].
      by apply (part_of_same_run s0 r0).
Qed.

Lemma parts_inv_sections secs st :
  parse_sections secs = Ok st -> parts_inv secs st.
Proof.
  unfold parse_sections. revert st.
  induction secs as [|sec secs IH] using rev_ind; intros st.
  - intros [= <-]. split; simpl; [done | by intros p ?%elem_of_nil].
  - rewrite foldM_snoc.
    destruct (foldM _ _ secs) as [st0|] eqn:Hst0; simpl; [|done].
    intros Hstep. apply (parts_inv_step secs st0 sec st); [by apply IH | done].
Qed.

Lemma parts_inv_transcript s tc :
  parseTestCases s = Ok tc ->
  Line <$> parts tc ≡ₚ
    LineNr <$> filter (fun sec => part_header sec = true) (SectionParser sectionRe s) /\
  forall p, p ∈ parts tc ->
    exists sec, sec ∈ SectionParser sectionRe s /\ part_of sec p.
Proof.
  unfold parseTestCases.
  destruct (parse_sections (SectionParser sectionRe s)) as [st|] eqn:Hst;
    simpl; [|done].
  intros [= <-]. simpl. by apply parts_inv_sections.
Qed.
End BuilderParts.

(** X8: a parsed transcript has one part for each section whose header is a
    comment, a fixture or an invocation header, at that section's line, and
    no other part: the sections of the other shapes only change the
    invocation they follow.  A comment part holds the header after [#], a
    fixture part the header without its last byte and the body as data, an
    invocation part the header after [$] as command. *)
Theorem parts_are_part_sections
    (shquote_Split : string -> list string) (shquote_Parse : string -> list Token)
    (s : string) (tc : testCase) :
  parseTestCases shquote_Split shquote_Parse s = Ok tc ->
  Line <$> parts tc ≡ₚ
    LineNr <$> filter (fun sec => part_header sec = true) (SectionParser sectionRe s) /\
  length (parts tc) =
    length (filter (fun sec => part_header sec = true) (SectionParser sectionRe s)) /\
  forall p, p ∈ parts tc ->
    exists sec, sec ∈ SectionParser sectionRe s /\ Line p = LineNr sec /\
      match p with
      | PComment c => HasPrefix (Name sec) "#" = true /\
                      comment c = drop_bytes 1 (Name sec)
      | PFile f => HasPrefix (Name sec) "/" = true /\
                   name f = take_bytes (len (Name sec) - 1) (Name sec) /\
                   data f = Value sec
      | PRun r => HasPrefix (Name sec) "$" = true /\
                  command r = TrimPrefix (Name sec) "$"
      end.
Proof.
  intros Hparse.
  destruct (parts_inv_transcript _ _ s tc Hparse) as [Hperm Hparts].
  split_and!; [done| |].
  - apply Permutation_length in Hperm. by rewrite !length_fmap in Hperm.
  - intros p Hp. destruct (Hparts p Hp) as (sec & Hin & Hof).
    exists sec. split; [done|].
    destruct p as [c|r|f]; simpl in Hof.
    + destruct Hof as [? ->]. done.
    + destruct Hof as (? & ? & ? & _). done.
    + destruct Hof as (? & ? & ->). done.
Qed.

Lemma parts_are_part_sections_witness :
  length (parts tc_echo) =
    length (filter (fun sec => part_header sec = true)
              (SectionParser sectionRe transcript_echo)).
Proof.
  exact (proj1 (proj2 (parts_are_part_sections shquote_Split_model
                         shquote_Parse_model transcript_echo tc_echo eq_refl))).
Defined.

(** X9: the parts of a parsed transcript have pairwise distinct lines, so
    there is one way only to put them in ascending order of line: the order
    in which [ToActual] renders them does not depend on how [sort.Slice]
    treats equal keys, nor on the order of [te.parts]. *)
Theorem ToActual_order_determined
    (shquote_Split : string -> list string) (shquote_Parse : string -> list Token)
    (s : string) (tc : testCase) :
  parseTestCases shquote_Split shquote_Parse s = Ok tc ->
  NoDup (Line <$> parts tc) /\
  forall order, order ≡ₚ parts tc -> Sorted line_le order ->
    order = partsLineSorted (parts tc) /\
    foldl (fun sb p => sb +:+ render_part p) "" order = ToActual tc.
Proof.
  intros Hparse.
  pose proof (parsed_lines_distinct _ _ s tc Hparse) as Hnd.
  split; [done|]. intros order Hperm Hsorted.
  assert (order = partsLineSorted (parts tc)) as ->
    by by apply sorted_by_line_unique.
  done.
Qed.

Lemma ToActual_order_determined_witness : NoDup (Line <$> parts tc_echo).
Proof.
  exact (proj1 (ToActual_order_determined shquote_Split_model shquote_Parse_model
                  transcript_echo tc_echo eq_refl)).
Defined.




(** ** [parseCommand], [parseInput], [kvRe] *)

Lemma class_A_Z__not_eq c : class_A_Z_ c = true -> Ascii.eqb c "=" = false.
Proof. by destruct c as [[] [] [] [] [] [] [] []]. Qed.

Lemma kvRe_tail_split s :
  kvRe_tail s = true ->
  exists k v, s = k +:+ "=" +:+ v /\ all_bytes class_A_Z_ k = true /\
              IndexByte k "=" = None.
Proof.
  induction s as [|c s IH]; [done|]. cbn [kvRe_tail].
  destruct (Ascii.eqb c "=") eqn:Hc.
  - apply Ascii.eqb_eq in Hc as ->. intros _. by exists "", s.
  - destruct (class_A_Z_ c) eqn:Hcl; [|done]. intros (k & v & -> & Hk & Hi)%IH.
    exists (String c k), v. split_and!; [done| |].
    + unfold all_bytes in *. simpl. by rewrite Hcl, Hk.
    + simpl. by rewrite Hc, Hi.
Qed.

(** A token [kvRe] matches is an assignment: an upper-case key, not empty,
    [=], and a value. *)
Lemma kvRe_assignment p :
  kvRe_MatchString p = true ->
  exists k v, p = k +:+ "=" +:+ v /\ k <> "" /\
    all_bytes class_A_Z_ k = true /\ IndexByte k "=" = None.
Proof.
  destruct p as [|c s]; [done|]. cbn [kvRe_MatchString].
  intros [Hc (k & v & -> & Hk & Hi)%kvRe_tail_split]%andb_true_iff.
  exists (String c k), v. split_and!; [done|done| |].
  - unfold all_bytes in *. simpl. by rewrite Hc, Hk.
  - simpl. by rewrite (class_A_Z__not_eq c Hc), Hi.
Qed.

Lemma parseCommand_loop_spec tokens :
  let '(env, args) := parseCommand_loop tokens in
  tokens = env ++ args /\
  Forall (fun p => kvRe_MatchString p = true) env /\
  (forall a args', args = a :: args' -> kvRe_MatchString a = false).
Proof.
  induction tokens as [|p tokens IH]; simpl.
  - by split_and!.
  - destruct (kvRe_MatchString p) eqn:Hp.
    + destruct (parseCommand_loop tokens) as [env args].
      destruct IH as (-> & Henv & Hargs). split_and!; [done| |done].
      by constructor.
    + split_and!; [done|done|]. by intros a args' [= <- _].
Qed.

Lemma parseCommand_leading_assignments_aux
    (shquote_Split : string -> list string) (s : string) :
  shquote_Split s =
    (parseCommand shquote_Split s).1 ++ (parseCommand shquote_Split s).2 /\
  Forall (fun p => kvRe_MatchString p = true) (parseCommand shquote_Split s).1.
Proof.
  unfold parseCommand.
  pose proof (parseCommand_loop_spec (shquote_Split s)) as H.
  destruct (parseCommand_loop (shquote_Split s)) as [env args].
  by destruct H as (H1 & H2 & _).
Qed.

(** X11: [parseCommand] cuts the tokens of the command line in two without
    losing or reordering any: the environment is the longest run of leading
    tokens that [kvRe] matches, the arguments are the rest, starting with
    the first token it does not match; an assignment after that token is an
    argument. *)
Theorem parseCommand_leading_assignments
    (shquote_Split : string -> list string) (s : string) :
  let env := (parseCommand shquote_Split s).1 in
  let args := (parseCommand shquote_Split s).2 in
  shquote_Split s = env ++ args /\
  Forall (fun p => kvRe_MatchString p = true) env /\
  (forall a args', args = a :: args' -> kvRe_MatchString a = false) /\
  (forall p tokens, shquote_Split s = p :: tokens ->
     kvRe_MatchString p = false -> env = [] /\ args = p :: tokens).
Proof.
  unfold parseCommand.
  pose proof (parseCommand_loop_spec (shquote_Split s)) as H.
  destruct (parseCommand_loop (shquote_Split s)) as [env args] eqn:Hloop.
  destruct H as (H1 & H2 & H3). simpl. split_and!; try done.
  intros p tokens Heq Hp. rewrite Heq in Hloop. simpl in Hloop.
  rewrite Hp in Hloop. by injection Hloop as <- <-.
Qed.

Lemma parseInput_loop_spec tokens l :
  let '(env, l') := parseInput_loop tokens l in
  Forall (fun p => kvRe_MatchString p = true) env /\
  (env = [] -> l' = l) /\
  (env <> [] -> exists t, t ∈ tokens /\ tok_Separator t = false /\
                          last env = Some (tok_Str t) /\ l' = tok_End t).
Proof.
  revert l. induction tokens as [|t tokens IH]; intros l; simpl.
  - by split_and!.
  - destruct (tok_Separator t) eqn:Hsep.
    + specialize (IH l). destruct (parseInput_loop tokens l) as [env l'].
      destruct IH as (H1 & H2 & H3). split_and!; [done|done|].
      intros Hne. destruct (H3 Hne) as (t' & ? & ? & ? & ?).
      exists t'. split_and!; try done. by right.
    + destruct (kvRe_MatchString (tok_Str t)) eqn:Hp.
      * specialize (IH (tok_End t)).
        destruct (parseInput_loop tokens (tok_End t)) as [env l'].
        destruct IH as (H1 & H2 & H3). split_and!; [by constructor|done|].
        intros _. destruct env as [|e env].
        -- exists t. rewrite (H2 eq_refl). split_and!; try done. left.
        -- destruct (H3 ltac:(done)) as (t' & ? & ? & Hlast & ?).
           exists t'. split_and!; try done. by right.
      * by split_and!.
Qed.

(** X12: [parseInput] returns as overrides tokens [kvRe] matches only, and
    as input the line from the end of the last of them on: the last override
    is the text of a token that is no separator, and the input starts where
    that token ends, the separator after it included.  When there is no
    override the input is the line itself, byte for byte. *)
Theorem parseInput_input_is_suffix
    (shquote_Parse : string -> list Token) (s : string) :
  let env := (parseInput shquote_Parse s).1 in
  let input := (parseInput shquote_Parse s).2 in
  Forall (fun p => kvRe_MatchString p = true) env /\
  (env = [] -> input = s) /\
  (env <> [] ->
   exists t, t ∈ shquote_Parse s /\ tok_Separator t = false /\
     last env = Some (tok_Str t) /\ input = drop_bytes (tok_End t) s).
Proof.
  unfold parseInput.
  pose proof (parseInput_loop_spec (shquote_Parse s) 0) as H.
  destruct (parseInput_loop (shquote_Parse s) 0) as [env l].
  destruct H as (H1 & H2 & H3). simpl. split_and!; [done| |].
  - intros Hnil. by rewrite (H2 Hnil).
  - intros Hne. destruct (H3 Hne) as (t & ? & ? & ? & ->). by exists t.
Qed.

(** X13: every leading assignment of a command line takes effect: each
    element of the environment [parseCommand] returns has the form [key=v]
    with an upper-case key, so [Environ] drops none of them, and in an
    invocation with that environment, before any dialog turn is consumed,
    [getEnv] reads for each key the value of the last element assigning
    it. *)
Theorem command_assignments_take_effect
    (shquote_Split : string -> list string) (s : string) (tcr : testCaseRun) :
  env tcr = (parseCommand shquote_Split s).1 -> readlineEnv tcr = [] ->
  Forall (fun kv => exists key v,
            kv = key +:+ "=" +:+ v /\ key <> "" /\
            all_bytes class_A_Z_ key = true /\
            assigned_key kv = Some key /\ assigned_value kv = v) (env tcr) /\
  (forall before key v after,
     env tcr = before ++ (key +:+ "=" +:+ v) :: after ->
     key <> "" -> IndexByte key "=" = None ->
     Forall (fun kv => assigned_key kv <> Some key) after ->
     getEnv tcr key = v).
Proof.
  intros Henv Hrl. split.
  - rewrite Henv.
    destruct (parseCommand_leading_assignments_aux shquote_Split s) as [_ Hall].
    eapply Forall_impl; [exact Hall|]. intros kv Hkv. simpl in Hkv.
    destruct (kvRe_assignment kv Hkv) as (k & v & -> & Hne & Hcl & Hi).
    exists k, v. split_and!; try done.
    + unfold assigned_key. change ("=" +:+ v) with (String "=" v).
      rewrite (IndexByte_app k "=" v Hi).
      destruct (len k) as [|i] eqn:Hlen; [by destruct k|].
      by rewrite <- Hlen, take_bytes_app.
    + unfold assigned_value. change ("=" +:+ v) with (String "=" v).
      rewrite (IndexByte_app k "=" v Hi).
      change (String "=" v) with ("=" +:+ v). rewrite <- sapp_assoc.
      replace (S (len k)) with (len (k +:+ "=")) by (rewrite len_app; simpl; lia).
      apply drop_bytes_app.
  - intros before key v after Heq Hne Hk Hafter.
    unfold getEnv, Environ, Environ_map.
    rewrite (getEnv_of_lookup (env_layers tcr)) by done.
    unfold envm_of, env_layers. rewrite Hrl, app_nil_r, Heq.
    rewrite !app_assoc, foldl_app. simpl.
    rewrite envm_foldl_other by done. by rewrite envm_add_assign.
Qed.

Lemma command_assignments_take_effect_witness :
  getEnv (dialog ["FOO=1"; "FOO=2"] []) "FOO" = "2".
Proof.
  exact (proj2 (command_assignments_take_effect shquote_Split_model
                  "FOO=1 FOO=2 fq -i" (dialog ["FOO=1"; "FOO=2"] []) eq_refl eq_refl)
           ["FOO=1"] "FOO" "2" [] eq_refl ltac:(discriminate) eq_refl
           (Forall_nil_2 _)).
Defined.

(** ** [Unescape] *)

(** A match is at least two bytes long and is replaced by one byte at most. *)
Lemma unescapeRe_at_repl s n :
  unescapeRe_at s = Some n ->
  2 <= n /\ len (unescape_repl (take_bytes n s)) <= 1.
Proof.
  unfold unescapeRe_at.
  destruct s as [|c0 s]; [done|].
  destruct (Ascii.eqb_spec c0 "\") as [->|];
    [|by destruct c0 as [[] [] [] [] [] [] [] []]].
  destruct s as [|c r]; [done|].
  destruct (Ascii.eqb_spec c "t") as [->|]; [intros [= <-]; by split|].
  destruct (Ascii.eqb_spec c "b") as [->|]; [intros [= <-]; by split|].
  destruct (Ascii.eqb_spec c "n") as [->|]; [intros [= <-]; by split|].
  destruct (Ascii.eqb_spec c "r") as [->|]; [intros [= <-]; by split|].
  simpl. destruct (Ascii.eqb_spec c "0") as [->|]; [|done].
  destruct r as [|c1 r]; [done|].
  destruct (Ascii.eqb_spec c1 "b") as [->|].
  { do 8 (destruct r as [|? r]; [done|]).
    destruct (_ && _); [|done]. intros [= <-]. split; [lia|]. vm_compute. lia. }
  destruct (Ascii.eqb_spec c1 "x") as [->|].
  { destruct r as [|h1 [|h2 r]]; try done.
    destruct (_ && _); [|done]. intros [= <-]. split; [lia|].
    cbn -[fromHexChar].
    destruct (fromHexChar h1), (fromHexChar h2); simpl; lia. }
  by destruct c1 as [[] [] [] [] [] [] [] []].
Qed.

Lemma replaceAll_length k s :
  len (replaceAll unescape_repl k s) <= len s - k.
Proof.
  revert k. induction s as [|c s IH]; intros k; [simpl; lia|].
  cbn [replaceAll]. destruct k as [|k].
  - destruct (unescapeRe_at (String c s)) as [n|] eqn:Hn.
    + destruct (unescapeRe_at_repl _ _ Hn) as [Hn2 Hrepl].
      rewrite len_app. specialize (IH (n - 1)). unfold len in *. simpl. lia.
    + specialize (IH 0). unfold len in *. simpl. lia.
  - specialize (IH k). unfold len in *. simpl. lia.
Qed.

(** X14: [Unescape] never makes a text longer: every escape it replaces is
    at least two bytes long and becomes one byte, or none. *)
Theorem Unescape_never_longer (s : string) : len (Unescape s) <= len s.
Proof. unfold Unescape. pose proof (replaceAll_length 0 s). lia. Qed.

Lemma Unescape_plain_prefix a b :
  Forall (fun c => c <> backslash) (bytes_of_string a) ->
  Unescape (a +:+ b) = a +:+ Unescape b.
Proof.
  unfold Unescape. induction a as [|c a IH]; [done|].
  intros [Hc Ha]%Forall_cons. rewrite !sapp_cons. cbn [replaceAll].
  assert (unescapeRe_at (String c (a +:+ b)) = None) as ->.
  { unfold unescapeRe_at. by destruct c as [[] [] [] [] [] [] [] []]. }
  by rewrite IH.
Qed.

(** X15: text before the first backslash passes through [Unescape]
    untouched, whatever follows; a text without backslash is returned as it
    is, so decoding a second time changes nothing when the first result holds
    no backslash. *)
Theorem Unescape_backslash_free (a b s : string) :
  Forall (fun c => c <> backslash) (bytes_of_string a) ->
  Unescape (a +:+ b) = a +:+ Unescape b /\
  Unescape a = a /\
  (Unescape s = a -> Unescape (Unescape s) = Unescape s).
Proof.
  intros Ha. split_and!.
  - by apply Unescape_plain_prefix.
  - by apply Unescape_plain.
  - intros ->. by apply Unescape_plain.
Qed.

Lemma Unescape_backslash_free_witness :
  Unescape ("null> " +:+ "a\tb") = "null> " +:+ Unescape "a\tb".
Proof.
  apply (Unescape_backslash_free "null> " "a\tb" "").
  repeat constructor; discriminate.
Defined.

Lemma hex_escape_byte_step c rest :
  replaceAll unescape_repl 0 (hex_escape_byte c +:+ rest) =
    String c (replaceAll unescape_repl 0 rest).
Proof. destruct c as [[] [] [] [] [] [] [] []]; reflexivity. Qed.

(** X16: every byte string can be written with [\0x] escapes: writing each
    byte as [\0x] and its two hexadecimal digits and decoding the result
    gives the bytes back, the zero byte, the backslash and the bytes above
    127 included. *)
Theorem Unescape_hex_escape (s : string) : Unescape (hex_escape s) = s.
Proof.
  unfold Unescape. induction s as [|c s IH]; [done|].
  cbn [hex_escape]. by rewrite hex_escape_byte_step, IH.
Qed.

(** ** [Open] *)

Lemma Open_parts_not_found tc_path ps nm :
  (forall f, PFile f ∈ ps -> name f <> nm) ->
  Open_parts tc_path ps nm = OpenError (nm +:+ ": file not found").
Proof.
  induction ps as [|p ps IH]; intros Hnone; [done|].
  assert (Open_parts tc_path ps nm = OpenError (nm +:+ ": file not found")) as IH'.
  { apply IH. intros f Hf. apply Hnone. by right. }
  destruct p as [c|r|f]; simpl; try done.
  destruct (String.eqb_spec (name f) nm) as [Heq|Hne]; [|done].
  destruct (Hnone f); [left|done].
Qed.

Lemma Open_parts_skip tc_path before ps nm :
  (forall f, PFile f ∈ before -> name f <> nm) ->
  Open_parts tc_path (before ++ ps) nm = Open_parts tc_path ps nm.
Proof.
  induction before as [|p before IH]; intros Hnone; [done|].
  assert (Open_parts tc_path (before ++ ps) nm = Open_parts tc_path ps nm) as IH'.
  { apply IH. intros f Hf. apply Hnone. by right. }
  destruct p as [c|r|f]; simpl; try done.
  destruct (String.eqb_spec (name f) nm) as [Heq|Hne]; [|done].
  destruct (Hnone f); [left|done].
Qed.

(** X17: [Open] answers from the first fixture with the name asked for,
    wherever it stands among the parts, before or after the invocations; a
    later fixture of the same name is never reached.  A fixture with data is
    served from memory with the size of its data and the last element of the
    name as file name, a fixture without data sends to the file on disk, and
    the error [file not found] is returned exactly when no fixture has the
    name. *)
Theorem Open_first_fixture (tc : testCase) (nm : string) :
  (Open tc nm = OpenError (nm +:+ ": file not found") <->
   forall f, PFile f ∈ parts tc -> name f <> nm) /\
  (forall before f after,
     parts tc = before ++ PFile f :: after -> name f = nm ->
     (forall g, PFile g ∈ before -> name g <> nm) ->
     Open tc nm =
       if String.eqb (data f) "" then OpenedDisk (path tc) nm
       else OpenedData (filepath_Base nm) (len (data f)) (data f)).
Proof.
  assert (forall before f after,
     parts tc = before ++ PFile f :: after -> name f = nm ->
     (forall g, PFile g ∈ before -> name g <> nm) ->
     Open tc nm =
       if String.eqb (data f) "" then OpenedDisk (path tc) nm
       else OpenedData (filepath_Base nm) (len (data f)) (data f)) as Hfirst.
  { intros before f after Hparts Hname Hbefore. unfold Open.
    rewrite Hparts, Open_parts_skip by done. simpl.
    rewrite Hname, String.eqb_refl. by destruct (data f). }
  split; [|exact Hfirst]. split.
  - intros Herr f Hf Hname.
    assert (exists before g after, parts tc = before ++ PFile g :: after /\
              name g = nm /\ forall h, PFile h ∈ before -> name h <> nm)
      as (before & g & after & Hparts & Hg & Hbefore).
    { clear Herr Hfirst. induction (parts tc) as [|p ps IH]; [by apply elem_of_nil in Hf|].
      assert ((exists g, p = PFile g /\ name g = nm) \/
              ~ (exists g, p = PFile g /\ name g = nm)) as [(g & -> & Hg)|Hno].
      { destruct p as [c|r|g]; [right; by intros (? & ? & ?)..|].
        destruct (decide (name g = nm)); [left; eauto|].
        right. by intros (? & [= <-] & ?). }
      - exists [], g, ps. split_and!; [done|done|]. by intros h ?%elem_of_nil.
      - apply elem_of_cons in Hf as [<-|Hf]; [destruct Hno; eauto|].
        destruct (IH Hf) as (before & g & after & -> & Hg & Hbefore).
        exists (p :: before), g, after. split_and!; [done|done|].
        intros h [<-|Hh]%elem_of_cons; [|by apply Hbefore].
        intros Hh. apply Hno. eauto. }
    rewrite (Hfirst before g after Hparts Hg Hbefore) in Herr.
    by destruct (String.eqb (data g) "").
  - intros Hnone. unfold Open. by apply Open_parts_not_found.
Qed.

Lemma Open_first_fixture_witness :
  Open tc_fixtures "/a" = OpenedData "a" 5 "first" /\
  Open tc_fixtures "/b.bin" = OpenedDisk "testdata/a.fqtest" "/b.bin" /\
  Open tc_fixtures "/c" = OpenError "/c: file not found".
Proof.
  destruct (Open_first_fixture tc_fixtures "/a") as [_ Ha].
  destruct (Open_first_fixture tc_fixtures "/b.bin") as [_ Hb].
  destruct (Open_first_fixture tc_fixtures "/c") as [[_ Hc] _].
  split_and!.
  - apply (Ha [] {| f_lineNr := 1; name := "/a"; data := "first" |}
              [ PRun run_echo;
                PFile {| f_lineNr := 5; name := "/a"; data := "second" |};
                PFile {| f_lineNr := 7; name := "/b.bin"; data := "" |} ]
              eq_refl eq_refl).
    by intros g ?%elem_of_nil.
  - apply (Hb [ PFile {| f_lineNr := 1; name := "/a"; data := "first" |};
                PRun run_echo;
                PFile {| f_lineNr := 5; name := "/a"; data := "second" |} ]
              {| f_lineNr := 7; name := "/b.bin"; data := "" |} [] eq_refl eq_refl).
    intros g Hg.
    repeat (apply elem_of_cons in Hg as [Hg|Hg];
            [first [discriminate Hg | injection Hg as ->; by simpl]|]).
    by apply elem_of_nil in Hg.
  - apply Hc. intros g Hg.
    repeat (apply elem_of_cons in Hg as [Hg|Hg];
            [first [discriminate Hg | injection Hg as ->; by simpl]|]).
    by apply elem_of_nil in Hg.
Defined.

(** ** [Readline]: what a dialog changes *)

Lemma same_transcript_refl r : same_transcript r r.
Proof. by repeat split. Qed.

Lemma same_transcript_trans r0 r1 r2 :
  same_transcript r0 r1 -> same_transcript r1 r2 -> same_transcript r0 r2.
Proof.
  unfold same_transcript. intros H1 H2.
  destruct H1 as (?&?&?&?&?&?&?&?&?&?&?), H2 as (?&?&?&?&?&?&?&?&?&?&?).
  split_and!; congruence.
Qed.

Section ReadlineFrame.
Context {T : Type}.
Implicit Types (tcr : testCaseRun) (complete : @completer T) (t : T).

Lemma write_lines_same ls tcr : same_transcript tcr (write_lines ls tcr).
Proof.
  revert tcr. induction ls as [|l ls IH]; intros tcr; [apply same_transcript_refl|].
  unfold write_lines in *. simpl.
  eapply same_transcript_trans; [|apply IH]. by repeat split.
Qed.

Lemma Readline_frame tcr prompt complete t :
  let tcr' := (Readline tcr prompt complete t).1.1 in
  same_transcript tcr tcr' /\
  readlinesPos tcr <= readlinesPos tcr' <= S (readlinesPos tcr) /\
  readlinesPos tcr' <= readlinesPos tcr `max` length (readlines tcr) /\
  exists w, actualStdoutBuf tcr' = actualStdoutBuf tcr +:+ prompt +:+ w.
Proof.
  destruct (readlines tcr !! readlinesPos tcr) as [turn|] eqn:Hturn.
  - pose proof (lookup_lt_Some _ _ _ Hturn) as Hlt.
    unfold Readline. simpl. rewrite Hturn.
    destruct (HasSuffix (Unescape (rl_input turn)) tab).
    + destruct (complete t _ _) as [t' [newLine shared]]. simpl.
      set (r1 := WriteStdout (rl_input turn +:+ nl)
                   (consume_turn (rl_env turn) (WriteStdout prompt tcr))).
      destruct (write_lines_cursor newLine r1) as (_ & Hpos & _ & _).
      rewrite Hpos, write_lines_buf. simpl. split_and!; try lia.
      * eapply same_transcript_trans; [|apply write_lines_same]. by repeat split.
      * eexists. by rewrite !sapp_assoc.
    + destruct (String.eqb _ _); simpl; (split_and!; try lia;
        [by repeat split | eexists; by rewrite !sapp_assoc]).
  - rewrite Readline_exhausted by done. simpl. split_and!; try lia.
    + by repeat split.
    + exists "". by rewrite sapp_nil_r.
Qed.

(** X18: whatever the tool asks and however often, [Readline] touches three
    things of an invocation only: the captured stdout, which only grows, the
    cursor, which moves forward by at most one turn a call and never past
    the end of the turns (when it started within them), and the environment
    of the turn in force.  The command, the arguments, the base environment,
    the standard input, the expectations, the captured stderr, the exit code
    and the turns themselves stay as they are; and every call returns. *)
Theorem Readlines_frame tcr (prompts : list string) complete t :
  let tcr' := (Readlines tcr prompts complete t).1.1 in
  same_transcript tcr tcr' /\
  readlinesPos tcr <= readlinesPos tcr' <= readlinesPos tcr + length prompts /\
  readlinesPos tcr' <= readlinesPos tcr `max` length (readlines tcr) /\
  (exists w, actualStdoutBuf tcr' = actualStdoutBuf tcr +:+ w) /\
  length (Readlines tcr prompts complete t).2 = length prompts.
Proof.
  revert tcr t. induction prompts as [|p ps IH]; intros tcr t.
  - simpl. split; [apply same_transcript_refl|].
    split_and!; try lia; try done.
    exists "". by rewrite sapp_nil_r.
  - pose proof (Readline_frame tcr p complete t) as H1.
    cbn [Readlines].
    destruct (Readline tcr p complete t) as [[tcr1 t1] res].
    pose proof (IH tcr1 t1) as H2.
    destruct (Readlines tcr1 ps complete t1) as [[tcr2 t2] ress].
    simpl in *.
    destruct H1 as (Hs1 & Hp1 & Hm1 & w1 & Hw1).
    destruct H2 as (Hs2 & Hp2 & Hm2 & (w2 & Hw2) & Hlen).
    assert (readlines tcr1 = readlines tcr) as Hrl by apply Hs1.
    rewrite Hrl in Hm2.
    split; [by eapply same_transcript_trans|].
    split_and!; try lia.
    eexists. by rewrite Hw2, Hw1, !sapp_assoc.
Qed.

(** X19: once the turns of a dialog are used up, the end of the input is
    final: each further call writes its prompt and nothing else, returns the
    empty line with [io.EOF], never calls the completion function, and
    leaves the cursor and the environment of the last turn in force. *)
Theorem Readline_exhaustion_is_final tcr (prompts : list string) complete t :
  length (readlines tcr) <= readlinesPos tcr ->
  exists tcr',
    Readlines tcr prompts complete t =
      (tcr', t, replicate (length prompts) ("", Some EOF)) /\
    actualStdoutBuf tcr' = actualStdoutBuf tcr +:+ concat_strings prompts /\
    readlinesPos tcr' = readlinesPos tcr /\
    readlineEnv tcr' = readlineEnv tcr /\
    same_transcript tcr tcr'.
Proof.
  revert tcr. induction prompts as [|p ps IH]; intros tcr Hpos.
  - exists tcr. split; [done|]. split; [simpl; by rewrite sapp_nil_r|].
    split; [done|]. split; [done|]. apply same_transcript_refl.
  - cbn [Readlines]. rewrite Readline_exhausted by (by apply lookup_ge_None_2).
    destruct (IH (WriteStdout p tcr) Hpos) as (tcr' & -> & Hbuf & Hp & He & Hs).
    exists tcr'. split; [done|].
    split; [rewrite Hbuf; simpl; by rewrite sapp_assoc|].
    split; [done|]. split; [done|].
    eapply same_transcript_trans; [|exact Hs]. by repeat split.
Qed.

(** X20: a tool that asks with the prompt each turn expects and prints after
    it the output the turn expects leaves on the captured stdout exactly
    what [ToExpectedStdout] computes, for a dialog without completion
    requests started at its first turn: the comparison of the replay then
    finds no difference on stdout. *)
Theorem expected_session_matches tcr complete t :
  readlines tcr <> [] -> readlinesPos tcr = 0 -> actualStdoutBuf tcr = "" ->
  Forall (fun turn => HasSuffix (Unescape (rl_input turn)) tab = false)
         (readlines tcr) ->
  actualStdoutBuf (expected_session tcr (readlines tcr) complete t).1 =
    ToExpectedStdout tcr.
Proof.
  intros Hne Hpos Hbuf Hplain.
  assert (forall turns tcr0,
            drop (readlinesPos tcr0) (readlines tcr0) = turns ->
            Forall (fun turn => HasSuffix (Unescape (rl_input turn)) tab = false)
                   turns ->
            actualStdoutBuf (expected_session tcr0 turns complete t).1 =
              actualStdoutBuf tcr0 +:+ turns_text turns) as Hgen.
  { clear. induction turns as [|turn turns IH]; intros tcr0 Hdrop Hplain.
    - simpl. by rewrite sapp_nil_r.
    - assert (readlines tcr0 !! readlinesPos tcr0 = Some turn) as Hturn.
      { rewrite <- (Nat.add_0_r (readlinesPos tcr0)), <- lookup_drop.
        by rewrite Hdrop. }
      apply Forall_cons in Hplain as [Hp Hplain].
      destruct (Readline_turn tcr0 (rl_expectedPrompt turn) complete t turn Hturn)
        as (tcr1 & Hr & Hb & Hrl & Hps & _ & _).
      cbn [expected_session]. rewrite Hr.
      unfold turn_echo. rewrite Hp. cbn [fst snd].
      rewrite IH; [|simpl|done].
      + simpl. rewrite Hb. unfold turn_echo. rewrite Hp. simpl.
        by rewrite !sapp_assoc.
      + rewrite Hrl, Hps. erewrite drop_S in Hdrop by done. by injection Hdrop. }
  rewrite (Hgen (readlines tcr) tcr); [|by rewrite Hpos|done].
  rewrite Hbuf. unfold ToExpectedStdout.
  destruct (readlines tcr) as [|rl rls]; [done|].
  by rewrite ToExpectedStdout_fold.
Qed.

End ReadlineFrame.

Lemma Readline_exhaustion_is_final_witness :
  exists tcr',
    Readlines (consume_turn [] (dialog [] [turn_plain])) ["a> "; "b> "] complete_fo 0 =
      (tcr', 0, [("", Some EOF); ("", Some EOF)]) /\
    actualStdoutBuf tcr' = "a> b> " /\
    readlinesPos tcr' = 1 /\
    readlineEnv tcr' = [] /\
    same_transcript (consume_turn [] (dialog [] [turn_plain])) tcr'.
Proof.
  apply (Readline_exhaustion_is_final
           (consume_turn [] (dialog [] [turn_plain])) ["a> "; "b> "] complete_fo 0).
  simpl. lia.
Defined.

Lemma expected_session_matches_witness :
  actualStdoutBuf
    (expected_session (dialog [] [turn_width; turn_plain])
       (readlines (dialog [] [turn_width; turn_plain])) complete_fo 0).1 =
    ToExpectedStdout (dialog [] [turn_width; turn_plain]).
Proof.
  apply (expected_session_matches (dialog [] [turn_width; turn_plain]) complete_fo 0).
  - discriminate.
  - reflexivity.
  - reflexivity.
  - repeat constructor.
Defined.

(** ** [ToActual] read back *)

Lemma HasSuffix_app s x : HasSuffix (s +:+ x) x = true.
Proof. apply HasSuffix_spec. by exists s. Qed.

Lemma TrimSuffix_app s x : TrimSuffix (s +:+ x) x = s.
Proof.
  unfold TrimSuffix. rewrite HasSuffix_app, len_app.
  replace (len s + len x - len x) with (len s) by lia.
  apply take_bytes_app.
Qed.

Lemma TrimSuffix_fixed s x :
  0 < len x -> (TrimSuffix s x = s <-> HasSuffix s x = false).
Proof.
  intros Hx. unfold TrimSuffix. destruct (HasSuffix s x) eqn:Hs; [|done].
  split; [|done]. intros Heq.
  apply HasSuffix_spec in Hs as [r ->].
  apply (f_equal len) in Heq. rewrite len_take_bytes in Heq; rewrite len_app in *; lia.
Qed.

(** X21: the stdout block [ToActual] writes for an invocation is empty or
    ends in a newline, so the header that follows starts a line; and the
    parser, which strips one continuation marker from the end of the block,
    reads back the captured stdout exactly when the captured stdout does not
    itself end in a backslash and a newline: then a rewritten transcript
    expects what was captured. *)
Theorem rendered_stdout_reads_back (r : testCaseRun) :
  actualExitCode r = 0%Z -> stdin r = "" -> actualStderrBuf r = "" ->
  exists block,
    render_run r = ("$" +:+ command r +:+ nl) +:+ block /\
    (block = "" \/ HasSuffix block nl = true) /\
    (TrimSuffix block continuation = actualStdoutBuf r <->
     HasSuffix (actualStdoutBuf r) continuation = false).
Proof.
  intros Hexit Hstdin Hstderr. unfold render_run.
  rewrite Hexit, Hstdin, Hstderr. simpl.
  destruct (String.eqb_spec (actualStdoutBuf r) "") as [->|Hne]; simpl.
  - exists "". split; [done|]. split; [by left|done].
  - destruct (HasSuffix (actualStdoutBuf r) nl) eqn:Hnl; simpl.
    + exists (actualStdoutBuf r). rewrite !sapp_nil_r.
      split; [done|]. split; [by right|]. apply TrimSuffix_fixed. simpl. lia.
    + exists (actualStdoutBuf r +:+ continuation). rewrite !sapp_nil_r.
      split; [done|]. split.
      * right. apply HasSuffix_spec. exists (actualStdoutBuf r +:+ "\").
        by rewrite sapp_assoc.
      * rewrite TrimSuffix_app. split; [intros _|done].
        destruct (HasSuffix (actualStdoutBuf r) continuation) eqn:Hc; [|done].
        apply HasSuffix_spec in Hc as [x Hx].
        assert (HasSuffix (actualStdoutBuf r) nl = true) as Hnl'; [|congruence].
        apply HasSuffix_spec. exists (x +:+ "\"). by rewrite Hx, sapp_assoc.
Qed.

Lemma rendered_stdout_reads_back_witness :
  exists block,
    render_run run_no_newline = ("$" +:+ command run_no_newline +:+ nl) +:+ block /\
    (block = "" \/ HasSuffix block nl = true) /\
    (TrimSuffix block continuation = actualStdoutBuf run_no_newline <->
     HasSuffix (actualStdoutBuf run_no_newline) continuation = false).
Proof.
  apply (rendered_stdout_reads_back run_no_newline); reflexivity.
Defined.

(** ** The replay driver *)

Section ReplayMore.
Variable shquote_Split : string -> list string.
Variable shquote_Parse : string -> list Token.
Variable interp_New : testCaseRun -> bool.
Variable interp_Main : testCaseRun -> testCaseRun * option Z.
Variable selected : list string -> bool.
Variable writeActual : bool.

Local Abbreviation testDecodedTestCaseRun :=
  (testDecodedTestCaseRun interp_New interp_Main writeActual).
Local Abbreviation run_parts :=
  (run_parts interp_New interp_Main selected writeActual).
Local Abbreviation walk :=
  (walk shquote_Split shquote_Parse interp_New interp_Main selected writeActual).
Local Abbreviation TestPath :=
  (TestPath shquote_Split shquote_Parse interp_New interp_Main selected writeActual).

(** X22: the loop over the parts of a transcript neither adds, removes nor
    reorders parts: comments, fixtures and the invocations the runner's
    filter leaves out come out as they went in, a selected invocation comes
    out as an invocation; and [wasTested], once set, stays set. *)
Theorem replay_keeps_other_parts (file : string) (ps : list part) (tested : bool) :
  Forall2 (replay_of selected file) ps (run_parts file ps tested).1.1 /\
  (tested = true -> (run_parts file ps tested).1.2 = true).
Proof.
  revert tested. induction ps as [|p ps IH]; intros tested; [by split; [constructor|]|].
  assert (forall tested0 p',
            replay_of selected file p p' -> (tested = true -> tested0 = true) ->
            let out := run_parts file ps tested0 in
            Forall2 (replay_of selected file) (p :: ps) (p' :: out.1.1) /\
            (tested = true -> out.1.2 = true)) as Hrest.
  { intros tested0 p' Hp Ht. destruct (IH tested0) as [Hf Hm].
    split; [by constructor|]. intros ->. by apply Hm, Ht. }
  destruct p as [c|r|f]; simpl.
  - specialize (Hrest tested (PComment c) eq_refl (fun H => H)).
    by destruct (run_parts file ps tested) as [[ps0 t0] e0].
  - destruct (selected [file; subtest_name r]) eqn:Hsel.
    + destruct (testDecodedTestCaseRun r) as [[r' e]|].
      * assert (replay_of selected file (PRun r) (PRun r')) as Hp.
        { simpl. rewrite Hsel. eauto. }
        specialize (Hrest true (PRun r') Hp (fun _ => eq_refl)).
        by destruct (run_parts file ps true) as [[ps0 t0] e0].
      * assert (replay_of selected file (PRun r) (PRun r)) as Hp.
        { simpl. rewrite Hsel. eauto. }
        specialize (Hrest tested (PRun r) Hp (fun H => H)).
        by destruct (run_parts file ps tested) as [[ps0 t0] e0].
    + assert (replay_of selected file (PRun r) (PRun r)) as Hp.
      { simpl. by rewrite Hsel. }
      specialize (Hrest tested (PRun r) Hp (fun H => H)).
      by destruct (run_parts file ps tested) as [[ps0 t0] e0].
  - specialize (Hrest tested (PFile f) eq_refl (fun H => H)).
    by destruct (run_parts file ps tested) as [[ps0 t0] e0].
Qed.

(** X23: a replayed invocation is one for which the interpreter could be
    built; the exit code of an [Exiter] error is the captured exit code; in
    rewrite mode no difference is ever reported, and in verify mode none is
    reported exactly when the exit code, the stdout and the stderr captured
    are the expected ones. *)
Theorem replay_verdict (r r' : testCaseRun) (errs : list string) :
  testDecodedTestCaseRun r = Some (r', errs) ->
  interp_New r = true /\
  (forall code, (interp_Main r).2 = Some code -> actualExitCode r' = code) /\
  (writeActual = true -> errs = []) /\
  (writeActual = false ->
   (errs = [] <->
    expectedExitCode r' = actualExitCode r' /\
    ToExpectedStdout r' = actualStdoutBuf r' /\
    ToExpectedStderr r' = actualStderrBuf r')).
Proof.
  unfold testDecodedTestCaseRun.
  destruct (interp_New r); [|done].
  destruct (interp_Main r) as [r1 ex]. simpl.
  set (r2 := match ex with Some code => set_actualExitCode code r1 | None => r1 end).
  assert (forall code, ex = Some code -> actualExitCode r2 = code) as Hcode.
  { intros code ->. done. }
  destruct writeActual; intros [= <- <-].
  - split; [done|]. split; [done|]. split; [done|]. done.
  - split; [done|]. split; [done|]. split; [done|]. intros _.
    unfold compare.
    destruct (Z.eqb_spec (expectedExitCode r2) (actualExitCode r2));
      destruct (String.eqb_spec (ToExpectedStdout r2) (actualStdoutBuf r2));
      destruct (String.eqb_spec (ToExpectedStderr r2) (actualStderrBuf r2));
      simpl; split; try done; by intros (? & ? & ?).
Qed.

Lemma walk_panics files file b p :
  (file, Some b) ∈ files -> filepath_Ext file = ".fqtest" ->
  selected [file] = true ->
  parseTestCases shquote_Split shquote_Parse b = Panicked p ->
  exists p', walk files = Panicked p'.
Proof.
  intros Hin Hext Hsel Hp. induction files as [|[file0 content] files IH];
    [by apply elem_of_nil in Hin|].
  simpl.
  apply elem_of_cons in Hin as [[= <- <-]|Hin].
  - rewrite Hext, Hsel, Hp. simpl. eauto.
  - destruct (IH Hin) as [p' Hw].
    destruct (negb (String.eqb (filepath_Ext file0) ".fqtest")); [eauto|].
    destruct (negb (selected [file0])); [eauto|].
    destruct content as [b0|].
    + destruct (parseTestCases shquote_Split shquote_Parse b0) as [tc0|p0];
        cbn [bind]; [|eauto].
      destruct (run_parts file0 (parts tc0) false) as [[ps tested] e].
      rewrite Hw. simpl. eauto.
    + rewrite Hw. simpl. eauto.
Qed.

(** X24: one transcript on which the parser panics stops the whole run:
    when a selected file with the extension [.fqtest] holds such a
    transcript, [TestPath] ends in a panic and writes nothing back, also
    for the transcripts replayed before it. *)
Theorem unparsable_transcript_aborts files file b p :
  (file, Some b) ∈ files -> filepath_Ext file = ".fqtest" ->
  selected [file] = true ->
  parseTestCases shquote_Split shquote_Parse b = Panicked p ->
  exists p', TestPath files = Panicked p'.
Proof.
  intros Hin Hext Hsel Hp.
  destruct (walk_panics files file b p Hin Hext Hsel Hp) as [p' Hw].
  exists p'. unfold TestPath. by rewrite Hw.
Qed.
End ReplayMore.

Lemma replay_keeps_other_parts_witness :
  Forall2 (replay_of (fun _ => true) "a.fqtest") (parts tc_fixtures)
    (run_parts (fun _ => true) tool_hi (fun _ => true) true
       "a.fqtest" (parts tc_fixtures) true).1.1 /\
  (run_parts (fun _ => true) tool_hi (fun _ => true) true
     "a.fqtest" (parts tc_fixtures) true).1.2 = true.
Proof.
  destruct (replay_keeps_other_parts (fun _ => true) tool_hi (fun _ => true) true
              "a.fqtest" (parts tc_fixtures) true) as [Hparts Htested].
  split; [exact Hparts | exact (Htested eq_refl)].
Defined.

Lemma replay_verdict_witness :
  true = true /\
  (forall code, (tool_hi run_echo).2 = Some code ->
     actualExitCode (set_actualExitCode 3 (WriteStdout "hi" run_echo)) = code) /\
  (false = true -> ["stdout"] = []) /\
  (false = false ->
   (["stdout"] = [] <->
    expectedExitCode (set_actualExitCode 3 (WriteStdout "hi" run_echo)) =
      actualExitCode (set_actualExitCode 3 (WriteStdout "hi" run_echo)) /\
    ToExpectedStdout (set_actualExitCode 3 (WriteStdout "hi" run_echo)) =
      actualStdoutBuf (set_actualExitCode 3 (WriteStdout "hi" run_echo)) /\
    ToExpectedStderr (set_actualExitCode 3 (WriteStdout "hi" run_echo)) =
      actualStderrBuf (set_actualExitCode 3 (WriteStdout "hi" run_echo)))).
Proof.
  exact (replay_verdict (fun _ => true) tool_hi false run_echo
           (set_actualExitCode 3 (WriteStdout "hi" run_echo)) ["stdout"] eq_refl).
Defined.

Lemma unparsable_transcript_aborts_witness :
  exists p',
    TestPath shquote_Split_model shquote_Parse_model (fun _ => true) tool_hi
      (fun _ => true) true files_broken = Panicked p'.
Proof.
  apply (unparsable_transcript_aborts shquote_Split_model shquote_Parse_model
           (fun _ => true) tool_hi (fun _ => true) true
           files_broken "broken.fqtest" transcript_stdin_first NilDereference).
  - right. left.
  - reflexivity.
  - reflexivity.
  - reflexivity.
Defined.

(** ** The exit code read back *)

Lemma digit_val_of_digit d :
  (0 <= d < 10)%Z -> digit_val (ascii_of_nat (Z.to_nat (48 + d))) = Some d.
Proof.
  intros Hd.
  assert (d = 0 \/ d = 1 \/ d = 2 \/ d = 3 \/ d = 4 \/ d = 5 \/ d = 6 \/ d = 7 \/
          d = 8 \/ d = 9)%Z as Hcases by lia.
  repeat (destruct Hcases as [->|Hcases]; [reflexivity|]). by subst.
Qed.

(** [pos_digits] puts the decimal digits of [n] in front of [acc]. *)
Lemma pos_digits_spec fuel n :
  (0 <= n < 2 ^ Z.of_nat fuel)%Z -> 0 < fuel ->
  exists ds k,
    ds <> "" /\ all_digits ds /\
    (forall acc, pos_digits fuel n acc = ds +:+ acc) /\
    (forall m acc, atoi_digits m (ds +:+ acc) = atoi_digits (m * 10 ^ k + n)%Z acc) /\
    (forall m acc,
       (0 <= m)%Z -> (m * 10 ^ k + n <= maxUint64)%Z ->
       parseUint_digits m (ds +:+ acc) = parseUint_digits (m * 10 ^ k + n)%Z acc) /\
    (0 <= k)%Z /\ len ds = Z.to_nat k.
Proof.
  assert (maxUint64 = 18446744073709551615)%Z as Hmax by reflexivity.
  assert (maxUint64 / 10 + 1 = 1844674407370955162)%Z as Hmax10 by reflexivity.
  revert n. induction fuel as [|fuel IH]; intros n Hn Hfuel; [lia|].
  set (d := ascii_of_nat (Z.to_nat (48 + n mod 10))).
  assert (digit_val d = Some (n mod 10)%Z) as Hd.
  { apply digit_val_of_digit. apply Z.mod_pos_bound. lia. }
  destruct (Z.ltb_spec n 10) as [Hsmall|Hbig].
  - exists (String d ""), 1%Z.
    assert (n mod 10 = n)%Z as Hmod by (apply Z.mod_small; lia).
    split_and!; try done.
    + apply Forall_singleton. unfold is_digit. by rewrite Hd.
    + intros acc. simpl. fold d. by destruct (Z.ltb_spec n 10); [|lia].
    + intros m acc. rewrite sapp_cons, sapp_nil_l. simpl. rewrite Hd, Hmod.
      f_equal; lia.
    + intros m acc Hm Hle. rewrite sapp_cons, sapp_nil_l.
      cbn [parseUint_digits]. rewrite Hd, Hmod.
      destruct (Z.leb_spec (maxUint64 / 10 + 1) m) as [Hov|_];
        [rewrite Hmax10 in Hov; rewrite Hmax in Hle; lia|].
      destruct (Z.ltb_spec maxUint64 (m * 10 + n)) as [Hov|_];
        [rewrite Hmax in Hov, Hle; lia|].
      f_equal; lia.
  - assert (0 < fuel) as Hfuel'.
    { destruct fuel; [|lia]. simpl in Hn. lia. }
    assert (0 <= n / 10 < 2 ^ Z.of_nat fuel)%Z as Hdiv.
    { split; [apply Z.div_pos; lia|].
      apply Z.div_lt_upper_bound; [lia|].
      rewrite Nat2Z.inj_succ, Z.pow_succ_r in Hn by lia. lia. }
    destruct (IH (n / 10)%Z Hdiv Hfuel')
      as (ds & k & Hne & Hall & Happ & Hatoi & Hparse & Hk & Hlen).
    pose proof (Z.div_mod n 10 ltac:(lia)) as Hdm.
    assert (0 <= n mod 10 < 10)%Z as Hmod by (apply Z.mod_pos_bound; lia).
    exists (ds +:+ String d ""), (k + 1)%Z.
    split_and!.
    + destruct ds; [done|]. by rewrite sapp_cons.
    + unfold all_digits. rewrite bytes_app. apply Forall_app. split; [done|].
      apply Forall_singleton. unfold is_digit. by rewrite Hd.
    + intros acc. simpl. fold d. destruct (Z.ltb_spec n 10); [lia|].
      by rewrite Happ, sapp_assoc.
    + intros m acc. rewrite sapp_assoc, Hatoi, sapp_cons, sapp_nil_l. simpl.
      rewrite Hd. f_equal. rewrite Z.pow_add_r by lia. lia.
    + intros m acc Hm Hle.
      assert (m * 10 ^ (k + 1) + n = (m * 10 ^ k + n / 10) * 10 + n mod 10)%Z as Hval.
      { rewrite Z.pow_add_r by lia. lia. }
      assert (0 <= m * 10 ^ k)%Z by (apply Z.mul_nonneg_nonneg; lia).
      rewrite Hmax in Hle.
      rewrite sapp_assoc, Hparse by (rewrite ?Hmax; lia).
      rewrite sapp_cons, sapp_nil_l. cbn [parseUint_digits]. rewrite Hd.
      destruct (Z.leb_spec (maxUint64 / 10 + 1) (m * 10 ^ k + n / 10)) as [Hov|_];
        [rewrite Hmax10 in Hov; lia|].
      destruct (Z.ltb_spec maxUint64 ((m * 10 ^ k + n / 10) * 10 + n mod 10))
        as [Hov|_]; [rewrite Hmax in Hov; lia|].
      by rewrite Hval.
    + lia.
    + rewrite len_app, Hlen. simpl. lia.
Qed.

Lemma Itoa_spec n :
  (0 <= n)%Z ->
  exists ds k,
    ds <> "" /\ all_digits ds /\
    Itoa n = ds /\ Itoa (- n) = (if (0 <? n)%Z then String "-" ds else ds) /\
    (forall m acc, atoi_digits m (ds +:+ acc) = atoi_digits (m * 10 ^ k + n)%Z acc) /\
    (forall m acc,
       (0 <= m)%Z -> (m * 10 ^ k + n <= maxUint64)%Z ->
       parseUint_digits m (ds +:+ acc) = parseUint_digits (m * 10 ^ k + n)%Z acc) /\
    len ds = Z.to_nat k.
Proof.
  intros Hn.
  assert (0 <= n < 2 ^ Z.of_nat (Z.to_nat (Z.log2 n) + 1))%Z as Hfuel.
  { split; [done|]. pose proof (Z.log2_nonneg n).
    replace (Z.of_nat (Z.to_nat (Z.log2 n) + 1)) with (Z.succ (Z.log2 n)) by lia.
    destruct (decide (n = 0%Z)) as [->|]; [done|]. apply Z.log2_spec. lia. }
  destruct (pos_digits_spec _ n Hfuel ltac:(lia))
    as (ds & k & Hne & Hall & Happ & Hatoi & Hparse & _ & Hlen).
  exists ds, k. split_and!; try done.
  - unfold Itoa. destruct (Z.ltb_spec n 0); [lia|]. by rewrite Happ, sapp_nil_r.
  - unfold Itoa. destruct (Z.ltb_spec 0 n).
    + destruct (Z.ltb_spec (- n) 0); [|lia].
      rewrite Z.opp_involutive. by rewrite Happ, sapp_nil_r.
    + assert (n = 0)%Z as -> by lia. simpl.
      specialize (Happ ""). by rewrite sapp_nil_r in Happ.
Qed.

Lemma digit_not_sign c :
  is_digit c -> Ascii.eqb c "-" = false /\ Ascii.eqb c "+" = false.
Proof.
  intros [x Hx].
  destruct c as [[] [] [] [] [] [] [] []]; try (by vm_compute in Hx); done.
Qed.

Lemma leading_space_numeral c r :
  is_digit c \/ c = "-"%char -> leading_space space_encodings (String c r) = None.
Proof.
  intros [[x Hx]| ->]; [|reflexivity].
  destruct c as [[] [] [] [] [] [] [] []]; try (by vm_compute in Hx); reflexivity.
Qed.

Lemma trailing_space_digit c r :
  is_digit c -> leading_space (map string_rev space_encodings) (String c r) = None.
Proof.
  intros [x Hx].
  destruct c as [[] [] [] [] [] [] [] []]; try (by vm_compute in Hx); reflexivity.
Qed.

Lemma trim_left_none encs fuel s :
  leading_space encs s = None -> trim_left encs fuel s = s.
Proof. intros H. destruct fuel; simpl; [done|]. by rewrite H. Qed.

(** The numerals of [Itoa] have no white space at either end, so
    [TrimSpace] strips the blank before them and nothing else. *)
Lemma TrimSpace_numeral pre ds :
  ds <> "" -> all_digits ds -> pre = "" \/ pre = "-" ->
  TrimSpace (" " +:+ pre +:+ ds) = pre +:+ ds.
Proof.
  intros Hne Hall Hpre.
  assert (exists c r, pre +:+ ds = String c r /\ (is_digit c \/ c = "-"%char))
    as (c & r & Hs & Hc).
  { destruct Hpre as [->| ->].
    - destruct ds as [|c r]; [done|]. exists c, r. split; [done|].
      left. by apply Forall_inv in Hall.
    - exists "-"%char, ds. split; [done|]. by right. }
  assert (exists c' r', string_rev (pre +:+ ds) = String c' r' /\ is_digit c')
    as (c' & r' & Hrev & Hc').
  { unfold string_rev. rewrite bytes_app, rev_app_distr.
    assert (Forall is_digit (rev (bytes_of_string ds))) as Hall'.
    { apply List.Forall_forall. intros x Hx%in_rev.
      unfold all_digits in Hall. rewrite List.Forall_forall in Hall. by apply Hall. }
    destruct (rev (bytes_of_string ds)) as [|c' l] eqn:Hr.
    - apply (f_equal (@rev ascii)) in Hr. rewrite rev_involutive in Hr. simpl in Hr.
      destruct ds; [done|discriminate].
    - exists c', (string_of_bytes (l ++ rev (bytes_of_string pre))). split; [done|].
      by apply Forall_inv in Hall'. }
  unfold TrimSpace.
  assert (TrimLeftSpace (" " +:+ pre +:+ ds) = pre +:+ ds) as ->.
  { rewrite Hs. unfold TrimLeftSpace.
    change (" " +:+ String c r) with (String " " (String c r)).
    cbn [len String.length trim_left].
    assert (leading_space space_encodings (String " " (String c r)) = Some 1) as ->
      by reflexivity.
    cbn [drop_bytes]. by rewrite leading_space_numeral. }
  unfold TrimRightSpace. rewrite Hrev.
  rewrite trim_left_none by (by apply trailing_space_digit).
  rewrite <- Hrev. apply string_rev_involutive.
Qed.

(** [Atoi] on the numerals of [Itoa], on both of its paths. *)
Lemma Atoi_numeral ds k n :
  ds <> "" -> all_digits ds -> (0 <= n)%Z ->
  (forall m acc, atoi_digits m (ds +:+ acc) = atoi_digits (m * 10 ^ k + n)%Z acc) ->
  (forall m acc,
     (0 <= m)%Z -> (m * 10 ^ k + n <= maxUint64)%Z ->
     parseUint_digits m (ds +:+ acc) = parseUint_digits (m * 10 ^ k + n)%Z acc) ->
  ((n < 2 ^ 63)%Z -> Atoi ds = (n, None)) /\
  ((n <= 2 ^ 63)%Z -> Atoi (String "-" ds) = ((- n)%Z, None)).
Proof.
  intros Hne Hall Hn Hatoi Hparse.
  assert (maxUint64 = 18446744073709551615)%Z as Hmax by reflexivity.
  assert (atoi_digits 0 ds = Some n) as Ha.
  { specialize (Hatoi 0%Z ""). by rewrite sapp_nil_r in Hatoi. }
  assert ((n <= maxUint64)%Z -> ParseUint ds = (n, None)) as Hp.
  { intros Hle. specialize (Hparse 0%Z "" ltac:(lia) ltac:(lia)).
    rewrite sapp_nil_r in Hparse. unfold ParseUint. by destruct ds. }
  destruct ds as [|c r]; [done|].
  destruct (digit_not_sign c (Forall_inv Hall)) as [Hminus Hplus].
  split; intros Hrange.
  - unfold Atoi. destruct (len (String c r) <? 19)%nat.
    + rewrite Hminus, Hplus. cbn [orb]. by rewrite Ha.
    + unfold ParseInt. rewrite Hminus, Hplus. cbn [orb negb andb].
      rewrite Hp by (rewrite Hmax; lia).
      by destruct (Z.leb_spec (2 ^ 63) n); [lia|].
  - unfold Atoi. destruct (len (String "-" (String c r)) <? 19)%nat.
    + cbn [Ascii.eqb Bool.eqb orb]. by rewrite Ha.
    + unfold ParseInt. cbn [Ascii.eqb Bool.eqb orb negb andb].
      rewrite Hp by (rewrite Hmax; lia).
      by destruct (Z.ltb_spec (2 ^ 63) n); [lia|].
Qed.

(** X25: the exit-code line of a rewritten transcript reads back: for every
    exit code of the range of a 64-bit [int], the line [ToActual] writes is
    a section header in full for the parser's regexp, and the integer the
    builder reads from it is that exit code. *)
Theorem exitcode_line_reads_back (n : Z) (l : nat) (v : string) :
  (- 2 ^ 63 <= n < 2 ^ 63)%Z ->
  sectionRe (exitcode_line n) = [exitcode_line n] /\
  exitcode_header {| LineNr := l; Name := exitcode_line n; Value := v |} = true /\
  exitcode_on {| LineNr := l; Name := exitcode_line n; Value := v |} = n.
Proof.
  intros Hn. split; [done|]. split; [done|].
  unfold exitcode_on, exitcode_line. cbn [Name].
  assert (forall s, TrimPrefix ("exitcode: " +:+ s) "exitcode:" = " " +:+ s) as ->.
  { intros s. change ("exitcode: " +:+ s) with ("exitcode:" +:+ (" " +:+ s)).
    unfold TrimPrefix.
    assert (HasPrefix ("exitcode:" +:+ (" " +:+ s)) "exitcode:" = true) as ->
      by (apply HasPrefix_spec; eauto).
    apply (drop_bytes_app "exitcode:"). }
  destruct (Z.ltb_spec n 0) as [Hneg|Hpos].
  - destruct (Itoa_spec (- n) ltac:(lia))
      as (ds & k & Hne & Hall & _ & HI & Hatoi & Hparse & _).
    rewrite Z.opp_involutive in HI. rewrite HI.
    destruct (Z.ltb_spec 0 (- n)); [|lia].
    change (" " +:+ String "-" ds) with (" " +:+ "-" +:+ ds).
    rewrite TrimSpace_numeral by eauto.
    change ("-" +:+ ds) with (String "-" ds).
    destruct (Atoi_numeral ds k (- n) Hne Hall ltac:(lia) Hatoi Hparse) as [_ Hm].
    rewrite Hm by lia. simpl. lia.
  - destruct (Itoa_spec n Hpos) as (ds & k & Hne & Hall & HI & _ & Hatoi & Hparse & _).
    rewrite HI. change (" " +:+ ds) with (" " +:+ "" +:+ ds).
    rewrite TrimSpace_numeral by eauto.
    change ("" +:+ ds) with ds.
    destruct (Atoi_numeral ds k n Hne Hall Hpos Hatoi Hparse) as [Hp _].
    by rewrite Hp by lia.
Qed.

Lemma exitcode_line_reads_back_witness :
  sectionRe (exitcode_line (-3)) = [exitcode_line (-3)] /\
  exitcode_header {| LineNr := 3; Name := exitcode_line (-3); Value := "" |} = true /\
  exitcode_on {| LineNr := 3; Name := exitcode_line (-3); Value := "" |} = (-3)%Z.
Proof.
  apply (exitcode_line_reads_back (-3) 3 ""). lia.
Defined.
